(** * Webhook pipeline of the Dodo Payments boilerplate

    A shallow embedding of the webhook receiver ([src/webhooks/handler.ts]),
    of the database client it calls ([src/db/client.ts], with the constraints
    of [supabase/schema.sql]) and of the payment processor
    ([src/payments/payment-handlers.ts]), followed by the properties of the
    event-processing pipeline.

    Conventions.  A JavaScript string is a Rocq [string] holding its UTF-8
    bytes; a byte and a 32-bit word are [Z] with the wrap-around written out;
    [async] functions are run to completion one after the other, so a call is
    a state transformer that returns either a thrown error or a value. *)

From Stdlib Require Import ZArith List Bool String Ascii Lia.
Import ListNotations.
Open Scope string_scope.
Open Scope list_scope.
Open Scope Z_scope.

(* ================================================================== *)
(** * Errors *)

(** The [Error] subclasses that can be thrown on the paths modelled here. *)
Inductive err_kind : Type :=
| PlainError | TypeError | RangeError | SyntaxError.

Record exn : Type := Throw { exn_kind : err_kind; exn_message : string }.

(** A computation without side effects that may throw. *)
Definition res (A : Type) : Type := (exn + A)%type.

(* ================================================================== *)
(** * Bytes and hexadecimal text *)

Definition byte_of_ascii (c : ascii) : Z := Z.of_N (N_of_ascii c).

Fixpoint bytes_of_string (s : string) : list Z :=
  match s with
  | EmptyString => []
  | String c r => byte_of_ascii c :: bytes_of_string r
  end.

Module Hex.

(** One lowercase hexadecimal digit, as [digest('hex')] prints it. *)
Definition digit (n : Z) : ascii :=
  if n <? 10 then ascii_of_N (Z.to_N (48 + n))
  else ascii_of_N (Z.to_N (87 + n)).

Fixpoint encode (bs : list Z) : string :=
  match bs with
  | [] => EmptyString
  | b :: r => String (digit (b / 16)) (String (digit (b mod 16)) (encode r))
  end.

(** Value of a hexadecimal digit; both cases are read. *)
Definition unhex (c : ascii) : option Z :=
  let n := byte_of_ascii c in
  if (48 <=? n) && (n <=? 57) then Some (n - 48)
  else if (97 <=? n) && (n <=? 102) then Some (n - 87)
  else if (65 <=? n) && (n <=? 70) then Some (n - 55)
  else None.

(** [Buffer.from(s, 'hex')]: pairs of digits are decoded from the left and
    decoding stops, without an error, at the first pair that is not two
    hexadecimal digits; a last unpaired character is dropped. *)
Fixpoint decode (s : string) : list Z :=
  match s with
  | String a (String b r) =>
      match unhex a, unhex b with
      | Some x, Some y => (16 * x + y) :: decode r
      | _, _ => []
      end
  | _ => []
  end.

Definition is_lower_digit (c : ascii) : bool :=
  let n := byte_of_ascii c in
  ((48 <=? n) && (n <=? 57)) || ((97 <=? n) && (n <=? 102)).

Fixpoint all_lower_digits (s : string) : bool :=
  match s with
  | EmptyString => true
  | String c r => is_lower_digit c && all_lower_digits r
  end.

End Hex.

(* ================================================================== *)
(** * SHA-256 and HMAC (the [crypto] module) *)

Module Sha256.

Definition modulus : Z := 2 ^ 32.
Definition add32 (a b : Z) : Z := (a + b) mod modulus.
Definition not32 (a : Z) : Z := Z.lxor a (modulus - 1).
Definition rotr (n x : Z) : Z :=
  Z.lor (Z.shiftr x n) ((Z.shiftl x (32 - n)) mod modulus).

Definition Ch (x y z : Z) : Z := Z.lxor (Z.land x y) (Z.land (not32 x) z).
Definition Maj (x y z : Z) : Z :=
  Z.lxor (Z.lxor (Z.land x y) (Z.land x z)) (Z.land y z).
Definition Sigma0 (x : Z) : Z := Z.lxor (Z.lxor (rotr 2 x) (rotr 13 x)) (rotr 22 x).
Definition Sigma1 (x : Z) : Z := Z.lxor (Z.lxor (rotr 6 x) (rotr 11 x)) (rotr 25 x).
Definition sigma0 (x : Z) : Z := Z.lxor (Z.lxor (rotr 7 x) (rotr 18 x)) (Z.shiftr x 3).
Definition sigma1 (x : Z) : Z := Z.lxor (Z.lxor (rotr 17 x) (rotr 19 x)) (Z.shiftr x 10).

(** The first [count] primes, by trial division by the primes found so far. *)
Fixpoint primes_from (fuel : nat) (n : Z) (count : nat) (found : list Z) : list Z :=
  match fuel, count with
  | S f, S c =>
      if forallb (fun p => negb (n mod p =? 0)) found
      then primes_from f (n + 1) c (n :: found)
      else primes_from f (n + 1) count found
  | _, _ => rev found
  end.

Definition first_primes (count : nat) : list Z := primes_from 400 2 count [].

(** Integer cube root by bisection: [lo ^ 3 <= x < hi ^ 3] throughout. *)
Fixpoint cube_root_between (fuel : nat) (lo hi x : Z) : Z :=
  match fuel with
  | O => lo
  | S f =>
      let mid := (lo + hi) / 2 in
      if mid * mid * mid <=? x then cube_root_between f mid hi x
      else cube_root_between f lo mid x
  end.

(** First 32 bits of the fractional part of the cube root, and of the square
    root, of a small number. *)
Definition frac_cube_root (p : Z) : Z :=
  cube_root_between 40 0 (2 ^ 40) (p * 2 ^ 96) mod modulus.

Definition frac_square_root (p : Z) : Z := Z.sqrt (p * 2 ^ 64) mod modulus.

(** The round constants: from the cube roots of the first 64 primes. *)
Definition K : list Z := Eval vm_compute in map frac_cube_root (first_primes 64).

(** The eight working variables, [a] first. *)
Definition state : Type := (Z * Z * Z * Z * Z * Z * Z * Z)%type.

(** The initial hash value: from the square roots of the first 8 primes. *)
Definition init : state :=
  Eval vm_compute in
    match map frac_square_root (first_primes 8) with
    | [a; b; c; d; e; f; g; h] => (a, b, c, d, e, f, g, h)
    | _ => (0, 0, 0, 0, 0, 0, 0, 0)
    end.

Definition be32 (b0 b1 b2 b3 : Z) : Z :=
  ((b0 * 256 + b1) * 256 + b2) * 256 + b3.

Fixpoint words (bs : list Z) : list Z :=
  match bs with
  | b0 :: b1 :: b2 :: b3 :: r => be32 b0 b1 b2 b3 :: words r
  | _ => []
  end.

Definition unbe32 (w : Z) : list Z :=
  [ (w / 16777216) mod 256; (w / 65536) mod 256; (w / 256) mod 256; w mod 256 ].

(** Message schedule, kept most recent word first: [rev_w] holds
    [W(t-1), W(t-2), ...]. *)
Fixpoint extend (n : nat) (rev_w : list Z) : list Z :=
  match n with
  | O => rev_w
  | S n' =>
      let w2 := nth 1 rev_w 0 in
      let w7 := nth 6 rev_w 0 in
      let w15 := nth 14 rev_w 0 in
      let w16 := nth 15 rev_w 0 in
      extend n' (add32 (add32 (sigma1 w2) w7) (add32 (sigma0 w15) w16) :: rev_w)
  end.

Definition schedule (block : list Z) : list Z :=
  rev (extend 48 (rev (words block))).

Definition round (st : state) (kw : Z * Z) : state :=
  let '(a, b, c, d, e, f, g, h) := st in
  let t1 := add32 (add32 (add32 h (Sigma1 e)) (add32 (Ch e f g) (fst kw))) (snd kw) in
  let t2 := add32 (Sigma0 a) (Maj a b c) in
  (add32 t1 t2, a, b, c, add32 d t1, e, f, g).

Definition compress (st : state) (block : list Z) : state :=
  let '(a, b, c, d, e, f, g, h) := st in
  let '(a', b', c', d', e', f', g', h') :=
    fold_left round (combine K (schedule block)) st in
  (add32 a a', add32 b b', add32 c c', add32 d d',
   add32 e e', add32 f f', add32 g g', add32 h h').

Definition pad (msg : list Z) : list Z :=
  let len := Z.of_nat (List.length msg) in
  let zeros := Z.to_nat ((55 - len) mod 64) in
  let bits := 8 * len in
  msg ++ [128] ++ repeat 0 zeros
      ++ unbe32 ((bits / modulus) mod modulus) ++ unbe32 (bits mod modulus).

Fixpoint blocks (n : nat) (st : state) (bs : list Z) : state :=
  match n with
  | O => st
  | S n' => blocks n' (compress st (firstn 64 bs)) (skipn 64 bs)
  end.

Definition output (st : state) : list Z :=
  let '(a, b, c, d, e, f, g, h) := st in
  unbe32 a ++ unbe32 b ++ unbe32 c ++ unbe32 d
    ++ unbe32 e ++ unbe32 f ++ unbe32 g ++ unbe32 h.

Definition digest (msg : list Z) : list Z :=
  let p := pad msg in
  output (blocks (Nat.div (List.length p) 64) init p).

End Sha256.

Module Hmac.

Definition block_size : nat := 64.

Definition block_key (key : list Z) : list Z :=
  let k := if Nat.ltb block_size (List.length key) then Sha256.digest key else key in
  k ++ repeat 0 (block_size - List.length k).

(** [createHmac('sha256', key).update(msg).digest()] *)
Definition sha256 (key msg : list Z) : list Z :=
  let k := block_key key in
  Sha256.digest (map (Z.lxor 92) k ++ Sha256.digest (map (Z.lxor 54) k ++ msg)).

End Hmac.

(** [createHmac('sha256', secret).update(payload).digest('hex')] *)
Definition hmac_hex (secret payload : string) : string :=
  Hex.encode (Hmac.sha256 (bytes_of_string secret) (bytes_of_string payload)).

(* ================================================================== *)
(** * Signature verifier ([verifyWebhookSignature]) *)

(** [config.dodo.webhookSecret]: optional in the environment schema. *)
Record Config : Type := { webhookSecret : option string }.

Fixpoint drop (n : nat) (s : string) : string :=
  match n, s with
  | O, _ => s
  | S n', String _ r => drop n' r
  | S _, EmptyString => EmptyString
  end.

(** [s.replace(pat, '')] for a string pattern: the first occurrence of [pat],
    wherever it stands, is removed. *)
Fixpoint replace_first (pat s : string) : string :=
  if prefix pat s then drop (String.length pat) s
  else match s with
       | EmptyString => EmptyString
       | String c r => String c (replace_first pat r)
       end.

Fixpoint bytes_eqb (a b : list Z) : bool :=
  match a, b with
  | [], [] => true
  | x :: a', y :: b' => (x =? y) && bytes_eqb a' b'
  | _, _ => false
  end.

(** [crypto.timingSafeEqual]: throws on buffers of different byte length,
    compares the bytes otherwise. *)
Definition timingSafeEqual (a b : list Z) : res bool :=
  if Nat.eqb (List.length a) (List.length b) then inr (bytes_eqb a b)
  else inl (Throw RangeError "Input buffers must have the same byte length").

(** The body of the [try] block. *)
Definition verify_body (secret payload signature : string) : res bool :=
  let expectedSignature := hmac_hex secret payload in
  timingSafeEqual (Hex.decode (replace_first "sha256=" signature))
                  (Hex.decode expectedSignature).

Definition verifyWebhookSignature (cfg : Config) (payload signature : string) : bool :=
  match webhookSecret cfg with
  | None => true
  | Some secret =>
      if (secret =? "")%string then true
      else match verify_body secret payload signature with
           | inr b => b
           | inl _ => false
           end
  end.

(* ================================================================== *)
(** * Doubles *)

(** [floor (log2 (n / d))], for [0 < n] and [0 < d]. *)
Definition floor_log2 (n d : Z) : Z :=
  if d <=? n then Z.log2 (n / d) else - Z.log2_up ((d + n - 1) / n).

(** [n / d] rounded to the nearest integer, a tie going to the even one. *)
Definition nearest_even (n d : Z) : Z :=
  let q := n / d in
  let r := n mod d in
  if 2 * r <? d then q
  else if d <? 2 * r then q + 1
  else if Z.even q then q else q + 1.

(** The double nearest to [n / d], for [0 <= n] and [0 < d], a tie going to
    the even significand: [Some (s, x)] stands for [s * 2^x], [None] for
    [Infinity]. *)
Definition to_double (n d : Z) : option (Z * Z) :=
  if n =? 0 then Some (0, 0)
  else
    let x := Z.max (floor_log2 n d - 52) (-1074) in
    let s := if 0 <=? x then nearest_even n (d * 2 ^ x)
             else nearest_even (n * 2 ^ (- x)) d in
    if s =? 0 then Some (0, 0)
    else if 1024 <=? Z.log2 s + x then None
    else Some (s, x).

(** [s * 2^x] as a fraction. *)
Definition fraction (s x : Z) : Z * Z :=
  if 0 <=? x then (s * 2 ^ x, 1) else (s, 2 ^ (- x)).

(** The double nearest to the number written [m * 10^e], by its magnitude. *)
Definition double_of_decimal (m e : Z) : option (Z * Z) :=
  if 0 <=? e then to_double (Z.abs m * 10 ^ e) 1 else to_double (Z.abs m) (10 ^ (- e)).

(** A number is falsy when its double is zero. *)
Definition is_zero (m e : Z) : bool :=
  match double_of_decimal m e with
  | Some (0, _) => true
  | _ => false
  end.

(* ================================================================== *)
(** * JavaScript values *)

(** The values [JSON.parse] can build, and [undefined].  A number is kept as
    the decimal it was written as, [JNum m e] standing for [m * 10^e], in
    canonical form: [e = 0] for an integer, no trailing zero in [m] otherwise.
    It is rounded to a double where the program computes with it ([truthy],
    [iso_of_seconds]).  What is stored keeps the decimal as written: the
    model does not follow [JSON.stringify] where it rewrites a number (the
    digits beyond a double's, and [null] for what rounds to [Infinity]). *)
#[warnings="-register-all"]
Inductive jsval : Type :=
| JUndefined
| JNull
| JBool (b : bool)
| JNum (m e : Z)
| JStr (s : string)
| JArr (items : list jsval)
| JObj (fields : list (string * jsval)).

(** Own property of an object literal; with a repeated key the last one
    counts, as [JSON.parse] keeps it. *)
Fixpoint lookup (k : string) (fs : list (string * jsval)) : jsval :=
  match fs with
  | [] => JUndefined
  | (k', v) :: r =>
      match lookup k r with
      | JUndefined => if (k =? k')%string then v else JUndefined
      | later => later
      end
  end.

(** [v.k] for the property names the handlers read; none of them is found on
    a prototype, so only an object literal answers with something defined. *)
Definition get (v : jsval) (k : string) : res jsval :=
  match v with
  | JUndefined =>
      inl (Throw TypeError ("Cannot read properties of undefined (reading '" ++ k ++ "')"))
  | JNull =>
      inl (Throw TypeError ("Cannot read properties of null (reading '" ++ k ++ "')"))
  | JObj fs => inr (lookup k fs)
  | _ => inr JUndefined
  end.

(** [v?.k] *)
Definition get_opt (v : jsval) (k : string) : jsval :=
  match v with
  | JObj fs => lookup k fs
  | _ => JUndefined
  end.

Definition truthy (v : jsval) : bool :=
  match v with
  | JUndefined | JNull => false
  | JBool b => b
  | JNum m e => negb (is_zero m e)
  | JStr s => negb (s =? "")%string
  | JArr _ | JObj _ => true
  end.

(** [a || b] *)
Definition js_or (a b : jsval) : jsval := if truthy a then a else b.

(** An object literal as the database receives it: [JSON.stringify] leaves
    out the properties whose value is [undefined]. *)
Fixpoint sent (fs : list (string * jsval)) : list (string * jsval) :=
  match fs with
  | [] => []
  | (k, JUndefined) :: r => sent r
  | kv :: r => kv :: sent r
  end.

(* ================================================================== *)
(** * [JSON.parse] *)

Module Json.

Definition code (c : ascii) : Z := byte_of_ascii c.
Definition chr (n : Z) : ascii := ascii_of_N (Z.to_N n).

Definition is_ws (c : ascii) : bool :=
  let n := code c in (n =? 32) || (n =? 9) || (n =? 10) || (n =? 13).

Definition is_digit (c : ascii) : bool :=
  let n := code c in (48 <=? n) && (n <=? 57).

Fixpoint skip_ws (s : string) : string :=
  match s with
  | String c r => if is_ws c then skip_ws r else s
  | EmptyString => s
  end.

(** Longest run of decimal digits: its value so far, its length, the rest. *)
Fixpoint digits (acc : Z) (n : Z) (s : string) : Z * Z * string :=
  match s with
  | String c r =>
      if is_digit c then digits (10 * acc + (code c - 48)) (n + 1) r
      else (acc, n, s)
  | EmptyString => (acc, n, s)
  end.

(** Canonical form of [m * 10^e]. *)
Fixpoint strip (fuel : nat) (m e : Z) : Z * Z :=
  match fuel with
  | O => (m, e)
  | S f =>
      if (e <? 0) && (m mod 10 =? 0) then strip f (m / 10) (e + 1)
      else (m, e)
  end.

Definition canon (m e : Z) : jsval :=
  if m =? 0 then JNum 0 0
  else if 0 <=? e then JNum (m * 10 ^ e) 0
  else let '(m', e') := strip (Z.to_nat (- e)) m e in JNum m' e'.

(** int frac? exp?, after the optional minus sign. *)
Definition unsigned_number (s : string) : option (Z * Z * string) :=
  match s with
  | EmptyString => None
  | String c r =>
      if negb (is_digit c) then None
      else
        let '(ip, _, r1) :=
          if code c =? 48 then (0, 1, r) else digits 0 0 s in
        let '(m, fe, r2) :=
          match r1 with
          | String d r1' =>
              if code d =? 46 then
                let '(v, n, r') := digits ip 0 r1' in
                if n =? 0 then (ip, -1, r1) else (v, n, r')
              else (ip, 0, r1)
          | EmptyString => (ip, 0, r1)
          end in
        if fe <? 0 then None
        else
          match r2 with
          | String x r3 =>
              if (code x =? 101) || (code x =? 69) then
                let '(sign, r4) :=
                  match r3 with
                  | String y r3' =>
                      if code y =? 45 then (-1, r3')
                      else if code y =? 43 then (1, r3')
                      else (1, r3)
                  | EmptyString => (1, r3)
                  end in
                let '(ev, n, r5) := digits 0 0 r4 in
                if n =? 0 then None else Some (m, sign * ev - fe, r5)
              else Some (m, - fe, r2)
          | EmptyString => Some (m, - fe, r2)
          end
  end.

Definition number (s : string) : option (jsval * string) :=
  match s with
  | String c r =>
      if code c =? 45 then
        match unsigned_number r with
        | Some (m, e, r') => Some (canon (- m) e, r')
        | None => None
        end
      else
        match unsigned_number s with
        | Some (m, e, r') => Some (canon m e, r')
        | None => None
        end
  | EmptyString => None
  end.

(** What a string literal is made of: a byte copied from the text, or a
    UTF-16 code unit written as a [\uXXXX] escape. *)
Inductive item : Type :=
| Raw (b : Z)
| Unit16 (u : Z).

Definition hex4 (a b c d : ascii) : option Z :=
  match Hex.unhex a, Hex.unhex b, Hex.unhex c, Hex.unhex d with
  | Some x, Some y, Some z, Some w => Some (((x * 16 + y) * 16 + z) * 16 + w)
  | _, _, _, _ => None
  end.

Definition escape (c : ascii) : option Z :=
  let n := code c in
  if (n =? 34) || (n =? 92) || (n =? 47) then Some n
  else if n =? 98 then Some 8
  else if n =? 102 then Some 12
  else if n =? 110 then Some 10
  else if n =? 114 then Some 13
  else if n =? 116 then Some 9
  else None.

(** The characters after the opening quote, up to the closing one. *)
Fixpoint scan (s : string) : option (list item * string) :=
  match s with
  | EmptyString => None
  | String c r =>
      if code c =? 34 then Some ([], r)
      else if code c =? 92 then
        match r with
        | EmptyString => None
        | String e r1 =>
            if code e =? 117 then
              match r1 with
              | String a (String b (String c' (String d r2))) =>
                  match hex4 a b c' d, scan r2 with
                  | Some u, Some (its, rest) => Some (Unit16 u :: its, rest)
                  | _, _ => None
                  end
              | _ => None
              end
            else
              match escape e, scan r1 with
              | Some b, Some (its, rest) => Some (Raw b :: its, rest)
              | _, _ => None
              end
        end
      else if code c <? 32 then None
      else
        match scan r with
        | Some (its, rest) => Some (Raw (code c) :: its, rest)
        | None => None
        end
  end.

(** UTF-8 bytes of a code point (a lone surrogate is written the same way). *)
Definition utf8 (cp : Z) : list Z :=
  if cp <? 128 then [cp]
  else if cp <? 2048 then [192 + cp / 64; 128 + cp mod 64]
  else if cp <? 65536 then
    [224 + cp / 4096; 128 + (cp / 64) mod 64; 128 + cp mod 64]
  else
    [240 + cp / 262144; 128 + (cp / 4096) mod 64;
     128 + (cp / 64) mod 64; 128 + cp mod 64].

Definition is_high (u : Z) : bool := (55296 <=? u) && (u <=? 56319).
Definition is_low (u : Z) : bool := (56320 <=? u) && (u <=? 57343).

Fixpoint encode_items (its : list item) : list Z :=
  match its with
  | [] => []
  | Raw b :: r => b :: encode_items r
  | Unit16 h :: r =>
      match r with
      | Unit16 l :: r' =>
          if is_high h && is_low l
          then utf8 (65536 + (h - 55296) * 1024 + (l - 56320)) ++ encode_items r'
          else utf8 h ++ encode_items r
      | _ => utf8 h ++ encode_items r
      end
  end.

Fixpoint string_of_bytes (bs : list Z) : string :=
  match bs with
  | [] => EmptyString
  | b :: r => String (chr b) (string_of_bytes r)
  end.

Definition string_lit (s : string) : option (string * string) :=
  match scan s with
  | Some (its, rest) => Some (string_of_bytes (encode_items its), rest)
  | None => None
  end.

(** One JSON value at the head of [s] (no leading white space), then the
    rest of the text.  [elements] and [members] read what follows an
    opening bracket or brace once it is known not to close at once. *)
Fixpoint value (fuel : nat) (s : string) : option (jsval * string) :=
  match fuel with
  | O => None
  | S f =>
      match s with
      | EmptyString => None
      | String c r =>
          if code c =? 123 then
            match skip_ws r with
            | String c1 r1 =>
                if code c1 =? 125 then Some (JObj [], r1)
                else members f (skip_ws r) []
            | EmptyString => None
            end
          else if code c =? 91 then
            match skip_ws r with
            | String c1 r1 =>
                if code c1 =? 93 then Some (JArr [], r1)
                else elements f (skip_ws r) []
            | EmptyString => None
            end
          else if code c =? 34 then
            match string_lit r with
            | Some (str, rest) => Some (JStr str, rest)
            | None => None
            end
          else if prefix "true" s then Some (JBool true, drop 4 s)
          else if prefix "false" s then Some (JBool false, drop 5 s)
          else if prefix "null" s then Some (JNull, drop 4 s)
          else number s
      end
  end
with elements (fuel : nat) (s : string) (acc : list jsval) : option (jsval * string) :=
  match fuel with
  | O => None
  | S f =>
      match value f s with
      | Some (v, rest) =>
          match skip_ws rest with
          | String c r =>
              if code c =? 44 then elements f (skip_ws r) (v :: acc)
              else if code c =? 93 then Some (JArr (rev (v :: acc)), r)
              else None
          | EmptyString => None
          end
      | None => None
      end
  end
with members (fuel : nat) (s : string) (acc : list (string * jsval)) : option (jsval * string) :=
  match fuel with
  | O => None
  | S f =>
      match s with
      | String q r =>
          if code q =? 34 then
            match string_lit r with
            | Some (k, rest) =>
                match skip_ws rest with
                | String c r1 =>
                    if code c =? 58 then
                      match value f (skip_ws r1) with
                      | Some (v, rest1) =>
                          match skip_ws rest1 with
                          | String d r2 =>
                              if code d =? 44 then members f (skip_ws r2) ((k, v) :: acc)
                              else if code d =? 125 then Some (JObj (rev ((k, v) :: acc)), r2)
                              else None
                          | EmptyString => None
                          end
                      | None => None
                      end
                    else None
                | EmptyString => None
                end
            | None => None
            end
          else None
      | EmptyString => None
      end
  end.

(** [JSON.parse(text)]: one value between optional white space.  The text
    of V8's message is not reproduced. *)
Definition parse (text : string) : res jsval :=
  match value (2 * String.length text + 2) (skip_ws text) with
  | Some (v, rest) =>
      match skip_ws rest with
      | EmptyString => inr v
      | _ => inl (Throw SyntaxError "Unexpected non-whitespace character after JSON")
      end
  | None => inl (Throw SyntaxError "Unexpected token in JSON")
  end.

End Json.

(** Test data is written with apostrophes where JSON has double quotes. *)
Fixpoint dq (s : string) : string :=
  match s with
  | EmptyString => EmptyString
  | String c r =>
      String (if byte_of_ascii c =? 39 then Json.chr 34 else c) (dq r)
  end.

(* ================================================================== *)
(** * Numbers and dates *)

Fixpoint jsval_eqb (a b : jsval) : bool :=
  match a, b with
  | JUndefined, JUndefined => true
  | JNull, JNull => true
  | JBool x, JBool y => Bool.eqb x y
  | JNum m e, JNum m' e' => (m =? m') && (e =? e')
  | JStr s, JStr t => (s =? t)%string
  | JArr l, JArr l' =>
      (fix go (l l' : list jsval) : bool :=
         match l, l' with
         | [], [] => true
         | x :: r, y :: r' => jsval_eqb x y && go r r'
         | _, _ => false
         end) l l'
  | JObj f, JObj f' =>
      (fix go (f f' : list (string * jsval)) : bool :=
         match f, f' with
         | [], [] => true
         | (k, x) :: r, (k', y) :: r' => (k =? k')%string && jsval_eqb x y && go r r'
         | _, _ => false
         end) f f'
  | _, _ => false
  end.

Definition defined (v : jsval) : bool :=
  match v with JUndefined => false | _ => true end.

Definition nullish (v : jsval) : bool :=
  match v with JUndefined | JNull => true | _ => false end.

(** Does [String(v)] throw?  An object read from JSON cannot be turned into
    a primitive when it has an own property [toString], which hides the
    inherited method behind something that is not callable. *)
Fixpoint to_string_throws (v : jsval) : bool :=
  match v with
  | JObj fs => defined (lookup "toString" fs)
  | JArr l => existsb to_string_throws l
  | _ => false
  end.

(** [`${v}`], for what it can throw: the text itself goes to the console. *)
Definition interpolated (v : jsval) : res unit :=
  if to_string_throws v
  then inl (Throw TypeError "Cannot convert object to primitive value")
  else inr tt.

Section Numbers.

(** [StringToNumber] of the language, taken as it is: [None] stands for
    [NaN] and the infinities. *)
Variable StringToNumber : string -> option (Z * Z).

(** [ToNumber] of a value that converts without throwing.  An array is
    first joined into a string. *)
Fixpoint to_number_total (v : jsval) : option (Z * Z) :=
  match v with
  | JUndefined => None
  | JNull => Some (0, 0)
  | JBool b => Some (if b then 1 else 0, 0)
  | JNum m e => Some (m, e)
  | JStr s => StringToNumber s
  | JArr [] => Some (0, 0)
  | JArr [x] =>
      match x with
      | JUndefined | JNull => Some (0, 0)
      | JBool _ | JObj _ => None
      | _ => to_number_total x
      end
  | JArr _ => None
  | JObj _ => None
  end.

Definition to_number (v : jsval) : res (option (Z * Z)) :=
  if to_string_throws v
  then inl (Throw TypeError "Cannot convert object to primitive value")
  else inr (to_number_total v).

Definition max_time : Z := 8640000000000000.

(** The time value of [new Date(v * 1000)] for the number [v] written
    [m * 10^e]: [v] is the double nearest to it, the product is rounded to
    a double again, and [TimeClip] drops the fraction of what is within
    range.  [None]: the date is invalid. *)
Definition time_of_seconds (m e : Z) : option Z :=
  match double_of_decimal m e with
  | None => None
  | Some (s, x) =>
      let '(n', d') := fraction (s * 1000) x in
      match to_double n' d' with
      | None => None
      | Some (s', x') =>
          let '(p, q) := fraction s' x' in
          let t := p / q in
          if t <=? max_time then Some (Z.sgn m * t) else None
      end
  end.

(** [new Date(v * 1000).toISOString()].  The instant is kept as its number
    of milliseconds since the epoch, which stands for its ISO-8601 text. *)
Definition iso_of_seconds (v : jsval) : res Z :=
  match to_number v with
  | inl e => inl e
  | inr None => inl (Throw RangeError "Invalid time value")
  | inr (Some (m, e)) =>
      match time_of_seconds m e with
      | Some t => inr t
      | None => inl (Throw RangeError "Invalid time value")
      end
  end.

End Numbers.

(** [String(v)] inside a template literal, for the values that reach one on
    the paths modelled here: string literals.  Anything else prints as the
    empty text. *)
Definition js_text (v : jsval) : string :=
  match v with JStr s => s | _ => "" end.

(* ================================================================== *)
(** * The database ([supabase/schema.sql]) *)

(** Primary keys are generated by the database; the model numbers the rows. *)
Definition uuid : Type := nat.

(** The text of a key, where a key is copied into a JSON document. *)
Definition uuid_text (n : uuid) : string :=
  "row-" ++ Json.string_of_bytes (map (fun d => 48 + Z.of_nat d)
     ((fix dec (fuel n : nat) (acc : list nat) : list nat :=
         match fuel with
         | O => acc
         | S f => if Nat.ltb n 10 then n :: acc
                  else dec f (Nat.div n 10) (Nat.modulo n 10 :: acc)
         end) (S n) n [])).

Record Customer : Type := {
  cust_id : uuid;
  cust_user_id : uuid;
  cust_dodo_customer_id : string;
  cust_email : string
}.

(** Provider identifiers are text columns and the provider sends strings; an
    identifier of another JSON type is kept as the value it is. *)
Record Subscription : Type := {
  sub_id : uuid;
  sub_user_id : uuid;
  sub_customer_id : uuid;
  sub_dodo_subscription_id : jsval;
  sub_product_id : jsval;
  sub_price_id : jsval;
  sub_status : jsval;
  sub_current_period_start : option Z;
  sub_current_period_end : option Z;
  sub_cancel_at_period_end : jsval;
  sub_metadata : jsval
}.

Record PaymentEvent : Type := {
  ev_id : uuid;
  ev_event_type : jsval;
  ev_event_data : jsval;
  ev_dodo_event_id : jsval;
  ev_processed : bool;
  ev_processed_at : option Z;
  ev_error_message : option string;
  ev_retry_count : Z
}.

Record Payment : Type := {
  pay_id : uuid;
  pay_dodo_payment_id : jsval;
  pay_status : jsval;
  pay_amount : Z;
  pay_currency : string;
  pay_created_at : Z;
  pay_updated_at : Z
}.

Inductive Table : Type :=
| TCustomers | TSubscriptions | TPaymentEvents | TPayments.

Inductive QueryKind : Type := QSelect | QInsert | QUpdate.

(** The functions of [db/client.ts] reached from the webhook. *)
Inductive ClientFn : Type :=
| FnGetCustomerByDodoId
| FnSaveSubscription
| FnUpdateSubscription
| FnLogPaymentEvent
| FnMarkEventProcessed
| FnSavePaymentEvent
| FnUpdatePaymentStatus.

(** What leaves the process: a query sent to the database, a request sent to
    the payment provider. *)
Inductive Call : Type :=
| Db (fn : ClientFn) (kind : QueryKind) (table : Table)
| Api (payment_id : jsval).

Record World : Type := {
  customers : list Customer;
  subscriptions : list Subscription;
  payment_events : list PaymentEvent;
  payments : list Payment;
  next_id : uuid;
  trace : list Call
}.

(** Everything the handler does not decide: the refusals of the database
    that the tables below do not decide themselves, such as a lost
    connection or a value that a column's type does not take ([db_error n]
    is the error met by the call made after [n] earlier ones, if any), the
    provider's answer to [getPaymentDetails], the clock, and the language's
    [StringToNumber]. *)
Record Env : Type := {
  db_error : nat -> option string;
  payment_details : jsval -> res jsval;
  now : Z;
  string_to_number : string -> option (Z * Z)
}.

(** The [error] of a query result. *)
Record DbError : Type := { err_code : string; err_message : string }.

Definition not_found : DbError :=
  {| err_code := "PGRST116";
     err_message := "JSON object requested, multiple (or no) rows returned" |}.

Definition not_null (column : string) : DbError :=
  {| err_code := "23502";
     err_message := "null value in column " ++ column ++ " violates not-null constraint" |}.

Definition duplicate_key (constraint : string) : DbError :=
  {| err_code := "23505";
     err_message := "duplicate key value violates unique constraint " ++ constraint |}.

(** [.single()]: exactly one row, or the error PGRST116. *)
Definition single {A : Type} (rows : list A) : DbError + A :=
  match rows with
  | [r] => inr r
  | _ => inl not_found
  end.

Definition log_call (c : Call) (w : World) : World :=
  {| customers := customers w; subscriptions := subscriptions w;
     payment_events := payment_events w; payments := payments w;
     next_id := next_id w; trace := trace w ++ [c] |}.

Definition set_subscriptions (l : list Subscription) (n : uuid) (w : World) : World :=
  {| customers := customers w; subscriptions := l;
     payment_events := payment_events w; payments := payments w;
     next_id := n; trace := trace w |}.

Definition set_payment_events (l : list PaymentEvent) (n : uuid) (w : World) : World :=
  {| customers := customers w; subscriptions := subscriptions w;
     payment_events := l; payments := payments w;
     next_id := n; trace := trace w |}.

Definition set_payments (l : list Payment) (n : uuid) (w : World) : World :=
  {| customers := customers w; subscriptions := subscriptions w;
     payment_events := payment_events w; payments := l;
     next_id := n; trace := trace w |}.

(* ================================================================== *)
(** * Effects: state and thrown errors *)

Definition M (A : Type) : Type := World -> res A * World.

Definition ret {A : Type} (a : A) : M A := fun w => (inr a, w).

Definition throw {A : Type} (e : exn) : M A := fun w => (inl e, w).

Definition bind {A B : Type} (m : M A) (k : A -> M B) : M B :=
  fun w =>
    match m w with
    | (inr a, w') => k a w'
    | (inl e, w') => (inl e, w')
    end.

Definition lift {A : Type} (r : res A) : M A := fun w => (r, w).

(** [try { m } catch (e) { handler e }] *)
Definition try_catch {A : Type} (m : M A) (handler : exn -> M A) : M A :=
  fun w =>
    match m w with
    | (inr a, w') => (inr a, w')
    | (inl e, w') => handler e w'
    end.

Declare Scope js_scope.
Delimit Scope js_scope with js.
Notation "x <- m ;; k" := (bind m (fun x => k))
  (at level 61, m at next level, right associativity) : js_scope.
Notation "m ;;; k" := (bind m (fun _ => k))
  (at level 61, right associativity) : js_scope.
Open Scope js_scope.

Definition failed (prefix : string) (e : DbError) : exn :=
  Throw PlainError (prefix ++ err_message e).

(* ================================================================== *)
(** * The database client ([db/client.ts]) *)

Definition is_null (v : jsval) : bool := nullish v.

Section Client.

Variable env : Env.

(** One round trip: the call is recorded; a refusal of [db_error] answers
    with an error and leaves the tables alone; otherwise the statement
    [run] is executed. *)
Definition query {A : Type} (c : Call) (run : World -> (DbError + A) * World)
  : M (DbError + A) :=
  fun w =>
    let w1 := log_call c w in
    match db_error env (List.length (trace w)) with
    | Some msg => (inr (inl {| err_code := ""; err_message := msg |}), w1)
    | None => let '(r, w2) := run w1 in (inr r, w2)
    end.

(** ** customers *)

(** [.eq('dodo_customer_id', dodoCustomerId)], exact for strings as
    [subscription_matches] is. *)
Definition customer_matches (key : jsval) (c : Customer) : bool :=
  match key with
  | JStr s => (s =? cust_dodo_customer_id c)%string
  | _ => false
  end.

Definition getCustomerByDodoId (dodoCustomerId : jsval) : M (option Customer) :=
  r <- query (Db FnGetCustomerByDodoId QSelect TCustomers)
         (fun w => (single (filter (customer_matches dodoCustomerId) (customers w)), w)) ;;
  match r with
  | inl error =>
      if (err_code error =? "PGRST116")%string then ret None
      else throw (failed "Failed to get customer: " error)
  | inr data => ret (Some data)
  end.

(** ** subscriptions *)

(** [.eq('dodo_subscription_id', id)], for the ids the provider sends:
    strings.  The column is TEXT, and the database would compare the text of
    any other value (the number 5 with the text '5'), which the model does
    not do: it is exact for strings. *)
Definition subscription_matches (key : jsval) (s : Subscription) : bool :=
  jsval_eqb key (sub_dodo_subscription_id s).

(** The columns [dodo_subscription_id] and [status] are NOT NULL; a
    [status] that is not sent gets the column's default. *)
Definition insert_subscription (row : Subscription) (w : World)
  : (DbError + Subscription) * World :=
  if is_null (sub_dodo_subscription_id row) then
    (inl (not_null "dodo_subscription_id"), w)
  else if jsval_eqb (sub_status row) JNull then
    (inl (not_null "status"), w)
  else if existsb (subscription_matches (sub_dodo_subscription_id row)) (subscriptions w) then
    (inl (duplicate_key "subscriptions_dodo_subscription_id_key"), w)
  else
    let stored :=
      {| sub_id := next_id w;
         sub_user_id := sub_user_id row;
         sub_customer_id := sub_customer_id row;
         sub_dodo_subscription_id := sub_dodo_subscription_id row;
         sub_product_id := sub_product_id row;
         sub_price_id := sub_price_id row;
         sub_status := if defined (sub_status row) then sub_status row
                       else JStr "active";
         sub_current_period_start := sub_current_period_start row;
         sub_current_period_end := sub_current_period_end row;
         sub_cancel_at_period_end := sub_cancel_at_period_end row;
         sub_metadata := sub_metadata row |} in
    (inr stored, set_subscriptions (subscriptions w ++ [stored]) (S (next_id w)) w).

(** [.from('subscriptions').insert(subscriptionData).select('*').single()] *)
Definition saveSubscription (subscriptionData : Subscription) : M Subscription :=
  r <- query (Db FnSaveSubscription QInsert TSubscriptions)
         (insert_subscription subscriptionData) ;;
  match r with
  | inl error => throw (failed "Failed to save subscription: " error)
  | inr data => ret data
  end.

(** The [updates] argument: a property that is [undefined] (here also
    [None]) is not sent. *)
Record SubscriptionUpdates : Type := {
  upd_status : jsval;
  upd_current_period_start : option Z;
  upd_current_period_end : option Z;
  upd_cancel_at_period_end : option bool;
  upd_metadata : jsval
}.

Definition no_updates : SubscriptionUpdates :=
  {| upd_status := JUndefined; upd_current_period_start := None;
     upd_current_period_end := None; upd_cancel_at_period_end := None;
     upd_metadata := JUndefined |}.

Definition apply_updates (u : SubscriptionUpdates) (s : Subscription) : Subscription :=
  {| sub_id := sub_id s;
     sub_user_id := sub_user_id s;
     sub_customer_id := sub_customer_id s;
     sub_dodo_subscription_id := sub_dodo_subscription_id s;
     sub_product_id := sub_product_id s;
     sub_price_id := sub_price_id s;
     sub_status := if defined (upd_status u) then upd_status u else sub_status s;
     sub_current_period_start :=
       match upd_current_period_start u with
       | Some t => Some t
       | None => sub_current_period_start s
       end;
     sub_current_period_end :=
       match upd_current_period_end u with
       | Some t => Some t
       | None => sub_current_period_end s
       end;
     sub_cancel_at_period_end :=
       match upd_cancel_at_period_end u with
       | Some b => JBool b
       | None => sub_cancel_at_period_end s
       end;
     sub_metadata := if defined (upd_metadata u) then upd_metadata u else sub_metadata s |}.

Definition update_subscriptions (key : jsval) (u : SubscriptionUpdates) (w : World)
  : (DbError + Subscription) * World :=
  match single (filter (subscription_matches key) (subscriptions w)) with
  | inl e => (inl e, w)
  | inr _ =>
      if jsval_eqb (upd_status u) JNull then (inl (not_null "status"), w)
      else
        let rows :=
          map (fun s => if subscription_matches key s then apply_updates u s else s)
              (subscriptions w) in
        (single (filter (subscription_matches key) rows),
         set_subscriptions rows (next_id w) w)
  end.

(** [.update(updates).eq('dodo_subscription_id', id).select('*').single()] *)
Definition updateSubscription (dodoSubscriptionId : jsval) (updates : SubscriptionUpdates)
  : M Subscription :=
  r <- query (Db FnUpdateSubscription QUpdate TSubscriptions)
         (update_subscriptions dodoSubscriptionId updates) ;;
  match r with
  | inl error => throw (failed "Failed to update subscription: " error)
  | inr data => ret data
  end.

(** ** payment_events *)

Definition insert_event (row : PaymentEvent) (w : World)
  : (DbError + PaymentEvent) * World :=
  if is_null (ev_event_type row) then (inl (not_null "event_type"), w)
  else if is_null (ev_event_data row) then (inl (not_null "event_data"), w)
  else
    let stored :=
      {| ev_id := next_id w;
         ev_event_type := ev_event_type row;
         ev_event_data := ev_event_data row;
         ev_dodo_event_id := ev_dodo_event_id row;
         ev_processed := ev_processed row;
         ev_processed_at := ev_processed_at row;
         ev_error_message := ev_error_message row;
         ev_retry_count := ev_retry_count row |} in
    (inr stored, set_payment_events (payment_events w ++ [stored]) (S (next_id w)) w).

(** The row is [{...eventData, processed: eventData.processed || false,
    retry_count: 0}]; the webhook passes neither [processed] nor
    [error_message]. *)
Definition logPaymentEvent (event_type event_data dodo_event_id : jsval) : M PaymentEvent :=
  r <- query (Db FnLogPaymentEvent QInsert TPaymentEvents)
         (insert_event
            {| ev_id := 0%nat;
               ev_event_type := event_type;
               ev_event_data := event_data;
               ev_dodo_event_id := dodo_event_id;
               ev_processed := false;
               ev_processed_at := None;
               ev_error_message := None;
               ev_retry_count := 0 |}) ;;
  match r with
  | inl error => throw (failed "Failed to log event: " error)
  | inr data => ret data
  end.

Definition mark_processed (at_time : Z) (e : PaymentEvent) : PaymentEvent :=
  {| ev_id := ev_id e;
     ev_event_type := ev_event_type e;
     ev_event_data := ev_event_data e;
     ev_dodo_event_id := ev_dodo_event_id e;
     ev_processed := true;
     ev_processed_at := Some at_time;
     ev_error_message := ev_error_message e;
     ev_retry_count := ev_retry_count e |}.

Definition update_event (eventId : uuid) (w : World) : (DbError + PaymentEvent) * World :=
  let hit := fun e => Nat.eqb (ev_id e) eventId in
  match single (filter hit (payment_events w)) with
  | inl e => (inl e, w)
  | inr _ =>
      let rows :=
        map (fun e => if hit e then mark_processed (now env) e else e) (payment_events w) in
      (single (filter hit rows), set_payment_events rows (next_id w) w)
  end.

Definition markEventProcessed (eventId : uuid) : M PaymentEvent :=
  r <- query (Db FnMarkEventProcessed QUpdate TPaymentEvents) (update_event eventId) ;;
  match r with
  | inl error => throw (failed "Failed to mark event as processed: " error)
  | inr data => ret data
  end.

(** The argument of [savePaymentEvent]. *)
Record PaymentEventArgs : Type := {
  arg_payment_id : jsval;
  arg_event_type : jsval;
  arg_status : jsval;
  arg_amount : jsval;
  arg_currency : jsval;
  arg_customer_id : jsval;
  arg_dodo_customer_id : jsval;
  arg_failure_reason : jsval;
  arg_metadata : jsval;
  arg_processed_at : Z
}.

Definition audit_data (a : PaymentEventArgs) : jsval :=
  JObj (sent [ ("payment_id", arg_payment_id a);
               ("status", arg_status a);
               ("amount", arg_amount a);
               ("currency", arg_currency a);
               ("customer_id", arg_customer_id a);
               ("dodo_customer_id", arg_dodo_customer_id a);
               ("failure_reason", arg_failure_reason a);
               ("metadata", js_or (arg_metadata a) (JObj [])) ]).

(** The audit row goes to the same table as the received events. *)
Definition savePaymentEvent (eventData : PaymentEventArgs) : M PaymentEvent :=
  r <- query (Db FnSavePaymentEvent QInsert TPaymentEvents)
         (insert_event
            {| ev_id := 0%nat;
               ev_event_type := arg_event_type eventData;
               ev_event_data := audit_data eventData;
               ev_dodo_event_id := arg_payment_id eventData;
               ev_processed := true;
               ev_processed_at := Some (arg_processed_at eventData);
               ev_error_message := None;
               ev_retry_count := 0 |}) ;;
  match r with
  | inl error => throw (failed "Failed to save payment event: " error)
  | inr data => ret data
  end.

(** ** payments *)

(** [.eq('dodo_payment_id', paymentId)], exact for strings as
    [subscription_matches] is. *)
Definition payment_matches (key : jsval) (p : Payment) : bool :=
  jsval_eqb key (pay_dodo_payment_id p).

Definition set_status (status : jsval) (at_time : Z) (p : Payment) : Payment :=
  {| pay_id := pay_id p;
     pay_dodo_payment_id := pay_dodo_payment_id p;
     pay_status := status;
     pay_amount := pay_amount p;
     pay_currency := pay_currency p;
     pay_created_at := pay_created_at p;
     pay_updated_at := at_time |}.

(** [updated_at] alone. *)
Definition touch (at_time : Z) (p : Payment) : Payment :=
  {| pay_id := pay_id p;
     pay_dodo_payment_id := pay_dodo_payment_id p;
     pay_status := pay_status p;
     pay_amount := pay_amount p;
     pay_currency := pay_currency p;
     pay_created_at := pay_created_at p;
     pay_updated_at := at_time |}.

(** [.update({ status, updated_at })]: a [status] that is [undefined] is not
    sent, and the stored one stays. *)
Definition change_status (status : jsval) (at_time : Z) : Payment -> Payment :=
  if defined status then set_status status at_time else touch at_time.

Definition update_payment (key status : jsval) (w : World) : (DbError + Payment) * World :=
  match single (filter (payment_matches key) (payments w)) with
  | inl e => (inl e, w)
  | inr _ =>
      if jsval_eqb status JNull then (inl (not_null "status"), w)
      else
        let rows :=
          map (fun p => if payment_matches key p then change_status status (now env) p
                        else p)
              (payments w) in
        (single (filter (payment_matches key) rows), set_payments rows (next_id w) w)
  end.

Definition insert_payment (key status : jsval) (w : World) : (DbError + Payment) * World :=
  if is_null key then (inl (not_null "dodo_payment_id"), w)
  else if is_null status then (inl (not_null "status"), w)
  else if existsb (payment_matches key) (payments w) then
    (inl (duplicate_key "payments_dodo_payment_id_key"), w)
  else
    let stored :=
      {| pay_id := next_id w;
         pay_dodo_payment_id := key;
         pay_status := status;
         pay_amount := 0;
         pay_currency := "USD";
         pay_created_at := now env;
         pay_updated_at := now env |} in
    (inr stored, set_payments (payments w ++ [stored]) (S (next_id w)) w).

(** Look the payment up; update it when it is there, create it with the
    least that is known when it is not. *)
Definition updatePaymentStatus (paymentId status : jsval) : M Payment :=
  found <- query (Db FnUpdatePaymentStatus QSelect TPayments)
             (fun w => (single (filter (payment_matches paymentId) (payments w)), w)) ;;
  match found with
  | inl findError =>
      if (err_code findError =? "PGRST116")%string then
        r <- query (Db FnUpdatePaymentStatus QInsert TPayments)
               (insert_payment paymentId status) ;;
        match r with
        | inl error => throw (failed "Failed to create payment record: " error)
        | inr data => ret data
        end
      else throw (failed "Failed to find payment: " findError)
  | inr _ =>
      r <- query (Db FnUpdatePaymentStatus QUpdate TPayments)
             (update_payment paymentId status) ;;
      match r with
      | inl error => throw (failed "Failed to update payment status: " error)
      | inr data => ret data
      end
  end.

End Client.

(* ================================================================== *)
(** * The payment processor ([payments/payment-handlers.ts]) *)

Definition res_bind {A B : Type} (r : res A) (k : A -> res B) : res B :=
  match r with
  | inl e => inl e
  | inr a => k a
  end.

(** [interface PaymentEventData] *)
Record PaymentEventData : Type := {
  payment_id : jsval;
  status : jsval;
  amount : jsval;
  currency : jsval;
  customer_id : jsval;
  failure_reason : jsval;
  metadata : jsval
}.

Definition with_status (s : string) (d : PaymentEventData) : PaymentEventData :=
  {| payment_id := payment_id d; status := JStr s; amount := amount d;
     currency := currency d; customer_id := customer_id d;
     failure_reason := failure_reason d; metadata := metadata d |}.

(** [customer?.id || null] *)
Definition customer_key (c : option Customer) : jsval :=
  match c with
  | Some row => js_or (JStr (uuid_text (cust_id row))) JNull
  | None => JNull
  end.

Section PaymentHandlers.

Variable env : Env.

(** The request to the provider ([payments/payment.ts]): the parsed body of
    a successful answer, or the error thrown for any other one. *)
Definition getPaymentDetails (paymentId : jsval) : M jsval :=
  fun w => (payment_details env paymentId, log_call (Api paymentId) w).

(** Only logs; its own [try] swallows whatever it would throw. *)
Definition handlePostPaymentActions (paymentDetails : jsval) (customer : option Customer)
  : M unit := ret tt.

Definition handlePostPaymentFailureActions (eventData : PaymentEventData)
  (customer : option Customer) : M unit := ret tt.

Definition handlePaymentSuccess (eventData : PaymentEventData) : M unit :=
  try_catch
    (paymentDetails <- getPaymentDetails (payment_id eventData) ;;
     details_customer <- lift (get paymentDetails "customer") ;;
     let dodo_customer := get_opt details_customer "customer_id" in
     customer <- (if truthy dodo_customer
                  then getCustomerByDodoId env dodo_customer
                  else ret None) ;;
     updatePaymentStatus env (payment_id eventData) (JStr "succeeded") ;;;
     savePaymentEvent env
       {| arg_payment_id := payment_id eventData;
          arg_event_type := JStr "payment.succeeded";
          arg_status := JStr "succeeded";
          arg_amount := get_opt paymentDetails "total_amount";
          arg_currency := js_or (get_opt paymentDetails "currency") (JStr "USD");
          arg_customer_id := customer_key customer;
          arg_dodo_customer_id := dodo_customer;
          arg_failure_reason := JUndefined;
          arg_metadata := js_or (get_opt paymentDetails "metadata") (JObj []);
          arg_processed_at := now env |} ;;;
     handlePostPaymentActions paymentDetails customer)
    (fun error => throw error).

Definition handlePaymentFailure (eventData : PaymentEventData) : M unit :=
  try_catch
    (paymentDetails <- try_catch (getPaymentDetails (payment_id eventData))
                                 (fun _ => ret JNull) ;;
     let customerId :=
       js_or (get_opt (get_opt paymentDetails "customer") "customer_id")
             (customer_id eventData) in
     customer <- (if truthy customerId
                  then getCustomerByDodoId env customerId
                  else ret None) ;;
     updatePaymentStatus env (payment_id eventData) (JStr "failed") ;;;
     savePaymentEvent env
       {| arg_payment_id := payment_id eventData;
          arg_event_type := JStr "payment.failed";
          arg_status := JStr "failed";
          arg_amount := js_or (js_or (get_opt paymentDetails "total_amount")
                                     (amount eventData)) (JNum 0 0);
          arg_currency := js_or (js_or (get_opt paymentDetails "currency")
                                       (currency eventData)) (JStr "USD");
          arg_customer_id := customer_key customer;
          arg_dodo_customer_id := js_or customerId JNull;
          arg_failure_reason := js_or (failure_reason eventData) (JStr "Unknown error");
          arg_metadata := js_or (js_or (get_opt paymentDetails "metadata")
                                       (metadata eventData)) (JObj []);
          arg_processed_at := now env |} ;;;
     handlePostPaymentFailureActions eventData customer)
    (fun error => throw error).

Definition handlePaymentStatusUpdate (eventData : PaymentEventData) : M unit :=
  try_catch
    (lift (interpolated (payment_id eventData)) ;;;
     lift (interpolated (status eventData)) ;;;
     updatePaymentStatus env (payment_id eventData) (status eventData) ;;;
     savePaymentEvent env
       {| arg_payment_id := payment_id eventData;
          arg_event_type := JStr ("payment." ++ js_text (status eventData));
          arg_status := status eventData;
          arg_amount := js_or (amount eventData) (JNum 0 0);
          arg_currency := js_or (currency eventData) (JStr "USD");
          arg_customer_id := JNull;
          arg_dodo_customer_id := js_or (customer_id eventData) JNull;
          arg_failure_reason := JUndefined;
          arg_metadata := js_or (metadata eventData) (JObj []);
          arg_processed_at := now env |} ;;;
     ret tt)
    (fun error => throw error).

(** [const { type, data } = webhookEvent; const paymentData = data.object;],
    the template literal that prints [type], and the [eventData] literal.
    Once [paymentData.payment_id] has been read without a [TypeError], the
    other reads of [paymentData] cannot throw; the second template literal
    on [type], in the [default] branch, cannot throw where the first did
    not. *)
Definition payment_event_data (webhookEvent : jsval) : res (jsval * PaymentEventData) :=
  res_bind (get webhookEvent "type") (fun type =>
  res_bind (get webhookEvent "data") (fun data =>
  res_bind (get data "object") (fun paymentData =>
  res_bind (interpolated type) (fun _ =>
  res_bind (get paymentData "payment_id") (fun pid =>
    inr (type,
         {| payment_id := js_or pid (get_opt paymentData "id");
            status := get_opt paymentData "status";
            amount := get_opt paymentData "amount";
            currency := get_opt paymentData "currency";
            customer_id := get_opt paymentData "customer_id";
            failure_reason := get_opt paymentData "failure_reason";
            metadata := js_or (get_opt paymentData "metadata") (JObj []) |})))))).

Definition is_type (type : jsval) (s : string) : bool := jsval_eqb type (JStr s).

Definition processPaymentWebhook (webhookEvent : jsval) : M unit :=
  try_catch
    (td <- lift (payment_event_data webhookEvent) ;;
     let '(type, eventData) := td in
     if is_type type "payment.succeeded" || is_type type "payment.completed" then
       handlePaymentSuccess eventData
     else if is_type type "payment.failed" || is_type type "payment.declined" then
       handlePaymentFailure eventData
     else if is_type type "payment.pending" then
       handlePaymentStatusUpdate (with_status "pending" eventData)
     else if is_type type "payment.cancelled" then
       handlePaymentStatusUpdate (with_status "cancelled" eventData)
     else
       savePaymentEvent env
         {| arg_payment_id := payment_id eventData;
            arg_event_type := type;
            arg_status := js_or (status eventData) (JStr "unknown");
            arg_amount := js_or (amount eventData) (JNum 0 0);
            arg_currency := js_or (currency eventData) (JStr "USD");
            arg_customer_id := JNull;
            arg_dodo_customer_id := js_or (customer_id eventData) JNull;
            arg_failure_reason := JUndefined;
            arg_metadata := js_or (metadata eventData) (JObj []);
            arg_processed_at := now env |} ;;;
       ret tt)
    (fun error => throw error).

End PaymentHandlers.

(* ================================================================== *)
(** * The webhook handler ([webhooks/handler.ts]) *)

(** What an event handler returns: [{ message }], [{ success, message }] for
    an unhandled type, [undefined] from the payment processor. *)
Record HandlerResult : Type := {
  hr_success : option bool;
  hr_message : option string
}.

Definition say (msg : string) : HandlerResult :=
  {| hr_success := None; hr_message := Some msg |}.

Definition nothing : HandlerResult :=
  {| hr_success := None; hr_message := None |}.

(** The object [handleWebhook] resolves to. *)
Record WebhookResult : Type := {
  success : bool;
  error : option string;
  message : option string
}.

(** [{ success: true, ...result }] *)
Definition spread (result : HandlerResult) : WebhookResult :=
  {| success := match hr_success result with Some b => b | None => true end;
     error := None;
     message := hr_message result |}.

(** The [case] labels of the [switch] on [event.type]. *)
Inductive Route : Type :=
| RPayment
| RSubscriptionActive
| RSubscriptionOnHold
| RSubscriptionRenewed
| RSubscriptionPlanChanged
| RSubscriptionCancelled
| RSubscriptionFailed
| RSubscriptionExpired
| RRefundSucceeded
| RRefundFailed
| RDispute
| RLicenseKeyCreated
| RUnhandled.

Definition payment_types : list string :=
  [ "payment.succeeded"; "payment.completed"; "payment.failed"; "payment.declined";
    "payment.processing"; "payment.pending"; "payment.cancelled" ].

Definition dispute_types : list string :=
  [ "dispute.opened"; "dispute.expired"; "dispute.accepted"; "dispute.cancelled";
    "dispute.challenged"; "dispute.won"; "dispute.lost" ].

Definition one_of (l : list string) (t : string) : bool :=
  existsb (String.eqb t) l.

(** [switch] compares with [===]: only a string can match a label. *)
Definition route (type : jsval) : Route :=
  match type with
  | JStr t =>
      if one_of payment_types t then RPayment
      else if (t =? "subscription.active")%string then RSubscriptionActive
      else if (t =? "subscription.on_hold")%string then RSubscriptionOnHold
      else if (t =? "subscription.renewed")%string then RSubscriptionRenewed
      else if (t =? "subscription.plan_changed")%string then RSubscriptionPlanChanged
      else if (t =? "subscription.cancelled")%string then RSubscriptionCancelled
      else if (t =? "subscription.failed")%string then RSubscriptionFailed
      else if (t =? "subscription.expired")%string then RSubscriptionExpired
      else if (t =? "refund.succeeded")%string then RRefundSucceeded
      else if (t =? "refund.failed")%string then RRefundFailed
      else if one_of dispute_types t then RDispute
      else if (t =? "license_key.created")%string then RLicenseKeyCreated
      else RUnhandled
  | _ => RUnhandled
  end.

(** [event.data.object] *)
Definition data_object (event : jsval) : res jsval :=
  res_bind (get event "data") (fun data => get data "object").

Section Handlers.

Variable cfg : Config.
Variable env : Env.

(** [const subscription = event.data.object; console.log(..., subscription.id)]:
    both are evaluated, and can throw, before anything else happens. *)
Definition subscription_of (event : jsval) : M jsval :=
  subscription <- lift (data_object event) ;;
  lift (get subscription "id") ;;;
  ret subscription.

Definition handleSubscriptionActive (event : jsval) : M HandlerResult :=
  subscription <- subscription_of event ;;
  try_catch
    (customer <- getCustomerByDodoId env (get_opt subscription "customer") ;;
     match customer with
     | None => ret (say "Customer not found")
     | Some customer =>
         period_start <- lift (iso_of_seconds (string_to_number env)
                                 (get_opt subscription "current_period_start")) ;;
         period_end <- lift (iso_of_seconds (string_to_number env)
                               (get_opt subscription "current_period_end")) ;;
         saveSubscription env
           {| sub_id := 0%nat;
              sub_user_id := cust_user_id customer;
              sub_customer_id := cust_id customer;
              sub_dodo_subscription_id := get_opt subscription "id";
              sub_product_id := js_or (get_opt subscription "product") (JStr "");
              sub_price_id := js_or (get_opt subscription "price") (JStr "");
              sub_status := JStr "active";
              sub_current_period_start := Some period_start;
              sub_current_period_end := Some period_end;
              sub_cancel_at_period_end :=
                js_or (get_opt subscription "cancel_at_period_end") (JBool false);
              sub_metadata := js_or (get_opt subscription "metadata") (JObj []) |} ;;;
         ret (say "Subscription activated and saved")
     end)
    (fun _ => ret (say "Error processing subscription activation")).

Definition handleSubscriptionOnHold (event : jsval) : M HandlerResult :=
  subscription <- subscription_of event ;;
  updateSubscription env (get_opt subscription "id")
    {| upd_status := JStr "on_hold"; upd_current_period_start := None;
       upd_current_period_end := None; upd_cancel_at_period_end := None;
       upd_metadata := JUndefined |} ;;;
  ret (say "Subscription marked as on hold").

Definition handleSubscriptionRenewed (event : jsval) : M HandlerResult :=
  subscription <- subscription_of event ;;
  period_start <- lift (iso_of_seconds (string_to_number env)
                          (get_opt subscription "current_period_start")) ;;
  period_end <- lift (iso_of_seconds (string_to_number env)
                        (get_opt subscription "current_period_end")) ;;
  updateSubscription env (get_opt subscription "id")
    {| upd_status := JStr "active"; upd_current_period_start := Some period_start;
       upd_current_period_end := Some period_end; upd_cancel_at_period_end := None;
       upd_metadata := JUndefined |} ;;;
  ret (say "Subscription renewal recorded").

Definition handleSubscriptionPlanChanged (event : jsval) : M HandlerResult :=
  subscription <- subscription_of event ;;
  updateSubscription env (get_opt subscription "id")
    {| upd_status := get_opt subscription "status"; upd_current_period_start := None;
       upd_current_period_end := None; upd_cancel_at_period_end := None;
       upd_metadata := js_or (get_opt subscription "metadata") (JObj []) |} ;;;
  ret (say "Subscription plan change recorded").

Definition handleSubscriptionCancelled (event : jsval) : M HandlerResult :=
  subscription <- subscription_of event ;;
  updateSubscription env (get_opt subscription "id")
    {| upd_status := JStr "cancelled"; upd_current_period_start := None;
       upd_current_period_end := None; upd_cancel_at_period_end := Some true;
       upd_metadata := JUndefined |} ;;;
  ret (say "Subscription cancellation recorded").

Definition handleSubscriptionFailed (event : jsval) : M HandlerResult :=
  subscription <- subscription_of event ;;
  updateSubscription env (get_opt subscription "id")
    {| upd_status := JStr "failed"; upd_current_period_start := None;
       upd_current_period_end := None; upd_cancel_at_period_end := None;
       upd_metadata := JUndefined |} ;;;
  ret (say "Subscription failure recorded").

Definition handleSubscriptionExpired (event : jsval) : M HandlerResult :=
  subscription <- subscription_of event ;;
  updateSubscription env (get_opt subscription "id")
    {| upd_status := JStr "expired"; upd_current_period_start := None;
       upd_current_period_end := None; upd_cancel_at_period_end := None;
       upd_metadata := JUndefined |} ;;;
  ret (say "Subscription expiration recorded").

(** [console.log(..., event.data.object.id)] is all these do before they
    return their message. *)
Definition logged_id (event : jsval) : M jsval :=
  lift (res_bind (data_object event) (fun o => get o "id")).

Definition handleRefundSucceeded (event : jsval) : M HandlerResult :=
  logged_id event ;;; ret (say "Refund success recorded").

Definition handleRefundFailed (event : jsval) : M HandlerResult :=
  logged_id event ;;; ret (say "Refund failure recorded").

Definition handleDisputeEvent (event : jsval) : M HandlerResult :=
  type <- lift (get event "type") ;;
  logged_id event ;;;
  ret (say ("Dispute " ++ js_text type ++ " recorded")).

Definition handleLicenseKeyCreated (event : jsval) : M HandlerResult :=
  logged_id event ;;; ret (say "License key creation recorded").

(** The [switch] statement. *)
Definition dispatch (type event : jsval) : M HandlerResult :=
  match route type with
  | RPayment => processPaymentWebhook env event ;;; ret nothing
  | RSubscriptionActive => handleSubscriptionActive event
  | RSubscriptionOnHold => handleSubscriptionOnHold event
  | RSubscriptionRenewed => handleSubscriptionRenewed event
  | RSubscriptionPlanChanged => handleSubscriptionPlanChanged event
  | RSubscriptionCancelled => handleSubscriptionCancelled event
  | RSubscriptionFailed => handleSubscriptionFailed event
  | RSubscriptionExpired => handleSubscriptionExpired event
  | RRefundSucceeded => handleRefundSucceeded event
  | RRefundFailed => handleRefundFailed event
  | RDispute => handleDisputeEvent event
  | RLicenseKeyCreated => handleLicenseKeyCreated event
  | RUnhandled =>
      ret {| hr_success := Some true;
             hr_message := Some "Event logged but not processed" |}
  end.

(** [signature && !verifyWebhookSignature(body, signature)]: a missing
    header and an empty one are both falsy. *)
Definition rejected (body : string) (signature : option string) : bool :=
  match signature with
  | None => false
  | Some s =>
      if (s =? "")%string then false
      else negb (verifyWebhookSignature cfg body s)
  end.

Definition invalid_signature : WebhookResult :=
  {| success := false; error := Some "Invalid signature"; message := None |}.

(** What follows the signature check inside the [try]. *)
Definition process (body : string) : M WebhookResult :=
  event <- lift (Json.parse body) ;;
  type <- lift (get event "type") ;;
  eventLog <- logPaymentEvent env type event (get_opt event "id") ;;
  result <- dispatch type event ;;
  markEventProcessed env (ev_id eventLog) ;;;
  ret (spread result).

(** The [try] block of [handleWebhook]. *)
Definition handleWebhook_try (body : string) (signature : option string) : M WebhookResult :=
  if rejected body signature then ret invalid_signature
  else process body.

(** Every error thrown here is an [Error], so the [catch] reports its
    message. *)
Definition handleWebhook (body : string) (signature : option string)
  : World -> WebhookResult * World :=
  fun w =>
    match handleWebhook_try body signature w with
    | (inr result, w') => (result, w')
    | (inl e, w') =>
        ({| success := false; error := Some (exn_message e); message := None |}, w')
    end.

End Handlers.

(* ================================================================== *)
(** * Notions used in the statements *)

(** Every character is a hexadecimal digit, in either case. *)
Fixpoint is_hex_text (s : string) : bool :=
  match s with
  | EmptyString => true
  | String c r =>
      match Hex.unhex c with
      | Some _ => is_hex_text r
      | None => false
      end
  end.

Definition is_byte (b : Z) : Prop := 0 <= b < 256.

Definition secret_config (secret : string) : Config :=
  {| webhookSecret := Some secret |}.

(** The digest the verifier compares with. *)
Definition expected_digest (secret payload : string) : list Z :=
  Hmac.sha256 (bytes_of_string secret) (bytes_of_string payload).

(** ** Sample data *)

Definition sample_secret : string := "whsec_test".

Definition sample_config : Config := secret_config sample_secret.

(** A reachable database, a provider that answers 404, a fixed clock. *)
Definition sample_env : Env :=
  {| db_error := fun _ => None;
     payment_details := fun _ => inl (Throw PlainError "Dodo API error (404)");
     now := 1700000000000;
     string_to_number := fun _ => None |}.

(** One customer, linked to the provider's [cus_1]; nothing else yet. *)
Definition sample_world : World :=
  {| customers := [ {| cust_id := 1%nat; cust_user_id := 7%nat;
                       cust_dodo_customer_id := "cus_1";
                       cust_email := "ada@example.com" |} ];
     subscriptions := [];
     payment_events := [];
     payments := [];
     next_id := 10%nat;
     trace := [] |}.

Definition body_subscription_active : string :=
  dq "{'id':'evt_1','type':'subscription.active','data':{'object':{'id':'sub_1','customer':'cus_1','status':'active','current_period_start':1700000000,'current_period_end':1702592000}}}".

(** The same subscription, activated again with a later period. *)
Definition body_subscription_active_again : string :=
  dq "{'id':'evt_2','type':'subscription.active','data':{'object':{'id':'sub_1','customer':'cus_1','status':'active','current_period_start':1702592000,'current_period_end':1705270400}}}".


Definition body_invoice_created : string :=
  dq "{'id':'evt_4','type':'invoice.created','data':{'object':{'id':'inv_1'}}}".

Definition body_payment_pending : string :=
  dq "{'id':'evt_5','type':'payment.pending','data':{'object':{'payment_id':'pay_1','amount':500,'currency':'USD'}}}".

Definition body_payment_succeeded : string :=
  dq "{'id':'evt_6','type':'payment.succeeded','data':{'object':{'payment_id':'pay_1','amount':500,'currency':'USD'}}}".

Definition body_payment_failed : string :=
  dq "{'id':'evt_7','type':'payment.failed','data':{'object':{'payment_id':'pay_1','amount':500,'currency':'USD','failure_reason':'card_declined'}}}".

Definition body_on_hold : string :=
  dq "{'id':'evt_8','type':'subscription.on_hold','data':{'object':{'id':'sub_9'}}}".

Definition body_not_json : string := "{oops".

(** ** What a run adds to the trace and to the event log *)

Definition is_log_call (c : Call) : bool :=
  match c with Db FnLogPaymentEvent _ _ => true | _ => false end.

Definition is_mark_call (c : Call) : bool :=
  match c with Db FnMarkEventProcessed _ _ => true | _ => false end.

Definition is_audit_call (c : Call) : bool :=
  match c with Db FnSavePaymentEvent _ _ => true | _ => false end.

(** An insert into [payment_events], whoever makes it. *)
Definition is_event_insert (c : Call) : bool :=
  match c with Db _ QInsert TPaymentEvents => true | _ => false end.

Definition count_calls (p : Call -> bool) (calls : list Call) : nat :=
  List.length (filter p calls).

(** [w'] is [w] after some event handlers ran: the rows of the event log are
    kept as they were and at most [n] are added after them, by at most [n]
    inserts; the event log is neither written by [logPaymentEvent] nor
    marked. *)
Definition handler_step (n : nat) (w w' : World) : Prop :=
  exists calls rows,
    trace w' = trace w ++ calls
    /\ payment_events w' = payment_events w ++ rows
    /\ count_calls is_log_call calls = 0%nat
    /\ count_calls is_mark_call calls = 0%nat
    /\ (count_calls is_event_insert calls <= n)%nat
    /\ (List.length rows <= n)%nat.

Definition within {A : Type} (n : nat) (m : M A) : Prop :=
  forall w r w', m w = (r, w') -> handler_step n w w'.

(** The primary keys in use are below the next one to be generated. *)
Definition fresh_ids (w : World) : Prop :=
  Forall (fun e => (ev_id e < next_id w)%nat) (payment_events w).

(** The table [payments] holds at most one row per provider payment id. *)
Definition unique_payment (key : jsval) (w : World) : Prop :=
  (List.length (filter (payment_matches key) (payments w)) <= 1)%nat.

(** The row [logPaymentEvent] stores for a received event. *)
Definition received_row (id : uuid) (type event : jsval) : PaymentEvent :=
  {| ev_id := id;
     ev_event_type := type;
     ev_event_data := event;
     ev_dodo_event_id := get_opt event "id";
     ev_processed := false;
     ev_processed_at := None;
     ev_error_message := None;
     ev_retry_count := 0 |}.

Definition log_insert : Call := Db FnLogPaymentEvent QInsert TPaymentEvents.
Definition mark_update : Call := Db FnMarkEventProcessed QUpdate TPaymentEvents.
Definition customer_select : Call := Db FnGetCustomerByDodoId QSelect TCustomers.

(** The world once [body_subscription_active] has been delivered. *)
Definition world_after_activation : World :=
  snd (handleWebhook sample_config sample_env body_subscription_active None sample_world).

Definition event_subscription_active_again : jsval :=
  JObj [("id", JStr "evt_2"); ("type", JStr "subscription.active");
        ("data", JObj [("object",
           JObj [("id", JStr "sub_1"); ("customer", JStr "cus_1");
                 ("status", JStr "active");
                 ("current_period_start", JNum 1702592000 0);
                 ("current_period_end", JNum 1705270400 0)])])].


Definition audit_row (id : uuid) (a : PaymentEventArgs) : PaymentEvent :=
  {| ev_id := id;
     ev_event_type := arg_event_type a;
     ev_event_data := audit_data a;
     ev_dodo_event_id := arg_payment_id a;
     ev_processed := true;
     ev_processed_at := Some (arg_processed_at a);
     ev_error_message := None;
     ev_retry_count := 0 |}.

Definition reachable (env : Env) : Prop := forall n, db_error env n = None.

Definition sample_failed_payment : PaymentEventData :=
  {| payment_id := JStr "pay_1";
     status := JUndefined;
     amount := JNum 500 0;
     currency := JStr "USD";
     customer_id := JUndefined;
     failure_reason := JStr "card_declined";
     metadata := JObj [] |}.

Definition payment_event (type : string) : jsval :=
  JObj [("id", JStr "evt_7"); ("type", JStr type);
        ("data", JObj [("object",
           JObj [("payment_id", JStr "pay_1"); ("amount", JNum 500 0);
                 ("currency", JStr "USD"); ("failure_reason", JStr "card_declined")])])].

(** A run that keeps the generated keys fresh. *)
Definition steady {A : Type} (m : M A) : Prop :=
  forall w r w', m w = (r, w') -> fresh_ids w -> fresh_ids w'.

(** The answer of the [catch] of [handleWebhook]. *)
Definition failed_with (e : exn) : WebhookResult :=
  {| success := false; error := Some (exn_message e); message := None |}.

(** Events that are valid JSON and carry no type, or the type [null]. *)
Definition body_without_type : string :=
  dq "{'id':'evt_10','data':{'object':{'id':'inv_2'}}}".

Definition body_null_type : string :=
  dq "{'id':'evt_11','type':null,'data':{'object':{'id':'inv_3'}}}".

(* ================================================================== *)
(** * The HTTP endpoint ([supabase/functions/dodo-webhook/index.ts]) *)

(** What the endpoint reads of a request: its method, [headers.get] (which
    answers [null], here [None], for a header that is not there) and the
    outcome of [await req.text()], which throws when the body cannot be
    read. *)
Record Request : Type := {
  req_method : string;
  req_header : string -> option string;
  req_text : res string
}.

(** A response body: a plain text, or [JSON.stringify] of a result, kept as
    the result it prints. *)
Inductive ResponseBody : Type :=
| TextBody (text : string)
| JsonBody (result : WebhookResult).

Record Response : Type := {
  resp_status : Z;
  resp_headers : list (string * string);
  resp_body : ResponseBody
}.

(** [a || b] on what [headers.get] answers: [null] and the empty string are
    falsy. *)
Definition header_or (a b : option string) : option string :=
  match a with
  | Some s => if (s =? "")%string then b else a
  | None => b
  end.

(** [signature || undefined] *)
Definition or_undefined (a : option string) : option string :=
  match a with
  | Some s => if (s =? "")%string then None else a
  | None => None
  end.

Definition json_headers : list (string * string) :=
  [("Content-Type", "application/json")].

Section Endpoint.

Variable cfg : Config.
Variable env : Env.

(** The function given to [serve]. *)
Definition serve (req : Request) : World -> Response * World :=
  fun w =>
    if negb (req_method req =? "POST")%string then
      ({| resp_status := 405; resp_headers := [];
          resp_body := TextBody "Method not allowed" |}, w)
    else
      match req_text req with
      | inr body =>
          let signature :=
            header_or (req_header req "dodo-signature")
                      (req_header req "x-dodo-signature") in
          let '(result, w') := handleWebhook cfg env body (or_undefined signature) w in
          ({| resp_status := if success result then 200 else 400;
              resp_headers := json_headers;
              resp_body := JsonBody result |}, w')
      | inl error =>
          ({| resp_status := 500;
              resp_headers := json_headers;
              resp_body :=
                JsonBody {| success := false; error := Some (exn_message error);
                            message := None |} |}, w)
      end.

End Endpoint.

(* ================================================================== *)
(** * Notions used in the further properties *)

(** Every table that is not in [ts] is the same in [w'] as in [w]. *)
Definition unchanged_outside (ts : list Table) (w w' : World) : Prop :=
  (~ In TCustomers ts -> customers w' = customers w)
  /\ (~ In TSubscriptions ts -> subscriptions w' = subscriptions w)
  /\ (~ In TPaymentEvents ts -> payment_events w' = payment_events w)
  /\ (~ In TPayments ts -> payments w' = payments w).

(** A run that writes to the tables of [ts] at most. *)
Definition writes_only {A : Type} (ts : list Table) (m : M A) : Prop :=
  forall w r w', m w = (r, w') -> unchanged_outside ts w w'.

(** A run that keeps a property of the world. *)
Definition keeps {A : Type} (I : World -> Prop) (m : M A) : Prop :=
  forall w r w', m w = (r, w') -> I w -> I w'.

(** What [route] sends to a handler that updates or creates a
    subscription. *)
Definition subscription_route (r : Route) : bool :=
  match r with
  | RSubscriptionActive | RSubscriptionOnHold | RSubscriptionRenewed
  | RSubscriptionPlanChanged | RSubscriptionCancelled | RSubscriptionFailed
  | RSubscriptionExpired => true
  | _ => false
  end.

(** What [route] sends to a handler that only logs to the console. *)
Definition console_route (r : Route) : bool :=
  match r with
  | RRefundSucceeded | RRefundFailed | RDispute | RLicenseKeyCreated => true
  | _ => false
  end.

(** The tables the handler of a route may write to. *)
Definition tables_of_route (r : Route) : list Table :=
  match r with
  | RPayment => [TPayments; TPaymentEvents]
  | RUnhandled => []
  | _ => if subscription_route r then [TSubscriptions] else []
  end.

(** The columns of a subscription that say which subscription it is and
    whose. *)
Definition sub_identity (s : Subscription) : uuid * jsval * uuid * uuid * jsval * jsval :=
  (sub_id s, sub_dodo_subscription_id s, sub_user_id s, sub_customer_id s,
   sub_product_id s, sub_price_id s).

(** The route a body is dispatched to, when it gets that far: the route of
    the [type] of the value it parses to. *)
Definition route_of_body (body : string) : Route :=
  match Json.parse body with
  | inr event =>
      match get event "type" with
      | inr type => route type
      | inl _ => RUnhandled
      end
  | inl _ => RUnhandled
  end.

Definition subscription_update : Call := Db FnUpdateSubscription QUpdate TSubscriptions.
Definition subscription_insert : Call := Db FnSaveSubscription QInsert TSubscriptions.

(** The rows of [subscriptions] other than those of one provider id. *)
Definition other_subscriptions (key : jsval) (w : World) : list Subscription :=
  filter (fun s => negb (subscription_matches key s)) (subscriptions w).

Definition subscription_event (type : string) (fields : list (string * jsval)) : jsval :=
  JObj [("id", JStr "evt_9"); ("type", JStr type); ("data", JObj [("object", JObj fields)])].

Definition renewed_fields : list (string * jsval) :=
  [("id", JStr "sub_1"); ("customer", JStr "cus_1"); ("status", JStr "active");
   ("current_period_start", JNum 1702592000 0);
   ("current_period_end", JNum 1705270400 0)].

Definition plan_fields : list (string * jsval) :=
  [("id", JStr "sub_1"); ("metadata", JObj [("plan", JStr "pro")])].

(** The most seconds, either side of the epoch, that a date can hold. *)
Definition max_seconds : Z := 8640000000000.

(** The value is a whole number of seconds that a date can hold. *)
Definition whole_seconds (v : jsval) (n : Z) : Prop :=
  v = JNum n 0 /\ Z.abs n <= max_seconds.

(** The event has no [data], or its [data] has no [object]. *)
Definition lacks_object (event : jsval) : Prop :=
  nullish (get_opt event "data") = true
  \/ nullish (get_opt (get_opt event "data") "object") = true.

(** Whatever [m] returns, when it returns, satisfies [P]. *)
Definition yields {A : Type} (P : A -> Prop) (m : M A) : Prop :=
  forall w a w', m w = (inr a, w') -> P a.

(** A handler's result that does not override [success: true]. *)
Definition keeps_success (result : HandlerResult) : Prop :=
  hr_success result <> Some false.

(** A request as the provider sends it. *)
Definition post (headers : string -> option string) (body : string) : Request :=
  {| req_method := "POST"; req_header := headers; req_text := inr body |}.

Definition no_headers : string -> option string := fun _ => None.

(** [headers.get(name)] answers nothing, or the empty string. *)
Definition blank (header : option string) : Prop :=
  header = None \/ header = Some "".

Definition payment_select : Call := Db FnUpdatePaymentStatus QSelect TPayments.
Definition audit_insert : Call := Db FnSavePaymentEvent QInsert TPaymentEvents.

(** The rows of [payments] that belong to other payments. *)
Definition other_payments (key : jsval) (w : World) : list Payment :=
  filter (fun p => negb (payment_matches key p)) (payments w).

(** The types [processPaymentWebhook] has a [case] for. *)
Definition processor_cases : list string :=
  [ "payment.succeeded"; "payment.completed"; "payment.failed"; "payment.declined";
    "payment.pending"; "payment.cancelled" ].

Definition has_processor_case (type : jsval) : bool :=
  existsb (is_type type) processor_cases.

(** A provider that knows the payment [pay_1]. *)
Definition sample_details : jsval :=
  JObj [("payment_id", JStr "pay_1"); ("total_amount", JNum 1250 0);
        ("currency", JStr "EUR");
        ("customer", JObj [("customer_id", JStr "cus_1")])].

Definition provider_env : Env :=
  {| db_error := fun _ => None;
     payment_details := fun _ => inr sample_details;
     now := 1700000000000;
     string_to_number := fun _ => None |}.

Definition sample_pending_payment : PaymentEventData :=
  {| payment_id := JStr "pay_1";
     status := JStr "requires_action";
     amount := JNum 500 0;
     currency := JStr "USD";
     customer_id := JUndefined;
     failure_reason := JUndefined;
     metadata := JObj [] |}.

(* ================================================================== *)
(** * Hexadecimal text and digests *)

Lemma nibble_cases (P : Z -> Prop) :
  (forall k : nat, (k < 16)%nat -> P (Z.of_nat k)) -> forall n, 0 <= n < 16 -> P n.
Proof.
  intros H n Hn. rewrite <- (Z2Nat.id n) by lia. apply H. lia.
Qed.

Lemma unhex_digit (n : Z) : 0 <= n < 16 -> Hex.unhex (Hex.digit n) = Some n.
Proof.
  revert n. apply nibble_cases. intros k Hk.
  do 16 (destruct k as [| k]; [reflexivity |]). lia.
Qed.

Lemma digit_is_lower (n : Z) : 0 <= n < 16 -> Hex.is_lower_digit (Hex.digit n) = true.
Proof.
  revert n. apply nibble_cases. intros k Hk.
  do 16 (destruct k as [| k]; [reflexivity |]). lia.
Qed.

Lemma nibbles (b : Z) : is_byte b -> 0 <= b / 16 < 16 /\ 0 <= b mod 16 < 16.
Proof.
  unfold is_byte. intros H. split.
  - split; [apply Z.div_pos; lia | apply Z.div_lt_upper_bound; lia].
  - apply Z.mod_pos_bound. lia.
Qed.

Lemma decode_encode (bs : list Z) :
  Forall is_byte bs -> Hex.decode (Hex.encode bs) = bs.
Proof.
  induction 1 as [| b r Hb _ IH]; [reflexivity |].
  destruct (nibbles b Hb) as [Hhi Hlo].
  cbn [Hex.encode Hex.decode].
  rewrite (unhex_digit _ Hhi), (unhex_digit _ Hlo), IH.
  f_equal. pose proof (Z.div_mod b 16). lia.
Qed.

Lemma encode_lower (bs : list Z) :
  Forall is_byte bs -> Hex.all_lower_digits (Hex.encode bs) = true.
Proof.
  induction 1 as [| b r Hb _ IH]; [reflexivity |].
  destruct (nibbles b Hb) as [Hhi Hlo].
  cbn [Hex.encode Hex.all_lower_digits].
  now rewrite (digit_is_lower _ Hhi), (digit_is_lower _ Hlo), IH.
Qed.

Lemma unbe32_bytes (w : Z) : Forall is_byte (Sha256.unbe32 w).
Proof.
  unfold Sha256.unbe32, is_byte.
  repeat constructor; apply Z.mod_pos_bound; lia.
Qed.

Lemma digest_bytes (msg : list Z) : Forall is_byte (Sha256.digest msg).
Proof.
  unfold Sha256.digest.
  destruct (Sha256.blocks _ _ _) as [[[[[[[a b] c] d] e] f] g] h].
  unfold Sha256.output.
  repeat (apply Forall_app; split); apply unbe32_bytes.
Qed.

Lemma digest_length (msg : list Z) : List.length (Sha256.digest msg) = 32%nat.
Proof.
  unfold Sha256.digest.
  destruct (Sha256.blocks _ _ _) as [[[[[[[a b] c] d] e] f] g] h].
  reflexivity.
Qed.

Lemma expected_digest_bytes (secret payload : string) :
  Forall is_byte (expected_digest secret payload).
Proof. apply digest_bytes. Qed.

Lemma expected_digest_length (secret payload : string) :
  List.length (expected_digest secret payload) = 32%nat.
Proof. apply digest_length. Qed.

Lemma decode_hmac_hex (secret payload : string) :
  Hex.decode (hmac_hex secret payload) = expected_digest secret payload.
Proof. apply decode_encode, expected_digest_bytes. Qed.

(** ** Removing the prefix *)

Lemma prefix_sha256_lower (c : ascii) (r : string) :
  Hex.is_lower_digit c = true -> prefix "sha256=" (String c r) = false.
Proof.
  intros H. cbn [prefix].
  destruct (ascii_dec _ c) as [<- | _]; [discriminate H | reflexivity].
Qed.

Lemma replace_first_lower (s : string) :
  Hex.all_lower_digits s = true -> replace_first "sha256=" s = s.
Proof.
  induction s as [| c r IH]; [reflexivity |].
  cbn [Hex.all_lower_digits]. intros H.
  apply andb_prop in H as [Hc Hr].
  cbn [replace_first]. rewrite (prefix_sha256_lower c r Hc).
  now rewrite (IH Hr).
Qed.

Lemma replace_first_prefixed (s : string) :
  replace_first "sha256=" ("sha256=" ++ s) = s.
Proof. destruct s; reflexivity. Qed.

Lemma bytes_eqb_eq (a b : list Z) : bytes_eqb a b = true <-> a = b.
Proof.
  revert b. induction a as [| x a IH]; intros [| y b]; cbn; try easy.
  rewrite andb_true_iff, Z.eqb_eq, IH.
  split; [intros [-> ->]; reflexivity | intros [= -> ->]; auto].
Qed.

Lemma timingSafeEqual_true (a b : list Z) :
  timingSafeEqual a b = inr true <-> a = b.
Proof.
  unfold timingSafeEqual. split.
  - destruct (Nat.eqb _ _); [| discriminate].
    intros [= H]. now apply bytes_eqb_eq.
  - intros ->. rewrite Nat.eqb_refl. f_equal. now apply bytes_eqb_eq.
Qed.

(** The verifier with a secret: a total function that answers [true] exactly
    when the bytes read from the signature are the digest. *)
Lemma verify_with_secret (secret payload signature : string) :
  secret <> "" ->
  verifyWebhookSignature (secret_config secret) payload signature = true <->
  Hex.decode (replace_first "sha256=" signature) = expected_digest secret payload.
Proof.
  intros Hs. unfold verifyWebhookSignature, secret_config; cbn [webhookSecret].
  destruct (String.eqb_spec secret "") as [E | _]; [contradiction |].
  unfold verify_body. rewrite decode_hmac_hex.
  rewrite <- timingSafeEqual_true.
  destruct (timingSafeEqual _ _) as [e | []]; split; congruence.
Qed.

(* ================================================================== *)
(** * The signature verifier *)

(** C2, as the code has it.  With a secret configured the verifier is a total
    function (it never throws) that answers [true] exactly when the bytes
    that the lenient hexadecimal decoding reads from the signature, once the
    first ["sha256="] is removed, are the HMAC-SHA256 of the body.  So the
    hexadecimal digest is accepted, with or without the prefix; the digest of
    another body is refused whenever the two digests differ; a signature
    whose decoded length is not that of a digest is refused. *)
Theorem verifyWebhookSignature_decides (secret payload : string) :
  secret <> "" ->
  let verify := verifyWebhookSignature (secret_config secret) payload in
  (forall signature,
      verify signature = true <->
      Hex.decode (replace_first "sha256=" signature) = expected_digest secret payload)
  /\ verify (hmac_hex secret payload) = true
  /\ verify ("sha256=" ++ hmac_hex secret payload)%string = true
  /\ (forall other,
         expected_digest secret other <> expected_digest secret payload ->
         verify (hmac_hex secret other) = false)
  /\ (forall signature,
         List.length (Hex.decode (replace_first "sha256=" signature)) <> 32%nat ->
         verify signature = false).
Proof.
  intros Hs verify.
  assert (Hiff : forall signature,
             verify signature = true <->
             Hex.decode (replace_first "sha256=" signature) = expected_digest secret payload)
    by (intros; now apply verify_with_secret).
  assert (Hplain : forall body,
             Hex.decode (replace_first "sha256=" (hmac_hex secret body))
             = expected_digest secret body).
  { intros body. unfold hmac_hex at 1.
    rewrite replace_first_lower by apply encode_lower, expected_digest_bytes.
    apply decode_hmac_hex. }
  repeat split.
  - now apply Hiff.
  - now apply Hiff.
  - apply Hiff, Hplain.
  - apply Hiff. rewrite replace_first_prefixed. apply decode_hmac_hex.
  - intros other Hne. apply not_true_is_false. intros Hv.
    apply Hiff in Hv. rewrite Hplain in Hv. contradiction.
  - intros signature Hlen. apply not_true_is_false. intros Hv.
    apply Hiff in Hv. rewrite Hv, expected_digest_length in Hlen. contradiction.
Qed.

Lemma verifyWebhookSignature_decides_witness :
  sample_secret <> ""
  /\ verifyWebhookSignature sample_config body_invoice_created
       (hmac_hex sample_secret body_invoice_created) = true
  /\ verifyWebhookSignature sample_config body_invoice_created
       (hmac_hex sample_secret body_not_json) = false.
Proof.
  assert (Hs : sample_secret <> "") by discriminate.
  split; [exact Hs |].
  destruct (verifyWebhookSignature_decides sample_secret body_invoice_created Hs)
    as (_ & Hok & _ & Hother & _).
  split; [exact Hok |].
  apply Hother. vm_compute. discriminate.
Defined.

(** C2, as stated, fails: a signature made of the right digest followed by
    characters that are not hexadecimal digits is not a hexadecimal string
    and is none of the two accepted spellings, yet it is accepted. *)
Lemma verifyWebhookSignature_accepts_non_hex :
  let signature := (hmac_hex sample_secret body_invoice_created ++ "zz")%string in
  is_hex_text signature = false
  /\ (signature =? hmac_hex sample_secret body_invoice_created)%string = false
  /\ (signature =? "sha256=" ++ hmac_hex sample_secret body_invoice_created)%string = false
  /\ verifyWebhookSignature sample_config body_invoice_created signature = true.
Proof. vm_compute. repeat split. Qed.

(** The digest functions on the test vectors of FIPS 180-4 and RFC 4231. *)
Example sha256_abc :
  Hex.encode (Sha256.digest (bytes_of_string "abc"))
  = "ba7816bf8f01cfea414140de5dae2223b00361a396177a9cb410ff61f20015ad".
Proof. vm_compute. reflexivity. Qed.

Example hmac_sha256_rfc4231_case_2 :
  hmac_hex "Jefe" "what do ya want for nothing?"
  = "5bdcc146bf60754e6a042426089575c75a003f089d2739839dec58b964ec3843".
Proof. vm_compute. reflexivity. Qed.

(* ================================================================== *)
(** * Equality of JavaScript values *)

Section JsvalInduction.

Variable P : jsval -> Prop.
Hypothesis P_undefined : P JUndefined.
Hypothesis P_null : P JNull.
Hypothesis P_bool : forall b, P (JBool b).
Hypothesis P_num : forall m e, P (JNum m e).
Hypothesis P_str : forall s, P (JStr s).
Hypothesis P_arr : forall l, Forall P l -> P (JArr l).
Hypothesis P_obj : forall fs, Forall (fun kv => P (snd kv)) fs -> P (JObj fs).

Lemma jsval_nested_ind : forall v, P v.
Proof.
  fix IH 1.
  intros [| | b | m e | s | l | fs].
  - exact P_undefined.
  - exact P_null.
  - apply P_bool.
  - apply P_num.
  - apply P_str.
  - apply P_arr. induction l as [| x r IHr]; constructor; [apply IH | exact IHr].
  - apply P_obj. induction fs as [| [k x] r IHr]; constructor; [apply IH | exact IHr].
Qed.

End JsvalInduction.

Lemma jsval_eqb_refl (v : jsval) : jsval_eqb v v = true.
Proof.
  induction v as [| | b | m e | s | l IH | fs IH] using jsval_nested_ind; cbn.
  - reflexivity.
  - reflexivity.
  - apply Bool.eqb_reflx.
  - now rewrite !Z.eqb_refl.
  - apply String.eqb_refl.
  - induction IH as [| x r Hx _ IHr]; [reflexivity |]. now rewrite Hx, IHr.
  - induction IH as [| [k x] r Hx _ IHr]; [reflexivity |].
    cbn in Hx. now rewrite String.eqb_refl, Hx, IHr.
Qed.

Lemma jsval_eqb_sound (a b : jsval) : jsval_eqb a b = true -> a = b.
Proof.
  revert b.
  induction a as [| | x | m e | s | l IH | fs IH] using jsval_nested_ind;
    intros [| | y | m' e' | t | l' | fs']; cbn; try discriminate; try reflexivity.
  - intros H. apply Bool.eqb_prop in H. now subst.
  - intros H. apply andb_prop in H as [H1 H2].
    apply Z.eqb_eq in H1, H2. now subst.
  - intros H. apply String.eqb_eq in H. now subst.
  - intros H. f_equal. revert l' H.
    induction IH as [| x r Hx _ IHr]; intros [| y r']; try discriminate; [reflexivity |].
    intros H. apply andb_prop in H as [H1 H2].
    f_equal; [now apply Hx | now apply IHr].
  - intros H. f_equal. revert fs' H.
    induction IH as [| [k x] r Hx _ IHr]; intros [| [k' y] r']; try discriminate;
      [reflexivity |].
    intros H. apply andb_prop in H as [H12 H3]. apply andb_prop in H12 as [H1 H2].
    apply String.eqb_eq in H1. cbn in Hx.
    f_equal; [f_equal; [exact H1 | now apply Hx] | now apply IHr].
Qed.

(* ================================================================== *)
(** * The fuel of the JSON parser is enough *)

Lemma skip_ws_length (s : string) :
  (String.length (Json.skip_ws s) <= String.length s)%nat.
Proof.
  induction s as [| c r IH]; cbn; [lia |].
  destruct (Json.is_ws c); cbn; lia.
Qed.

Lemma drop_length (n : nat) (s : string) :
  (String.length (drop n s) = String.length s - n)%nat.
Proof.
  revert s. induction n as [| n IH]; intros [| c r]; cbn; try lia. apply IH.
Qed.

Lemma prefix_length (p s : string) :
  prefix p s = true -> (String.length p <= String.length s)%nat.
Proof.
  revert s. induction p as [| a p IH]; intros [| b s]; cbn; try lia; try discriminate.
  destruct (ascii_dec a b); [| discriminate]. intros H. apply IH in H. lia.
Qed.

Lemma digits_length (acc n : Z) (s : string) (a k : Z) (r : string) :
  Json.digits acc n s = (a, k, r) -> (String.length r <= String.length s)%nat.
Proof.
  revert acc n. induction s as [| c s IH]; intros acc n; cbn.
  - intros [= _ _ <-]. cbn. lia.
  - destruct (Json.is_digit c).
    + intros H. apply IH in H. lia.
    + intros [= _ _ <-]. cbn. lia.
Qed.

Lemma unsigned_number_length (s : string) (m e : Z) (r : string) :
  Json.unsigned_number s = Some (m, e, r) -> (String.length r < String.length s)%nat.
Proof.
  destruct s as [| c s]; [discriminate |]. unfold Json.unsigned_number.
  destruct (Json.is_digit c) eqn:Hc; [| discriminate]. cbn [negb].
  assert (H1 : forall ip k r1,
             (if Json.code c =? 48 then (0, 1, s) else Json.digits 0 0 (String c s))
             = (ip, k, r1) -> (String.length r1 <= String.length s)%nat).
  { intros ip k r1. destruct (Json.code c =? 48).
    - intros [= _ _ <-]. lia.
    - cbn [Json.digits]. rewrite Hc. apply digits_length. }
  destruct (if Json.code c =? 48 then _ else _) as [[ip k] r1] eqn:E1.
  specialize (H1 _ _ _ eq_refl). clear E1.
  assert (H2 : forall mm fe r2,
             match r1 with
             | String d r1' =>
                 if Json.code d =? 46 then
                   let '(v, n, r') := Json.digits ip 0 r1' in
                   if n =? 0 then (ip, -1, r1) else (v, n, r')
                 else (ip, 0, r1)
             | EmptyString => (ip, 0, r1)
             end = (mm, fe, r2) -> (String.length r2 <= String.length r1)%nat).
  { intros mm fe r2. destruct r1 as [| d r1']; [intros [= _ _ <-]; lia |].
    destruct (Json.code d =? 46); [| intros [= _ _ <-]; lia].
    destruct (Json.digits ip 0 r1') as [[v n] r'] eqn:Ed.
    apply digits_length in Ed.
    destruct (n =? 0); intros [= _ _ <-]; cbn in *; lia. }
  destruct (match r1 with String _ _ => _ | EmptyString => _ end)
    as [[mm fe] r2] eqn:E2.
  specialize (H2 _ _ _ eq_refl). clear E2.
  destruct (fe <? 0); [discriminate |].
  destruct r2 as [| x r3]; [intros [= _ _ <-]; cbn in *; lia |].
  destruct (_ || _); [| intros [= _ _ <-]; cbn in *; lia].
  assert (H4 : forall sign r4,
             match r3 with
             | String y r3' =>
                 if Json.code y =? 45 then (-1, r3')
                 else if Json.code y =? 43 then (1, r3') else (1, r3)
             | EmptyString => (1, r3)
             end = (sign, r4) -> (String.length r4 <= String.length r3)%nat).
  { intros sign r4. destruct r3 as [| y r3']; [intros [= _ <-]; lia |].
    destruct (Json.code y =? 45); [intros [= _ <-]; cbn; lia |].
    destruct (Json.code y =? 43); intros [= _ <-]; cbn; lia. }
  destruct (match r3 with String _ _ => _ | EmptyString => _ end) as [sign r4] eqn:E4.
  specialize (H4 _ _ eq_refl). clear E4.
  destruct (Json.digits 0 0 r4) as [[ev n] r5] eqn:E5.
  apply digits_length in E5.
  destruct (n =? 0); [discriminate |]. intros [= _ _ <-]. cbn in *. lia.
Qed.

Lemma number_length (s : string) (v : jsval) (r : string) :
  Json.number s = Some (v, r) -> (String.length r < String.length s)%nat.
Proof.
  destruct s as [| c s]; [discriminate |]. unfold Json.number.
  destruct (Json.code c =? 45).
  - destruct (Json.unsigned_number s) as [[[m e] r'] |] eqn:E; [| discriminate].
    intros [= _ <-]. apply unsigned_number_length in E. cbn. lia.
  - destruct (Json.unsigned_number (String c s)) as [[[m e] r'] |] eqn:E; [| discriminate].
    intros [= _ <-]. now apply unsigned_number_length in E.
Qed.

Lemma scan_length (s : string) (its : list Json.item) (r : string) :
  Json.scan s = Some (its, r) -> (String.length r < String.length s)%nat.
Proof.
  remember (String.length s) as n eqn:Hn. revert s its r Hn.
  induction n as [n IH] using lt_wf_ind. intros s its r Hn.
  destruct s as [| c s]; [discriminate |]. cbn [Json.scan].
  destruct (Json.code c =? 34); [intros [= _ <-]; subst; cbn; lia |].
  destruct (Json.code c =? 92).
  - destruct s as [| e r1]; [discriminate |].
    destruct (Json.code e =? 117).
    + destruct r1 as [| a [| b [| c' [| d r2]]]]; try discriminate.
      destruct (Json.hex4 a b c' d); [| discriminate].
      destruct (Json.scan r2) as [[its' rest] |] eqn:E; [| discriminate].
      intros [= _ <-]. subst n.
      eapply IH in E; [| | reflexivity]; cbn in *; lia.
    + destruct (Json.escape e); [| discriminate].
      destruct (Json.scan r1) as [[its' rest] |] eqn:E; [| discriminate].
      intros [= _ <-]. subst n.
      eapply IH in E; [| | reflexivity]; cbn in *; lia.
  - destruct (Json.code c <? 32); [discriminate |].
    destruct (Json.scan s) as [[its' rest] |] eqn:E; [| discriminate].
    intros [= _ <-]. subst n.
    eapply IH in E; [| | reflexivity]; cbn in *; lia.
Qed.

Lemma string_lit_length (s k r : string) :
  Json.string_lit s = Some (k, r) -> (String.length r < String.length s)%nat.
Proof.
  unfold Json.string_lit.
  destruct (Json.scan s) as [[its rest] |] eqn:E; [| discriminate].
  intros [= _ <-]. now apply scan_length in E.
Qed.

Lemma value_step (f : nat) (s : string) :
  Json.value (S f) s =
  match s with
  | EmptyString => None
  | String c r =>
      if Json.code c =? 123 then
        match Json.skip_ws r with
        | String c1 r1 =>
            if Json.code c1 =? 125 then Some (JObj [], r1)
            else Json.members f (Json.skip_ws r) []
        | EmptyString => None
        end
      else if Json.code c =? 91 then
        match Json.skip_ws r with
        | String c1 r1 =>
            if Json.code c1 =? 93 then Some (JArr [], r1)
            else Json.elements f (Json.skip_ws r) []
        | EmptyString => None
        end
      else if Json.code c =? 34 then
        match Json.string_lit r with
        | Some (str, rest) => Some (JStr str, rest)
        | None => None
        end
      else if prefix "true" s then Some (JBool true, drop 4 s)
      else if prefix "false" s then Some (JBool false, drop 5 s)
      else if prefix "null" s then Some (JNull, drop 4 s)
      else Json.number s
  end.
Proof. reflexivity. Qed.

Lemma elements_step (f : nat) (s : string) (acc : list jsval) :
  Json.elements (S f) s acc =
  match Json.value f s with
  | Some (v, rest) =>
      match Json.skip_ws rest with
      | String c r =>
          if Json.code c =? 44 then Json.elements f (Json.skip_ws r) (v :: acc)
          else if Json.code c =? 93 then Some (JArr (rev (v :: acc)), r)
          else None
      | EmptyString => None
      end
  | None => None
  end.
Proof. reflexivity. Qed.

Lemma members_step (f : nat) (s : string) (acc : list (string * jsval)) :
  Json.members (S f) s acc =
  match s with
  | String q r =>
      if Json.code q =? 34 then
        match Json.string_lit r with
        | Some (k, rest) =>
            match Json.skip_ws rest with
            | String c r1 =>
                if Json.code c =? 58 then
                  match Json.value f (Json.skip_ws r1) with
                  | Some (v, rest1) =>
                      match Json.skip_ws rest1 with
                      | String d r2 =>
                          if Json.code d =? 44
                          then Json.members f (Json.skip_ws r2) ((k, v) :: acc)
                          else if Json.code d =? 125
                               then Some (JObj (rev ((k, v) :: acc)), r2)
                               else None
                      | EmptyString => None
                      end
                  | None => None
                  end
                else None
            | EmptyString => None
            end
        | None => None
        end
      else None
  | EmptyString => None
  end.
Proof. reflexivity. Qed.

(** A result obtained with some fuel: the text shrinks, and twice the number
    of characters read is fuel enough to obtain it again. *)
Definition settled {A : Type} (run : nat -> string -> option (A * string))
  (f : nat) : Prop :=
  forall s v rest,
    run f s = Some (v, rest) ->
    (String.length rest < String.length s)%nat
    /\ forall g, (2 * (String.length s - String.length rest) <= g)%nat ->
                 run g s = Some (v, rest).

Ltac len := cbn [String.length] in *.

Lemma parser_settled (f : nat) :
  settled Json.value f
  /\ (forall acc, settled (fun g s => Json.elements g s acc) f)
  /\ (forall acc, settled (fun g s => Json.members g s acc) f).
Proof.
  induction f as [| f (IHv & IHe & IHm)].
  - repeat split; intros; discriminate.
  - split; [| split].
    + (* value *)
      intros s v rest. rewrite value_step.
      destruct s as [| c r]; [discriminate |].
      destruct (Json.code c =? 123) eqn:E123.
      { pose proof (skip_ws_length r) as Hws.
        destruct (Json.skip_ws r) as [| c1 r1] eqn:Eskip; [discriminate |].
        destruct (Json.code c1 =? 125) eqn:E125.
        - intros [= <- <-]. len. split; [lia |].
          intros [| g] Hg; [len; lia |]. now rewrite value_step, E123, Eskip, E125.
        - intros H. apply IHm in H as [Hlt Hfuel]. len. split; [lia |].
          intros [| g] Hg; [len; lia |]. rewrite value_step, E123, Eskip, E125.
          apply Hfuel. len. lia. }
      destruct (Json.code c =? 91) eqn:E91.
      { pose proof (skip_ws_length r) as Hws.
        destruct (Json.skip_ws r) as [| c1 r1] eqn:Eskip; [discriminate |].
        destruct (Json.code c1 =? 93) eqn:E93.
        - intros [= <- <-]. len. split; [lia |].
          intros [| g] Hg; [len; lia |]. now rewrite value_step, E123, E91, Eskip, E93.
        - intros H. apply IHe in H as [Hlt Hfuel]. len. split; [lia |].
          intros [| g] Hg; [len; lia |]. rewrite value_step, E123, E91, Eskip, E93.
          apply Hfuel. len. lia. }
      destruct (Json.code c =? 34) eqn:E34.
      { destruct (Json.string_lit r) as [[str rest'] |] eqn:Elit; [| discriminate].
        intros [= <- <-]. apply string_lit_length in Elit as Hlt. len. split; [lia |].
        intros [| g] Hg; [len; lia |].
        now rewrite value_step, E123, E91, E34, Elit. }
      destruct (prefix "true" (String c r)) eqn:Et.
      { remember (drop 4 (String c r)) as d eqn:Ed. intros [= <- <-].
        apply prefix_length in Et as Hp.
        assert (Hd : String.length d = (String.length (String c r) - 4)%nat)
          by (rewrite Ed; apply drop_length).
        len. split; [lia |].
        intros [| g] Hg; [len; lia |].
        now rewrite value_step, E123, E91, E34, Et, <- Ed. }
      destruct (prefix "false" (String c r)) eqn:Ef.
      { remember (drop 5 (String c r)) as d eqn:Ed. intros [= <- <-].
        apply prefix_length in Ef as Hp.
        assert (Hd : String.length d = (String.length (String c r) - 5)%nat)
          by (rewrite Ed; apply drop_length).
        len. split; [lia |].
        intros [| g] Hg; [len; lia |].
        now rewrite value_step, E123, E91, E34, Et, Ef, <- Ed. }
      destruct (prefix "null" (String c r)) eqn:En.
      { remember (drop 4 (String c r)) as d eqn:Ed. intros [= <- <-].
        apply prefix_length in En as Hp.
        assert (Hd : String.length d = (String.length (String c r) - 4)%nat)
          by (rewrite Ed; apply drop_length).
        len. split; [lia |].
        intros [| g] Hg; [len; lia |].
        now rewrite value_step, E123, E91, E34, Et, Ef, En, <- Ed. }
      intros H. apply number_length in H as Hlt. split; [exact Hlt |].
      intros [| g] Hg; [len; lia |]. now rewrite value_step, E123, E91, E34, Et, Ef, En.
    + (* elements *)
      intros acc s v rest. cbn beta. rewrite elements_step.
      destruct (Json.value f s) as [[v1 rest1] |] eqn:Ev; [| discriminate].
      apply IHv in Ev as [Hlt1 Hfuel1].
      pose proof (skip_ws_length rest1) as Hws1.
      destruct (Json.skip_ws rest1) as [| c r] eqn:Eskip; [discriminate |].
      destruct (Json.code c =? 44) eqn:E44.
      * intros H. apply (IHe (v1 :: acc)) in H as [Hlt Hfuel].
        pose proof (skip_ws_length r) as Hws. len. split; [lia |].
        intros [| g] Hg; [len; lia |]. rewrite elements_step.
        rewrite Hfuel1 by (len; lia). rewrite Eskip, E44. apply Hfuel. len. lia.
      * destruct (Json.code c =? 93) eqn:E93; [| discriminate].
        intros [= <- <-]. len. split; [lia |].
        intros [| g] Hg; [len; lia |]. rewrite elements_step.
        rewrite Hfuel1 by (len; lia). now rewrite Eskip, E44, E93.
    + (* members *)
      intros acc s v rest. cbn beta. rewrite members_step.
      destruct s as [| q r]; [discriminate |].
      destruct (Json.code q =? 34) eqn:E34; [| discriminate].
      destruct (Json.string_lit r) as [[k rest0] |] eqn:Elit; [| discriminate].
      apply string_lit_length in Elit as Hlt0.
      pose proof (skip_ws_length rest0) as Hws0.
      destruct (Json.skip_ws rest0) as [| c r1] eqn:Eskip0; [discriminate |].
      destruct (Json.code c =? 58) eqn:E58; [| discriminate].
      pose proof (skip_ws_length r1) as Hwsr1.
      destruct (Json.value f (Json.skip_ws r1)) as [[v1 rest1] |] eqn:Ev; [| discriminate].
      apply IHv in Ev as [Hlt1 Hfuel1].
      pose proof (skip_ws_length rest1) as Hws1.
      destruct (Json.skip_ws rest1) as [| d r2] eqn:Eskip1; [discriminate |].
      destruct (Json.code d =? 44) eqn:E44.
      * intros H. apply (IHm ((k, v1) :: acc)) in H as [Hlt Hfuel].
        pose proof (skip_ws_length r2) as Hws2. len. split; [lia |].
        intros [| g] Hg; [len; lia |]. rewrite members_step, E34, Elit, Eskip0, E58.
        rewrite Hfuel1 by (len; lia). rewrite Eskip1, E44. apply Hfuel. len. lia.
      * destruct (Json.code d =? 125) eqn:E125; [| discriminate].
        intros [= <- <-]. len. split; [lia |].
        intros [| g] Hg; [len; lia |]. rewrite members_step, E34, Elit, Eskip0, E58.
        rewrite Hfuel1 by (len; lia). now rewrite Eskip1, E44, E125.
Qed.

(** No amount of fuel finds a value that [Json.parse] misses: the fuel it
    gives the parser is enough for every text. *)
Lemma parse_fuel_is_enough (text : string) (f : nat) (v : jsval) (rest : string) :
  Json.value f (Json.skip_ws text) = Some (v, rest) ->
  Json.value (2 * String.length text + 2) (Json.skip_ws text) = Some (v, rest).
Proof.
  intros H. destruct (parser_settled f) as [Hv _].
  apply Hv in H as [_ Hfuel]. apply Hfuel.
  pose proof (skip_ws_length text). lia.
Qed.

(* ================================================================== *)
(** * What the event handlers leave alone *)

Lemma count_calls_app (p : Call -> bool) (a b : list Call) :
  count_calls p (a ++ b) = (count_calls p a + count_calls p b)%nat.
Proof. unfold count_calls. now rewrite filter_app, length_app. Qed.

Lemma handler_step_refl (w : World) : handler_step 0 w w.
Proof.
  exists [], []. rewrite !app_nil_r. cbn. repeat split; auto.
Qed.

Lemma handler_step_trans (a b : nat) (w w1 w2 : World) :
  handler_step a w w1 -> handler_step b w1 w2 -> handler_step (a + b) w w2.
Proof.
  intros (c1 & r1 & Ht1 & He1 & Hl1 & Hm1 & Hi1 & Hr1)
         (c2 & r2 & Ht2 & He2 & Hl2 & Hm2 & Hi2 & Hr2).
  exists (c1 ++ c2), (r1 ++ r2).
  rewrite Ht2, Ht1, He2, He1, !app_assoc, !count_calls_app, length_app.
  repeat split; lia.
Qed.

Lemma handler_step_mono (a b : nat) (w w' : World) :
  (a <= b)%nat -> handler_step a w w' -> handler_step b w w'.
Proof.
  intros Hab (c & r & Ht & He & Hl & Hm & Hi & Hr).
  exists c, r. repeat split; auto; lia.
Qed.

Lemma within_mono {A : Type} (a b : nat) (m : M A) :
  (a <= b)%nat -> within a m -> within b m.
Proof. intros Hab H w r w' E. eapply handler_step_mono; eauto. Qed.

Lemma within_ret {A : Type} (a : A) : within 0 (ret a).
Proof. intros w r w' [= <- <-]. apply handler_step_refl. Qed.

Lemma within_throw {A : Type} (e : exn) : within 0 (@throw A e).
Proof. intros w r w' [= <- <-]. apply handler_step_refl. Qed.

Lemma within_lift {A : Type} (x : res A) : within 0 (lift x).
Proof. intros w r w' [= <- <-]. apply handler_step_refl. Qed.

Lemma within_bind {A B : Type} (a b : nat) (m : M A) (k : A -> M B) :
  within a m -> (forall x, within b (k x)) -> within (a + b) (bind m k).
Proof.
  intros Hm Hk w r w'. unfold bind.
  destruct (m w) as [[e | x] w1] eqn:E.
  - intros [= <- <-]. apply handler_step_mono with a; [lia | eauto].
  - intros E2. eapply handler_step_trans; [eapply Hm | eapply Hk]; eauto.
Qed.

Lemma within_try_catch {A : Type} (a b : nat) (m : M A) (h : exn -> M A) :
  within a m -> (forall e, within b (h e)) -> within (a + b) (try_catch m h).
Proof.
  intros Hm Hh w r w'. unfold try_catch.
  destruct (m w) as [[e | x] w1] eqn:E.
  - intros E2. eapply handler_step_trans; [eapply Hm | eapply Hh]; eauto.
  - intros [= <- <-]. apply handler_step_mono with a; [lia | eauto].
Qed.

Lemma within_bind_0 {A B : Type} (m : M A) (k : A -> M B) :
  within 0 m -> (forall x, within 0 (k x)) -> within 0 (bind m k).
Proof. intros. now apply (within_bind 0 0). Qed.

Lemma within_try_catch_0 {A : Type} (m : M A) (h : exn -> M A) :
  within 0 m -> (forall e, within 0 (h e)) -> within 0 (try_catch m h).
Proof. intros. now apply (within_try_catch 0 0). Qed.

Lemma within_bind_0_1 {A B : Type} (m : M A) (k : A -> M B) :
  within 0 m -> (forall x, within 1 (k x)) -> within 1 (bind m k).
Proof. intros. now apply (within_bind 0 1). Qed.

Lemma within_bind_1_0 {A B : Type} (m : M A) (k : A -> M B) :
  within 1 m -> (forall x, within 0 (k x)) -> within 1 (bind m k).
Proof. intros. now apply (within_bind 1 0). Qed.

Lemma within_rethrow {A : Type} (n : nat) (m : M A) :
  within n m -> within n (try_catch m (fun error => throw error)).
Proof.
  intros H. replace n with (n + 0)%nat by lia.
  apply within_try_catch; [exact H | intros; apply within_throw].
Qed.

(** A query that is not about the event log. *)
Lemma within_query {A : Type} (c : Call) (run : World -> (DbError + A) * World) (env : Env) :
  is_log_call c = false -> is_mark_call c = false -> is_event_insert c = false ->
  (forall w r w', run w = (r, w') ->
                  trace w' = trace w /\ payment_events w' = payment_events w) ->
  within 0 (query env c run).
Proof.
  intros Hl Hm Hi Hrun w r w'. unfold query.
  destruct (db_error env _).
  - intros [= <- <-]. exists [c], []. cbn. unfold count_calls; cbn.
    rewrite Hl, Hm, Hi, app_nil_r. repeat split; auto.
  - destruct (run (log_call c w)) as [r1 w2] eqn:E. intros [= <- <-].
    apply Hrun in E as [Ht He]. exists [c], []. cbn in *. unfold count_calls; cbn.
    rewrite Hl, Hm, Hi, app_nil_r. repeat split; auto.
Qed.

Create HintDb within discriminated.

Ltac within_case :=
  match goal with
  | |- within _ (match ?x with _ => _ end) => destruct x
  | |- within _ (let '(_, _) := ?x in _) => destruct x
  end.

(** Goals [within 0 m], by the shape of [m]. *)
Ltac within0 :=
  repeat first
    [ solve [auto with within]
    | apply within_ret
    | apply within_throw
    | apply within_lift
    | apply within_bind_0; [| intros]
    | apply within_try_catch_0; [| intros]
    | within_case ].

Lemma within_getCustomerByDodoId (env : Env) (key : jsval) :
  within 0 (getCustomerByDodoId env key).
Proof.
  unfold getCustomerByDodoId. within0.
  apply within_query; try reflexivity. now intros w r w' [= _ <-].
Qed.

Lemma within_saveSubscription (env : Env) (row : Subscription) :
  within 0 (saveSubscription env row).
Proof.
  unfold saveSubscription. within0.
  apply within_query; try reflexivity.
  intros w r w'. unfold insert_subscription.
  repeat match goal with |- context [if ?b then _ else _] => destruct b end;
    now intros [= _ <-].
Qed.

Lemma within_updateSubscription (env : Env) (key : jsval) (u : SubscriptionUpdates) :
  within 0 (updateSubscription env key u).
Proof.
  unfold updateSubscription. within0.
  apply within_query; try reflexivity.
  intros w r w'. unfold update_subscriptions.
  destruct (single _); [now intros [= _ <-] |].
  destruct (jsval_eqb _ _); now intros [= _ <-].
Qed.

Lemma within_updatePaymentStatus (env : Env) (key status : jsval) :
  within 0 (updatePaymentStatus env key status).
Proof.
  unfold updatePaymentStatus. within0.
  - apply within_query; try reflexivity. now intros w r w' [= _ <-].
  - apply within_query; try reflexivity.
    intros w r w'. unfold insert_payment.
    repeat match goal with |- context [if ?b then _ else _] => destruct b end;
      now intros [= _ <-].
  - apply within_query; try reflexivity.
    intros w r w'. unfold update_payment.
    destruct (single _); [now intros [= _ <-] |].
    destruct (jsval_eqb _ _); now intros [= _ <-].
Qed.

Lemma within_getPaymentDetails (env : Env) (key : jsval) :
  within 0 (getPaymentDetails env key).
Proof.
  intros w r w' [= _ <-]. exists [Api key], []. cbn.
  rewrite app_nil_r. repeat split; auto.
Qed.

Lemma within_savePaymentEvent (env : Env) (args : PaymentEventArgs) :
  within 1 (savePaymentEvent env args).
Proof.
  unfold savePaymentEvent.
  apply within_bind_1_0; [| intros; within0].
  intros w r w'. unfold query.
  destruct (db_error env _).
  - intros [= <- <-]. exists [Db FnSavePaymentEvent QInsert TPaymentEvents], [].
    cbn. rewrite app_nil_r. repeat split; auto.
  - unfold insert_event.
    repeat match goal with |- context [if ?b then _ else _] => destruct b end;
      intros [= <- <-].
    + exists [Db FnSavePaymentEvent QInsert TPaymentEvents], [].
      cbn. rewrite app_nil_r. repeat split; auto.
    + exists [Db FnSavePaymentEvent QInsert TPaymentEvents], [].
      cbn. rewrite app_nil_r. repeat split; auto.
    + eexists [Db FnSavePaymentEvent QInsert TPaymentEvents], [_].
      cbn. repeat split; auto.
Qed.

#[local] Hint Resolve within_getCustomerByDodoId within_saveSubscription
  within_updateSubscription within_updatePaymentStatus within_getPaymentDetails : within.

(** ** The handlers *)

Lemma within_subscription_of (event : jsval) : within 0 (subscription_of event).
Proof. unfold subscription_of. within0. Qed.

Lemma within_logged_id (event : jsval) : within 0 (logged_id event).
Proof. unfold logged_id. within0. Qed.

#[local] Hint Resolve within_subscription_of within_logged_id : within.

Lemma within_handleSubscriptionActive (env : Env) (event : jsval) :
  within 0 (handleSubscriptionActive env event).
Proof. unfold handleSubscriptionActive. within0. Qed.

Lemma within_handleSubscriptionOnHold (env : Env) (event : jsval) :
  within 0 (handleSubscriptionOnHold env event).
Proof. unfold handleSubscriptionOnHold. within0. Qed.

Lemma within_handleSubscriptionRenewed (env : Env) (event : jsval) :
  within 0 (handleSubscriptionRenewed env event).
Proof. unfold handleSubscriptionRenewed. within0. Qed.

Lemma within_handleSubscriptionPlanChanged (env : Env) (event : jsval) :
  within 0 (handleSubscriptionPlanChanged env event).
Proof. unfold handleSubscriptionPlanChanged. within0. Qed.

Lemma within_handleSubscriptionCancelled (env : Env) (event : jsval) :
  within 0 (handleSubscriptionCancelled env event).
Proof. unfold handleSubscriptionCancelled. within0. Qed.

Lemma within_handleSubscriptionFailed (env : Env) (event : jsval) :
  within 0 (handleSubscriptionFailed env event).
Proof. unfold handleSubscriptionFailed. within0. Qed.

Lemma within_handleSubscriptionExpired (env : Env) (event : jsval) :
  within 0 (handleSubscriptionExpired env event).
Proof. unfold handleSubscriptionExpired. within0. Qed.

Lemma within_handleRefundSucceeded (event : jsval) : within 0 (handleRefundSucceeded event).
Proof. unfold handleRefundSucceeded. within0. Qed.

Lemma within_handleRefundFailed (event : jsval) : within 0 (handleRefundFailed event).
Proof. unfold handleRefundFailed. within0. Qed.

Lemma within_handleDisputeEvent (event : jsval) : within 0 (handleDisputeEvent event).
Proof. unfold handleDisputeEvent. within0. Qed.

Lemma within_handleLicenseKeyCreated (event : jsval) :
  within 0 (handleLicenseKeyCreated event).
Proof. unfold handleLicenseKeyCreated. within0. Qed.

(** The audit row is the one thing a payment handler adds to the log. *)
Ltac within1 :=
  repeat first
    [ apply within_rethrow
    | apply within_bind_1_0; [apply within_savePaymentEvent | intros; solve [within0]]
    | apply within_bind_0_1; [solve [within0] | intros]
    | within_case ].

Lemma within_handlePaymentSuccess (env : Env) (d : PaymentEventData) :
  within 1 (handlePaymentSuccess env d).
Proof. unfold handlePaymentSuccess, handlePostPaymentActions. within1. Qed.

Lemma within_handlePaymentFailure (env : Env) (d : PaymentEventData) :
  within 1 (handlePaymentFailure env d).
Proof. unfold handlePaymentFailure, handlePostPaymentFailureActions. within1. Qed.

Lemma within_handlePaymentStatusUpdate (env : Env) (d : PaymentEventData) :
  within 1 (handlePaymentStatusUpdate env d).
Proof. unfold handlePaymentStatusUpdate. within1. Qed.

Lemma within_processPaymentWebhook (env : Env) (event : jsval) :
  within 1 (processPaymentWebhook env event).
Proof.
  unfold processPaymentWebhook.
  apply within_rethrow, within_bind_0_1; [apply within_lift |].
  intros [type d].
  repeat match goal with |- context [if ?b then _ else _] => destruct b end.
  - apply within_handlePaymentSuccess.
  - apply within_handlePaymentFailure.
  - apply within_handlePaymentStatusUpdate.
  - apply within_handlePaymentStatusUpdate.
  - within1.
Qed.

Lemma within_dispatch (env : Env) (type event : jsval) :
  within 1 (dispatch env type event).
Proof.
  unfold dispatch. destruct (route type).
  - apply within_bind_1_0; [apply within_processPaymentWebhook | intros; within0].
  - apply within_mono with 0%nat; [lia | apply within_handleSubscriptionActive].
  - apply within_mono with 0%nat; [lia | apply within_handleSubscriptionOnHold].
  - apply within_mono with 0%nat; [lia | apply within_handleSubscriptionRenewed].
  - apply within_mono with 0%nat; [lia | apply within_handleSubscriptionPlanChanged].
  - apply within_mono with 0%nat; [lia | apply within_handleSubscriptionCancelled].
  - apply within_mono with 0%nat; [lia | apply within_handleSubscriptionFailed].
  - apply within_mono with 0%nat; [lia | apply within_handleSubscriptionExpired].
  - apply within_mono with 0%nat; [lia | apply within_handleRefundSucceeded].
  - apply within_mono with 0%nat; [lia | apply within_handleRefundFailed].
  - apply within_mono with 0%nat; [lia | apply within_handleDisputeEvent].
  - apply within_mono with 0%nat; [lia | apply within_handleLicenseKeyCreated].
  - apply within_mono with 0%nat; [lia | apply within_ret].
Qed.

Lemma within_dispatch_other (env : Env) (type event : jsval) :
  route type <> RPayment -> within 0 (dispatch env type event).
Proof.
  unfold dispatch. destruct (route type); intros H; try contradiction.
  - apply within_handleSubscriptionActive.
  - apply within_handleSubscriptionOnHold.
  - apply within_handleSubscriptionRenewed.
  - apply within_handleSubscriptionPlanChanged.
  - apply within_handleSubscriptionCancelled.
  - apply within_handleSubscriptionFailed.
  - apply within_handleSubscriptionExpired.
  - apply within_handleRefundSucceeded.
  - apply within_handleRefundFailed.
  - apply within_handleDisputeEvent.
  - apply within_handleLicenseKeyCreated.
  - apply within_ret.
Qed.

(* ================================================================== *)
(** * Fresh keys are an invariant of the pipeline *)

Lemma fresh_ids_same (w w' : World) :
  payment_events w' = payment_events w -> (next_id w <= next_id w')%nat ->
  fresh_ids w -> fresh_ids w'.
Proof.
  unfold fresh_ids. intros -> Hn H.
  eapply Forall_impl; [| exact H]. cbn. intros e He. lia.
Qed.

Lemma steady_ret {A : Type} (a : A) : steady (ret a).
Proof. now intros w r w' [= _ <-]. Qed.

Lemma steady_throw {A : Type} (e : exn) : steady (@throw A e).
Proof. now intros w r w' [= _ <-]. Qed.

Lemma steady_lift {A : Type} (x : res A) : steady (lift x).
Proof. now intros w r w' [= _ <-]. Qed.

Lemma steady_bind {A B : Type} (m : M A) (k : A -> M B) :
  steady m -> (forall x, steady (k x)) -> steady (bind m k).
Proof.
  intros Hm Hk w r w'. unfold bind.
  destruct (m w) as [[e | x] w1] eqn:E.
  - intros [= _ <-]. eauto.
  - intros E2 Hf. eapply Hk; eauto.
Qed.

Lemma steady_try_catch {A : Type} (m : M A) (h : exn -> M A) :
  steady m -> (forall e, steady (h e)) -> steady (try_catch m h).
Proof.
  intros Hm Hh w r w'. unfold try_catch.
  destruct (m w) as [[e | x] w1] eqn:E.
  - intros E2 Hf. eapply Hh; eauto.
  - intros [= _ <-]. eauto.
Qed.

Lemma steady_query {A : Type} (env : Env) (c : Call)
  (run : World -> (DbError + A) * World) :
  (forall w r w', run w = (r, w') -> fresh_ids w -> fresh_ids w') ->
  steady (query env c run).
Proof.
  intros Hrun w r w'. unfold query.
  destruct (db_error env _).
  - now intros [= _ <-].
  - destruct (run (log_call c w)) as [r1 w2] eqn:E. intros [= _ <-] Hf.
    eapply Hrun; eauto.
Qed.

Lemma fresh_insert_event (row : PaymentEvent) (w : World)
  (r : DbError + PaymentEvent) (w' : World) :
  insert_event row w = (r, w') -> fresh_ids w -> fresh_ids w'.
Proof.
  unfold insert_event.
  repeat match goal with |- context [if ?b then _ else _] => destruct b end;
    intros [= _ <-]; auto.
  unfold fresh_ids; cbn. intros H. apply Forall_app. split.
  - eapply Forall_impl; [| exact H]. cbn. intros e He. lia.
  - repeat constructor.
Qed.

Lemma fresh_update_event (env : Env) (id : uuid) (w : World)
  (r : DbError + PaymentEvent) (w' : World) :
  update_event env id w = (r, w') -> fresh_ids w -> fresh_ids w'.
Proof.
  unfold update_event. destruct (single _); [now intros [= _ <-] |].
  intros [= _ <-]. unfold fresh_ids; cbn. intros H.
  apply Forall_map. eapply Forall_impl; [| exact H]. cbn.
  intros e He. now destruct (Nat.eqb _ _).
Qed.

Ltac steady_case :=
  match goal with
  | |- steady (match ?x with _ => _ end) => destruct x
  | |- steady (let '(_, _) := ?x in _) => destruct x
  end.

Create HintDb steady discriminated.

Ltac steady_tac :=
  repeat first
    [ solve [auto with steady]
    | apply steady_ret
    | apply steady_throw
    | apply steady_lift
    | apply steady_bind; [| intros]
    | apply steady_try_catch; [| intros]
    | steady_case ].

Lemma steady_getCustomerByDodoId (env : Env) (key : jsval) :
  steady (getCustomerByDodoId env key).
Proof.
  unfold getCustomerByDodoId. steady_tac.
  apply steady_query. now intros w r w' [= _ <-].
Qed.

Lemma steady_saveSubscription (env : Env) (row : Subscription) :
  steady (saveSubscription env row).
Proof.
  unfold saveSubscription. steady_tac.
  apply steady_query. intros w r w'. unfold insert_subscription.
  repeat match goal with |- context [if ?b then _ else _] => destruct b end;
    intros [= _ <-]; auto; apply fresh_ids_same; cbn; auto.
Qed.

Lemma steady_updateSubscription (env : Env) (key : jsval) (u : SubscriptionUpdates) :
  steady (updateSubscription env key u).
Proof.
  unfold updateSubscription. steady_tac.
  apply steady_query. intros w r w'. unfold update_subscriptions.
  destruct (single _); [now intros [= _ <-] |].
  destruct (jsval_eqb _ _); intros [= _ <-]; auto.
Qed.

Lemma steady_logPaymentEvent (env : Env) (type event id : jsval) :
  steady (logPaymentEvent env type event id).
Proof.
  unfold logPaymentEvent. steady_tac.
  apply steady_query. intros w r w'. apply fresh_insert_event.
Qed.

Lemma steady_markEventProcessed (env : Env) (id : uuid) :
  steady (markEventProcessed env id).
Proof.
  unfold markEventProcessed. steady_tac.
  apply steady_query. intros w r w'. apply fresh_update_event.
Qed.

Lemma steady_savePaymentEvent (env : Env) (a : PaymentEventArgs) :
  steady (savePaymentEvent env a).
Proof.
  unfold savePaymentEvent. steady_tac.
  apply steady_query. intros w r w'. apply fresh_insert_event.
Qed.

Lemma steady_updatePaymentStatus (env : Env) (key status : jsval) :
  steady (updatePaymentStatus env key status).
Proof.
  unfold updatePaymentStatus. steady_tac.
  - apply steady_query. now intros w r w' [= _ <-].
  - apply steady_query. intros w r w'. unfold insert_payment.
    repeat match goal with |- context [if ?b then _ else _] => destruct b end;
      intros [= _ <-]; auto.
    apply fresh_ids_same; cbn; auto.
  - apply steady_query. intros w r w'. unfold update_payment.
    destruct (single _); [now intros [= _ <-] |].
    destruct (jsval_eqb _ _); intros [= _ <-]; auto.
Qed.

Lemma steady_getPaymentDetails (env : Env) (key : jsval) :
  steady (getPaymentDetails env key).
Proof. now intros w r w' [= _ <-]. Qed.

#[local] Hint Resolve steady_getCustomerByDodoId steady_saveSubscription
  steady_updateSubscription steady_logPaymentEvent steady_markEventProcessed
  steady_savePaymentEvent steady_updatePaymentStatus steady_getPaymentDetails : steady.

Lemma steady_processPaymentWebhook (env : Env) (event : jsval) :
  steady (processPaymentWebhook env event).
Proof.
  unfold processPaymentWebhook, handlePaymentSuccess, handlePaymentFailure,
    handlePaymentStatusUpdate, handlePostPaymentActions, handlePostPaymentFailureActions.
  steady_tac.
Qed.

Lemma steady_dispatch (env : Env) (type event : jsval) :
  steady (dispatch env type event).
Proof.
  pose proof (steady_processPaymentWebhook env event).
  unfold dispatch, handleSubscriptionActive, handleSubscriptionOnHold,
    handleSubscriptionRenewed, handleSubscriptionPlanChanged, handleSubscriptionCancelled,
    handleSubscriptionFailed, handleSubscriptionExpired, handleRefundSucceeded,
    handleRefundFailed, handleDisputeEvent, handleLicenseKeyCreated,
    subscription_of, logged_id.
  destruct (route type); steady_tac; assumption.
Qed.

(** Whatever a delivery does, the keys in the event log stay below the next
    key: the freshness assumed of the world before a call holds again after
    it. *)
Lemma handleWebhook_keeps_fresh_ids
  (cfg : Config) (env : Env) (body : string) (signature : option string) (w : World) :
  fresh_ids w -> fresh_ids (snd (handleWebhook cfg env body signature w)).
Proof.
  intros Hf.
  assert (Hs : steady (handleWebhook_try cfg env body signature)).
  { unfold handleWebhook_try, process. pose proof (steady_dispatch env).
    destruct (rejected _ _ _); steady_tac. }
  unfold handleWebhook.
  destruct (handleWebhook_try cfg env body signature w) as [[e | r] w'] eqn:E; cbn;
    eapply Hs; eauto.
Qed.

(* ================================================================== *)
(** * The gates before the event log *)

(** C3.  A signature that is present and does not verify ends the call at
    once: the answer is [{success: false, error: 'Invalid signature'}]
    whatever the body is (it is not parsed), and the world is the one the
    call started in, trace included: no query is sent, no row is written, no
    handler runs. *)
Theorem invalid_signature_stops
  (cfg : Config) (env : Env) (body signature : string) (w : World) :
  signature <> "" ->
  verifyWebhookSignature cfg body signature = false ->
  handleWebhook cfg env body (Some signature) w =
    ({| success := false; error := Some "Invalid signature"; message := None |}, w).
Proof.
  intros Hs Hv. unfold handleWebhook, handleWebhook_try, rejected.
  destruct (String.eqb_spec signature "") as [E | _]; [contradiction |].
  now rewrite Hv.
Qed.

Lemma invalid_signature_stops_witness :
  "deadbeef" <> ""
  /\ verifyWebhookSignature sample_config body_subscription_active "deadbeef" = false
  /\ handleWebhook sample_config sample_env body_subscription_active (Some "deadbeef")
       sample_world
     = ({| success := false; error := Some "Invalid signature"; message := None |},
        sample_world).
Proof.
  assert (Hs : "deadbeef" <> "") by discriminate.
  assert (Hv : verifyWebhookSignature sample_config body_subscription_active "deadbeef"
               = false) by (vm_compute; reflexivity).
  split; [exact Hs |]. split; [exact Hv |].
  exact (invalid_signature_stops sample_config sample_env body_subscription_active
           "deadbeef" sample_world Hs Hv).
Defined.

(** C5.  A body that [JSON.parse] refuses, behind a signature that is absent
    or verifies, is answered with [{success: false, error: <the parse
    error's message>}] and leaves the world as it was, trace included: the
    parse comes before the insert into the event log, which is never
    attempted. *)
Theorem malformed_body_changes_nothing
  (cfg : Config) (env : Env) (body : string) (signature : option string)
  (e : exn) (w : World) :
  rejected cfg body signature = false ->
  Json.parse body = inl e ->
  handleWebhook cfg env body signature w =
    ({| success := false; error := Some (exn_message e); message := None |}, w).
Proof.
  intros Hr Hp. unfold handleWebhook, handleWebhook_try, process.
  rewrite Hr. unfold bind, lift. now rewrite Hp.
Qed.

Lemma malformed_body_changes_nothing_witness :
  rejected sample_config body_not_json
    (Some (hmac_hex sample_secret body_not_json)) = false
  /\ Json.parse body_not_json = inl (Throw SyntaxError "Unexpected token in JSON")
  /\ handleWebhook sample_config sample_env body_not_json
       (Some (hmac_hex sample_secret body_not_json)) sample_world
     = ({| success := false; error := Some "Unexpected token in JSON"; message := None |},
        sample_world).
Proof.
  assert (Hr : rejected sample_config body_not_json
                 (Some (hmac_hex sample_secret body_not_json)) = false)
    by (vm_compute; reflexivity).
  assert (Hp : Json.parse body_not_json = inl (Throw SyntaxError "Unexpected token in JSON"))
    by (vm_compute; reflexivity).
  split; [exact Hr |]. split; [exact Hp |].
  exact (malformed_body_changes_nothing sample_config sample_env body_not_json _ _
           sample_world Hr Hp).
Defined.

(* ================================================================== *)
(** * The event log *)

Lemma get_not_nullish (v : jsval) (k : string) (x : jsval) :
  get v k = inr x -> nullish v = false.
Proof. destruct v; cbn; congruence. Qed.

Lemma get_is_get_opt (v : jsval) (k : string) (x : jsval) :
  get v k = inr x -> x = get_opt v k.
Proof. destruct v; cbn; congruence. Qed.

Lemma get_of_defined (v : jsval) (k : string) :
  nullish v = false -> get v k = inr (get_opt v k).
Proof. destruct v; cbn; congruence. Qed.

(** What [logPaymentEvent] does, read off its result. *)
Lemma logPaymentEvent_inv (env : Env) (type event : jsval) (w : World)
  (r : res PaymentEvent) (w1 : World) :
  logPaymentEvent env type event (get_opt event "id") w = (r, w1) ->
  trace w1 = trace w ++ [log_insert]
  /\ match r with
     | inr row =>
         row = received_row (next_id w) type event
         /\ payment_events w1 = payment_events w ++ [row]
         /\ next_id w1 = S (next_id w)
         /\ subscriptions w1 = subscriptions w /\ payments w1 = payments w
         /\ customers w1 = customers w
     | inl _ => payment_events w1 = payment_events w
     end.
Proof.
  unfold logPaymentEvent, bind, query, insert_event; cbn.
  destruct (db_error env _); cbn.
  - intros [= <- <-]. now split.
  - destruct (is_null type); cbn; [intros [= <- <-]; now split |].
    destruct (is_null event); cbn; [intros [= <- <-]; now split |].
    intros [= <- <-]. cbn. repeat split.
Qed.

Lemma logPaymentEvent_ok (env : Env) (type event : jsval) (w : World) :
  db_error env (List.length (trace w)) = None ->
  nullish type = false -> nullish event = false ->
  exists w1,
    logPaymentEvent env type event (get_opt event "id") w
    = (inr (received_row (next_id w) type event), w1).
Proof.
  intros Hdb Ht He.
  unfold logPaymentEvent, bind, query, insert_event, is_null; cbn.
  rewrite Hdb, Ht, He. cbn. eexists. reflexivity.
Qed.

Lemma filter_none {A : Type} (p : A -> bool) (l : list A) :
  Forall (fun x => p x = false) l -> filter p l = [].
Proof.
  induction 1 as [| x r Hx _ IH]; [reflexivity |]. cbn. now rewrite Hx.
Qed.

Lemma map_unless {A : Type} (p : A -> bool) (f : A -> A) (l : list A) :
  Forall (fun x => p x = false) l -> map (fun x => if p x then f x else x) l = l.
Proof.
  induction 1 as [| x r Hx _ IH]; [reflexivity |]. cbn. now rewrite Hx, IH.
Qed.

(** Marking the row that was just inserted, in a table whose other keys are
    older. *)
Lemma markEventProcessed_last (env : Env) (w : World) (rows : list PaymentEvent)
  (row : PaymentEvent) :
  payment_events w = rows ++ [row] ->
  Forall (fun e => (ev_id e < ev_id row)%nat) rows ->
  db_error env (List.length (trace w)) = None ->
  exists w',
    markEventProcessed env (ev_id row) w = (inr (mark_processed (now env) row), w')
    /\ payment_events w' = rows ++ [mark_processed (now env) row]
    /\ trace w' = trace w ++ [mark_update]
    /\ subscriptions w' = subscriptions w /\ payments w' = payments w
    /\ customers w' = customers w.
Proof.
  intros Hrows Hold Hdb.
  assert (Hmiss : Forall (fun e => Nat.eqb (ev_id e) (ev_id row) = false) rows).
  { eapply Forall_impl; [| exact Hold]. cbn. intros e He. apply Nat.eqb_neq. lia. }
  unfold markEventProcessed, bind, query, update_event; cbn.
  rewrite Hdb, Hrows; cbn.
  rewrite !filter_app, (filter_none _ _ Hmiss); cbn. rewrite Nat.eqb_refl; cbn.
  rewrite map_app, (map_unless _ _ _ Hmiss); cbn. rewrite Nat.eqb_refl; cbn.
  rewrite !filter_app, (filter_none _ _ Hmiss); cbn. rewrite Nat.eqb_refl; cbn.
  eexists. repeat split.
Qed.

(** [markEventProcessed] changes no other table and never the number of
    rows. *)
Lemma markEventProcessed_frame (env : Env) (id : uuid) (w : World)
  (r : res PaymentEvent) (w' : World) :
  markEventProcessed env id w = (r, w') ->
  trace w' = trace w ++ [mark_update]
  /\ List.length (payment_events w') = List.length (payment_events w).
Proof.
  unfold markEventProcessed, bind, query, update_event; cbn.
  destruct (db_error env _); cbn; [intros [= <- <-]; now split |].
  destruct (single (filter _ (payment_events w))); cbn;
    [intros [= <- <-]; now split |].
  destruct (single _); cbn; intros [= <- <-]; cbn; now rewrite length_map.
Qed.

(* ================================================================== *)
(** * Events without a handler *)

Lemma trace_length_after (w w1 : World) (c : Call) :
  trace w1 = trace w ++ [c] -> List.length (trace w1) = S (List.length (trace w)).
Proof. intros ->. rewrite length_app. cbn. lia. Qed.

(** C9, amended.  An event that carries a type, other than [null], which
    is none of the [case] labels is logged and marked, and the call
    succeeds: the answer is [{success: true, message: 'Event logged but not
    processed'}], the event log gains exactly one row, which holds the event
    and has [processed = true], and no other table changes.  The database
    answers the two queries. *)
Theorem unhandled_type_is_logged
  (cfg : Config) (env : Env) (body : string) (signature : option string)
  (event type : jsval) (w : World) :
  rejected cfg body signature = false ->
  Json.parse body = inr event ->
  get event "type" = inr type ->
  nullish type = false ->
  route type = RUnhandled ->
  fresh_ids w ->
  db_error env (List.length (trace w)) = None ->
  db_error env (S (List.length (trace w))) = None ->
  exists w',
    handleWebhook cfg env body signature w =
      ({| success := true; error := None;
          message := Some "Event logged but not processed" |}, w')
    /\ payment_events w' =
         payment_events w
           ++ [mark_processed (now env) (received_row (next_id w) type event)]
    /\ trace w' = trace w ++ [log_insert; mark_update]
    /\ subscriptions w' = subscriptions w /\ payments w' = payments w
    /\ customers w' = customers w.
Proof.
  intros Hr Hp Htype Hnn Hroute Hfresh Hdb1 Hdb2.
  pose proof (get_not_nullish _ _ _ Htype) as Hev.
  destruct (logPaymentEvent_ok env type event w Hdb1 Hnn Hev) as [w1 Hlog].
  pose proof (logPaymentEvent_inv _ _ _ _ _ _ Hlog)
    as (Ht1 & _ & He1 & Hn1 & Hs1 & Hp1 & Hc1).
  rewrite <- (trace_length_after _ _ _ Ht1) in Hdb2.
  destruct (markEventProcessed_last env w1 (payment_events w)
              (received_row (next_id w) type event) He1 Hfresh Hdb2)
    as (w' & Hmark & He' & Ht' & Hs' & Hp' & Hc').
  exists w'.
  unfold handleWebhook, handleWebhook_try, process, bind, lift.
  rewrite Hr, Hp, Htype, Hlog. unfold dispatch. rewrite Hroute. unfold ret.
  cbn [ev_id received_row] in Hmark |- *. rewrite Hmark.
  repeat split; try congruence.
  rewrite Ht', Ht1, <- app_assoc. reflexivity.
Qed.

Lemma unhandled_type_is_logged_witness :
  exists w',
    handleWebhook sample_config sample_env body_invoice_created None sample_world =
      ({| success := true; error := None;
          message := Some "Event logged but not processed" |}, w')
    /\ List.length (payment_events w') = 1%nat
    /\ map ev_processed (payment_events w') = [true].
Proof.
  destruct (unhandled_type_is_logged sample_config sample_env body_invoice_created None
              (JObj [("id", JStr "evt_4"); ("type", JStr "invoice.created");
                     ("data", JObj [("object", JObj [("id", JStr "inv_1")])])])
              (JStr "invoice.created") sample_world)
    as (w' & Hres & Hrows & _); try (vm_compute; reflexivity).
  - constructor.
  - exists w'. rewrite Hrows. repeat split. exact Hres.
Defined.

(** C9, as stated, fails for an event that carries no type, or the type
    [null]: no [case] matches it, yet it is an error and no row is stored
    for it, since the column [event_type] is NOT NULL and [logPaymentEvent]
    throws. *)
Lemma event_without_type_is_an_error :
  (exists event,
      Json.parse body_without_type = inr event /\ get event "type" = inr JUndefined)
  /\ route JUndefined = RUnhandled
  /\ success (fst (handleWebhook sample_config sample_env body_without_type None
                     sample_world)) = false
  /\ payment_events (snd (handleWebhook sample_config sample_env body_without_type None
                            sample_world)) = []
  /\ (exists event,
         Json.parse body_null_type = inr event /\ get event "type" = inr JNull)
  /\ route JNull = RUnhandled
  /\ success (fst (handleWebhook sample_config sample_env body_null_type None
                     sample_world)) = false
  /\ payment_events (snd (handleWebhook sample_config sample_env body_null_type None
                            sample_world)) = [].
Proof.
  split; [eexists; split; vm_compute; reflexivity |].
  split; [reflexivity |]. split; [vm_compute; reflexivity |].
  split; [vm_compute; reflexivity |].
  split; [eexists; split; vm_compute; reflexivity |].
  vm_compute. repeat split.
Qed.

(* ================================================================== *)
(** * [subscription.active] *)





(** C1 fails on the code.  [saveSubscription] only inserts: when a
    subscription with the event's provider id is already stored and the
    customer is known, the handler never updates it.  Whatever the database
    and the event's period fields do, the error is swallowed by the handler's
    [catch], the answer is [{message: 'Error processing subscription
    activation'}], and the table is left as it was. *)
Theorem repeated_activation_is_not_an_update
  (env : Env) (event subscription : jsval) (customer : Customer) (w : World) :
  data_object event = inr subscription ->
  nullish subscription = false ->
  filter (customer_matches (get_opt subscription "customer")) (customers w) = [customer] ->
  existsb (subscription_matches (get_opt subscription "id")) (subscriptions w) = true ->
  exists w',
    handleSubscriptionActive env event w
    = (inr (say "Error processing subscription activation"), w')
    /\ subscriptions w' = subscriptions w.
Proof.
  intros Hd Hs Hc Hdup.
  unfold handleSubscriptionActive, subscription_of, bind, lift, try_catch.
  rewrite Hd, (get_of_defined _ "id" Hs). unfold ret.
  unfold getCustomerByDodoId, bind, query.
  destruct (db_error env (List.length (trace w))); cbn [customers log_call].
  - eexists. split; reflexivity.
  - rewrite Hc. cbn [single ret].
    destruct (iso_of_seconds _ (get_opt subscription "current_period_start"));
      [eexists; split; reflexivity |].
    destruct (iso_of_seconds _ (get_opt subscription "current_period_end"));
      [eexists; split; reflexivity |].
    unfold saveSubscription, bind, query.
    destruct (db_error env _); [eexists; split; reflexivity |].
    unfold insert_subscription.
    cbn [sub_dodo_subscription_id sub_status subscriptions log_call].
    destruct (is_null (get_opt subscription "id")); [eexists; split; reflexivity |].
    cbn [is_null nullish]. rewrite Hdup. eexists; split; reflexivity.
Qed.

Lemma repeated_activation_is_not_an_update_witness :
  existsb (subscription_matches (JStr "sub_1")) (subscriptions world_after_activation) = true
  /\ exists w',
      handleSubscriptionActive sample_env event_subscription_active_again
        world_after_activation
      = (inr (say "Error processing subscription activation"), w')
      /\ subscriptions w' = subscriptions world_after_activation.
Proof.
  split; [vm_compute; reflexivity |].
  apply (repeated_activation_is_not_an_update sample_env event_subscription_active_again
           (JObj [("id", JStr "sub_1"); ("customer", JStr "cus_1");
                  ("status", JStr "active");
                  ("current_period_start", JNum 1702592000 0);
                  ("current_period_end", JNum 1705270400 0)])
           {| cust_id := 1%nat; cust_user_id := 7%nat;
              cust_dodo_customer_id := "cus_1"; cust_email := "ada@example.com" |});
    vm_compute; reflexivity.
Defined.

(** The same, end to end: the second delivery for [sub_1], with a later
    period, answers with success and the error message in [message]; the
    stored subscription still has the first period. *)
Example repeated_activation_end_to_end :
  Json.parse body_subscription_active_again = inr event_subscription_active_again
  /\ fst (handleWebhook sample_config sample_env body_subscription_active_again None
            world_after_activation)
     = {| success := true; error := None;
          message := Some "Error processing subscription activation" |}
  /\ map (fun s => (sub_dodo_subscription_id s, sub_current_period_start s,
                    sub_current_period_end s))
         (subscriptions
            (snd (handleWebhook sample_config sample_env body_subscription_active_again
                    None world_after_activation)))
     = [(JStr "sub_1", Some 1700000000000, Some 1702592000000)].
Proof. vm_compute. repeat split. Qed.

(* ================================================================== *)
(** * A handler that throws *)

(** C6.  When the handler the event is dispatched to throws, the call
    answers [{success: false, error: <the error's message>}]; the row that
    [logPaymentEvent] had inserted is still in the event log, after the rows
    that were there, with [processed = false] and [retry_count = 0]; and
    [markEventProcessed] is not called. *)
Theorem handler_error_leaves_event_unprocessed
  (cfg : Config) (env : Env) (body : string) (signature : option string)
  (event type : jsval) (eventLog : PaymentEvent) (e : exn) (w w1 w2 : World) :
  rejected cfg body signature = false ->
  Json.parse body = inr event ->
  get event "type" = inr type ->
  logPaymentEvent env type event (get_opt event "id") w = (inr eventLog, w1) ->
  dispatch env type event w1 = (inl e, w2) ->
  handleWebhook cfg env body signature w =
    ({| success := false; error := Some (exn_message e); message := None |}, w2)
  /\ (exists rows, payment_events w2 = payment_events w ++ eventLog :: rows)
  /\ ev_processed eventLog = false
  /\ ev_retry_count eventLog = 0
  /\ exists calls, trace w2 = trace w ++ calls /\ count_calls is_mark_call calls = 0%nat.
Proof.
  intros Hr Hp Htype Hlog Hdisp.
  pose proof (logPaymentEvent_inv _ _ _ _ _ _ Hlog) as (Ht1 & Hrow & He1 & _).
  destruct (within_dispatch env type event _ _ _ Hdisp)
    as (calls & rows & Ht2 & He2 & _ & Hmark & _).
  split; [| split; [| split; [| split]]].
  - unfold handleWebhook, handleWebhook_try, process, bind, lift.
    now rewrite Hr, Hp, Htype, Hlog, Hdisp.
  - exists rows. rewrite He2, He1, <- app_assoc. reflexivity.
  - now rewrite Hrow.
  - now rewrite Hrow.
  - exists (log_insert :: calls). split.
    + rewrite Ht2, Ht1, <- app_assoc. reflexivity.
    + exact Hmark.
Qed.

Lemma handler_error_leaves_event_unprocessed_witness :
  exists eventLog e w1 w2,
    logPaymentEvent sample_env (JStr "subscription.on_hold")
      (JObj [("id", JStr "evt_8"); ("type", JStr "subscription.on_hold");
             ("data", JObj [("object", JObj [("id", JStr "sub_9")])])])
      (JStr "evt_8") sample_world = (inr eventLog, w1)
    /\ dispatch sample_env (JStr "subscription.on_hold")
         (JObj [("id", JStr "evt_8"); ("type", JStr "subscription.on_hold");
                ("data", JObj [("object", JObj [("id", JStr "sub_9")])])]) w1
       = (inl e, w2)
    /\ handleWebhook sample_config sample_env body_on_hold None sample_world =
         ({| success := false; error := Some (exn_message e); message := None |}, w2)
    /\ payment_events w2 = [eventLog]
    /\ ev_processed eventLog = false.
Proof.
  do 4 eexists.
  match goal with
  | |- ?L /\ ?D /\ _ =>
      assert (Hlog : L) by (vm_compute; reflexivity);
      assert (Hdisp : D) by (vm_compute; reflexivity)
  end.
  destruct (handler_error_leaves_event_unprocessed sample_config sample_env body_on_hold
              None _ _ _ _ sample_world _ _
              ltac:(vm_compute; reflexivity) ltac:(vm_compute; reflexivity)
              ltac:(vm_compute; reflexivity) Hlog Hdisp)
    as (Hres & _ & Hproc & _).
  split; [exact Hlog |]. split; [exact Hdisp |]. split; [exact Hres |].
  split; [vm_compute; reflexivity | exact Hproc].
Defined.

(* ================================================================== *)
(** * How many rows a delivery adds to the event log *)

(** C4, as the code has it.  For a body that parses to a value with a type,
    behind a signature that is absent or verifies, and with the database
    answering the first query: [logPaymentEvent] is called exactly once and
    stores one row.  The handlers add nothing to the event log, except the
    payment processor, which may write one more row into the same table
    through [savePaymentEvent]: so one or two inserts are sent, and exactly
    one for every type that is not a [payment.*] one. *)
Theorem one_received_row_per_delivery
  (cfg : Config) (env : Env) (body : string) (signature : option string)
  (event type : jsval) (w : World) :
  rejected cfg body signature = false ->
  Json.parse body = inr event ->
  get event "type" = inr type ->
  nullish type = false ->
  db_error env (List.length (trace w)) = None ->
  exists calls extra,
    let w' := snd (handleWebhook cfg env body signature w) in
    trace w' = trace w ++ calls
    /\ List.length (payment_events w') = (S (List.length (payment_events w)) + extra)%nat
    /\ count_calls is_log_call calls = 1%nat
    /\ (1 <= count_calls is_event_insert calls <= 2)%nat
    /\ (extra <= 1)%nat
    /\ (route type <> RPayment ->
        count_calls is_event_insert calls = 1%nat /\ extra = 0%nat).
Proof.
  intros Hr Hp Htype Hnn Hdb.
  pose proof (get_not_nullish _ _ _ Htype) as Hev.
  destruct (logPaymentEvent_ok env type event w Hdb Hnn Hev) as [w1 Hlog].
  pose proof (logPaymentEvent_inv _ _ _ _ _ _ Hlog) as (Ht1 & _ & He1 & _).
  destruct (dispatch env type event w1) as [rd w2] eqn:Hdisp.
  pose proof (within_dispatch env type event _ _ _ Hdisp)
    as (calls & rows & Ht2 & He2 & Hl & Hm & Hi & Hn).
  assert (Hother : route type <> RPayment ->
                   count_calls is_event_insert calls = 0%nat /\ List.length rows = 0%nat).
  { intros Hroute.
    destruct (within_dispatch_other env type event Hroute _ _ _ Hdisp)
      as (calls' & rows' & Ht2' & He2' & _ & _ & Hi' & Hn').
    rewrite Ht2 in Ht2'. apply app_inv_head in Ht2'. subst calls'.
    rewrite He2 in He2'. apply app_inv_head in He2'. subst rows'.
    lia. }
  assert (Hlen2 : List.length (payment_events w2)
                  = (S (List.length (payment_events w)) + List.length rows)%nat)
    by (rewrite He2, He1, !length_app; cbn; lia).
  unfold handleWebhook, handleWebhook_try, process, bind, lift.
  rewrite Hr, Hp, Htype, Hlog, Hdisp.
  destruct rd as [e | result].
  - exists (log_insert :: calls), (List.length rows). cbn zeta. cbn [snd].
    split; [rewrite Ht2, Ht1, <- app_assoc; reflexivity |].
    split; [exact Hlen2 |].
    change (log_insert :: calls) with ([log_insert] ++ calls).
    rewrite !count_calls_app, Hl. cbn.
    split; [lia |]. split; [lia |]. split; [lia |].
    intros Hroute. apply Hother in Hroute. lia.
  - destruct (markEventProcessed env _ w2) as [rm w3] eqn:Hmk.
    pose proof (markEventProcessed_frame _ _ _ _ _ Hmk) as (Ht3 & Hlen3).
    exists (log_insert :: calls ++ [mark_update]), (List.length rows).
    cbn zeta.
    match goal with
    | |- trace ?x = _ /\ _ => replace x with w3 by (destruct rm; reflexivity)
    end.
    split; [rewrite Ht3, Ht2, Ht1, <- !app_assoc; reflexivity |].
    split; [rewrite Hlen3; exact Hlen2 |].
    change (log_insert :: calls ++ [mark_update])
      with ([log_insert] ++ calls ++ [mark_update]).
    rewrite !count_calls_app, Hl. cbn.
    split; [lia |]. split; [lia |]. split; [lia |].
    intros Hroute. apply Hother in Hroute. lia.
Qed.

Lemma one_received_row_per_delivery_witness :
  exists calls,
    trace (snd (handleWebhook sample_config sample_env body_invoice_created None
                  sample_world)) = calls
    /\ count_calls is_log_call calls = 1%nat
    /\ count_calls is_event_insert calls = 1%nat.
Proof.
  destruct (one_received_row_per_delivery sample_config sample_env body_invoice_created
              None
              (JObj [("id", JStr "evt_4"); ("type", JStr "invoice.created");
                     ("data", JObj [("object", JObj [("id", JStr "inv_1")])])])
              (JStr "invoice.created") sample_world)
    as (calls & extra & Ht & _ & Hl & _ & _ & Hother); try (vm_compute; reflexivity).
  exists calls. split; [exact Ht |]. split; [exact Hl |].
  apply Hother. vm_compute. discriminate.
Defined.

(** C4, as stated, fails in both directions on bodies that are valid JSON:
    a [payment.pending] event is inserted into the event log twice (its own
    row, then the audit row of [savePaymentEvent]), and the body [null]
    is answered before any insert. *)
Lemma payment_event_is_inserted_twice :
  (exists event, Json.parse body_payment_pending = inr event)
  /\ count_calls is_event_insert
       (trace (snd (handleWebhook sample_config sample_env body_payment_pending None
                      sample_world))) = 2%nat
  /\ map ev_event_type
       (payment_events (snd (handleWebhook sample_config sample_env body_payment_pending
                               None sample_world)))
     = [JStr "payment.pending"; JStr "payment.pending"]
  /\ Json.parse "null" = inr JNull
  /\ snd (handleWebhook sample_config sample_env "null" None sample_world) = sample_world.
Proof.
  split; [eexists; vm_compute; reflexivity |].
  vm_compute. repeat split.
Qed.

(* ================================================================== *)
(** * The payment processor *)

Lemma getCustomerByDodoId_reachable (env : Env) (key : jsval) (w : World) :
  reachable env ->
  exists c, getCustomerByDodoId env key w = (inr c, log_call customer_select w).
Proof.
  intros Hdb. unfold getCustomerByDodoId, bind, query. rewrite Hdb.
  cbn [customers log_call].
  destruct (filter _ (customers w)) as [| c [| c' r]]; cbn; eexists; reflexivity.
Qed.


Lemma filter_nil_existsb {A : Type} (p : A -> bool) (l : list A) :
  filter p l = [] -> existsb p l = false.
Proof.
  induction l as [| x r IH]; [reflexivity |]. cbn.
  destruct (p x); [discriminate | exact IH].
Qed.

Lemma nullish_not_null (v : jsval) : nullish v = false -> jsval_eqb v JNull = false.
Proof. now destruct v. Qed.

Lemma change_status_sent (status : jsval) (t : Z) :
  nullish status = false -> change_status status t = set_status status t.
Proof. unfold change_status. now destruct status. Qed.



Lemma is_type_eq (t s : string) : is_type (JStr t) s = (t =? s)%string.
Proof. reflexivity. Qed.







(* ================================================================== *)
(** * Handlers without a [catch] *)

(** The handlers that only update a subscription have no [try]: when
    [updateSubscription] throws, for instance because no row has the
    provider id or because the connection fails, so do they. *)
Lemma status_handlers_propagate (env : Env) (event subscription : jsval) (w : World) :
  data_object event = inr subscription ->
  nullish subscription = false ->
  forall (h : jsval -> M HandlerResult) (u : SubscriptionUpdates),
    In (h, u)
       [ (handleSubscriptionOnHold env,
          {| upd_status := JStr "on_hold"; upd_current_period_start := None;
             upd_current_period_end := None; upd_cancel_at_period_end := None;
             upd_metadata := JUndefined |});
         (handleSubscriptionCancelled env,
          {| upd_status := JStr "cancelled"; upd_current_period_start := None;
             upd_current_period_end := None; upd_cancel_at_period_end := Some true;
             upd_metadata := JUndefined |});
         (handleSubscriptionFailed env,
          {| upd_status := JStr "failed"; upd_current_period_start := None;
             upd_current_period_end := None; upd_cancel_at_period_end := None;
             upd_metadata := JUndefined |});
         (handleSubscriptionExpired env,
          {| upd_status := JStr "expired"; upd_current_period_start := None;
             upd_current_period_end := None; upd_cancel_at_period_end := None;
             upd_metadata := JUndefined |});
         (handleSubscriptionPlanChanged env,
          {| upd_status := get_opt subscription "status";
             upd_current_period_start := None;
             upd_current_period_end := None; upd_cancel_at_period_end := None;
             upd_metadata := js_or (get_opt subscription "metadata") (JObj []) |}) ] ->
    forall e w',
      updateSubscription env (get_opt subscription "id") u w = (inl e, w') ->
      h event w = (inl e, w').
Proof.
  intros Hd Hs h u Hin e w' Hup.
  cbn in Hin.
  repeat (destruct Hin as [[= <- <-] | Hin];
          [ unfold handleSubscriptionOnHold, handleSubscriptionCancelled,
              handleSubscriptionFailed, handleSubscriptionExpired,
              handleSubscriptionPlanChanged, subscription_of, bind, lift;
            rewrite Hd, (get_of_defined _ "id" Hs); unfold ret;
            now rewrite Hup
          | ]).
  contradiction.
Qed.

(** An update for a provider id that no stored subscription has is such a
    failure. *)
Lemma updateSubscription_missing (env : Env) (key : jsval) (u : SubscriptionUpdates)
  (w : World) :
  filter (subscription_matches key) (subscriptions w) = [] ->
  exists e,
    updateSubscription env key u w
    = (inl e, log_call (Db FnUpdateSubscription QUpdate TSubscriptions) w).
Proof.
  intros Hf. unfold updateSubscription, bind, query, update_subscriptions.
  destruct (db_error env _); [eexists; reflexivity |].
  cbn [subscriptions log_call]. rewrite Hf. eexists. reflexivity.
Qed.

(* ================================================================== *)
(** * The scenarios of the specification *)

(** A first [subscription.active] for a known customer stores the
    subscription, with the period bounds as instants in milliseconds
    (2023-11-14T22:13:20Z and 2023-12-14T22:13:20Z). *)
Example activation_stores_the_subscription :
  fst (handleWebhook sample_config sample_env body_subscription_active None sample_world)
  = {| success := true; error := None; message := Some "Subscription activated and saved" |}
  /\ map (fun s => (sub_dodo_subscription_id s, sub_status s,
                    sub_current_period_start s, sub_current_period_end s))
         (subscriptions world_after_activation)
     = [(JStr "sub_1", JStr "active", Some 1700000000000, Some 1702592000000)]
  /\ map ev_processed (payment_events world_after_activation) = [true].
Proof. vm_compute. repeat split. Qed.

(** With a secret configured and no signature header, the event is processed
    all the same. *)
Example unsigned_delivery_is_processed :
  fst (handleWebhook sample_config sample_env body_invoice_created None sample_world)
  = {| success := true; error := None; message := Some "Event logged but not processed" |}.
Proof. vm_compute. reflexivity. Qed.

(* ================================================================== *)
(** * A call without a signature *)

(** C10.  Without a signature the verifier is not consulted, whatever the
    configuration: the call is not rejected and its outcome is the same
    under any two configurations, with or without a secret.  The body is
    parsed, and a body that is not JSON is answered with the parse error
    and nothing done; the event is logged by [logPaymentEvent], on the
    world as it was, and a failure to log is the answer; the logged event
    is dispatched, on the world [logPaymentEvent] left, and an error of
    the handler is the answer; the row is then marked, and the answer is
    the handler's result, or the error of the marking. *)
Theorem absent_signature_skips_verification
  (cfg cfg' : Config) (env : Env) (body : string) (w : World) :
  rejected cfg body None = false
  /\ handleWebhook cfg env body None w = handleWebhook cfg' env body None w
  /\ (forall e, Json.parse body = inl e ->
      handleWebhook cfg env body None w = (failed_with e, w))
  /\ (forall event e,
      Json.parse body = inr event -> get event "type" = inl e ->
      handleWebhook cfg env body None w = (failed_with e, w))
  /\ (forall event type,
      Json.parse body = inr event -> get event "type" = inr type ->
      exists logged w1,
        logPaymentEvent env type event (get_opt event "id") w = (logged, w1)
        /\ trace w1 = trace w ++ [log_insert]
        /\ (forall e, logged = inl e ->
            handleWebhook cfg env body None w = (failed_with e, w1))
        /\ (forall eventLog, logged = inr eventLog ->
            eventLog = received_row (next_id w) type event
            /\ payment_events w1 = payment_events w ++ [eventLog]
            /\ exists handled w2,
                 dispatch env type event w1 = (handled, w2)
                 /\ (forall e, handled = inl e ->
                     handleWebhook cfg env body None w = (failed_with e, w2))
                 /\ (forall result, handled = inr result ->
                     exists marked w3,
                       markEventProcessed env (ev_id eventLog) w2 = (marked, w3)
                       /\ handleWebhook cfg env body None w
                          = (match marked with
                             | inl e => failed_with e
                             | inr _ => spread result
                             end, w3)))).
Proof.
  split; [reflexivity |]. split; [reflexivity |].
  unfold handleWebhook, handleWebhook_try, process. cbn [rejected].
  split; [| split].
  - intros e Hp. unfold bind, lift. now rewrite Hp.
  - intros event e Hp Ht. unfold bind, lift. now rewrite Hp, Ht.
  - intros event type Hp Ht.
    destruct (logPaymentEvent env type event (get_opt event "id") w)
      as [logged w1] eqn:Hlog.
    pose proof (logPaymentEvent_inv _ _ _ _ _ _ Hlog) as [Ht1 Hrow].
    exists logged, w1. split; [reflexivity |]. split; [exact Ht1 |].
    split.
    + intros e ->. unfold bind, lift. now rewrite Hp, Ht, Hlog.
    + intros eventLog ->. destruct Hrow as (Hrow & He1 & _).
      split; [exact Hrow |]. split; [exact He1 |].
      destruct (dispatch env type event w1) as [handled w2] eqn:Hd.
      exists handled, w2. split; [reflexivity |]. split.
      * intros e ->. unfold bind, lift. now rewrite Hp, Ht, Hlog, Hd.
      * intros result ->.
        destruct (markEventProcessed env (ev_id eventLog) w2) as [marked w3] eqn:Hm.
        exists marked, w3. split; [reflexivity |].
        unfold bind, lift, ret. rewrite Hp, Ht, Hlog, Hd, Hm.
        now destruct marked.
Qed.

Lemma absent_signature_skips_verification_witness :
  webhookSecret sample_config = Some sample_secret
  /\ rejected sample_config body_invoice_created None = false
  /\ handleWebhook sample_config sample_env body_invoice_created None sample_world
     = handleWebhook {| webhookSecret := None |} sample_env body_invoice_created None
         sample_world
  /\ Json.parse body_invoice_created
     = inr (JObj [("id", JStr "evt_4"); ("type", JStr "invoice.created");
                  ("data", JObj [("object", JObj [("id", JStr "inv_1")])])])
  /\ fst (handleWebhook sample_config sample_env body_invoice_created None sample_world)
     = {| success := true; error := None;
          message := Some "Event logged but not processed" |}
  /\ map (fun row => (ev_event_type row, ev_dodo_event_id row, ev_processed row))
         (payment_events
            (snd (handleWebhook sample_config sample_env body_invoice_created None
                    sample_world)))
     = [(JStr "invoice.created", JStr "evt_4", true)]
  /\ trace (snd (handleWebhook sample_config sample_env body_invoice_created None
                   sample_world))
     = [log_insert; mark_update].
Proof.
  destruct (absent_signature_skips_verification sample_config {| webhookSecret := None |}
              sample_env body_invoice_created sample_world)
    as (Hr & Hsame & _).
  split; [reflexivity |]. split; [exact Hr |]. split; [exact Hsame |].
  vm_compute. repeat split.
Defined.

(* ================================================================== *)
(** * Which tables a delivery writes to *)

Lemma unchanged_outside_refl (ts : list Table) (w : World) : unchanged_outside ts w w.
Proof. repeat split. Qed.

Lemma unchanged_outside_trans (ts : list Table) (w w1 w2 : World) :
  unchanged_outside ts w w1 -> unchanged_outside ts w1 w2 -> unchanged_outside ts w w2.
Proof.
  intros (A1 & B1 & C1 & D1) (A2 & B2 & C2 & D2).
  repeat split; intros H;
    [rewrite A2, A1 | rewrite B2, B1 | rewrite C2, C1 | rewrite D2, D1]; auto.
Qed.

Lemma unchanged_outside_mono (ts ts' : list Table) (w w' : World) :
  incl ts ts' -> unchanged_outside ts w w' -> unchanged_outside ts' w w'.
Proof.
  intros Hi (A & B & C & D).
  repeat split; intros H; [apply A | apply B | apply C | apply D];
    intros Hin; apply H, Hi, Hin.
Qed.

Lemma writes_only_mono {A : Type} (ts ts' : list Table) (m : M A) :
  incl ts ts' -> writes_only ts m -> writes_only ts' m.
Proof. intros Hi H w r w' E. eapply unchanged_outside_mono; eauto. Qed.

Lemma writes_only_ret {A : Type} (ts : list Table) (a : A) : writes_only ts (ret a).
Proof. intros w r w' [= _ <-]. apply unchanged_outside_refl. Qed.

Lemma writes_only_throw {A : Type} (ts : list Table) (e : exn) :
  writes_only ts (@throw A e).
Proof. intros w r w' [= _ <-]. apply unchanged_outside_refl. Qed.

Lemma writes_only_lift {A : Type} (ts : list Table) (x : res A) : writes_only ts (lift x).
Proof. intros w r w' [= _ <-]. apply unchanged_outside_refl. Qed.

Lemma writes_only_bind {A B : Type} (ts : list Table) (m : M A) (k : A -> M B) :
  writes_only ts m -> (forall x, writes_only ts (k x)) -> writes_only ts (bind m k).
Proof.
  intros Hm Hk w r w'. unfold bind.
  destruct (m w) as [[e | x] w1] eqn:E.
  - intros [= _ <-]. eauto.
  - intros E2. eapply unchanged_outside_trans; [eapply Hm | eapply Hk]; eauto.
Qed.

Lemma writes_only_try_catch {A : Type} (ts : list Table) (m : M A) (h : exn -> M A) :
  writes_only ts m -> (forall e, writes_only ts (h e)) -> writes_only ts (try_catch m h).
Proof.
  intros Hm Hh w r w'. unfold try_catch.
  destruct (m w) as [[e | x] w1] eqn:E.
  - intros E2. eapply unchanged_outside_trans; [eapply Hm | eapply Hh]; eauto.
  - intros [= _ <-]. eauto.
Qed.

(** A query whose statement writes to [t] at most. *)
Lemma writes_only_query {A : Type} (env : Env) (c : Call) (t : Table)
  (run : World -> (DbError + A) * World) :
  (forall w r w', run w = (r, w') -> unchanged_outside [t] w w') ->
  writes_only [t] (query env c run).
Proof.
  intros Hrun w r w'. unfold query.
  destruct (db_error env _).
  - intros [= _ <-]. repeat split.
  - destruct (run (log_call c w)) as [r1 w2] eqn:E. intros [= _ <-].
    apply Hrun in E. exact E.
Qed.

Ltac table_free :=
  repeat split; cbn; intros Hout; try reflexivity; exfalso; apply Hout; cbn; auto.

Lemma writes_getCustomerByDodoId (env : Env) (key : jsval) :
  writes_only [] (getCustomerByDodoId env key).
Proof.
  unfold getCustomerByDodoId.
  apply writes_only_bind.
  - intros w r w'. unfold query. destruct (db_error env _); intros [= _ <-]; repeat split.
  - intros [e | c]; [destruct (_ =? _)%string |];
      first [apply writes_only_ret | apply writes_only_throw].
Qed.

Lemma writes_getPaymentDetails (env : Env) (key : jsval) :
  writes_only [] (getPaymentDetails env key).
Proof. intros w r w' [= _ <-]. repeat split. Qed.

Lemma writes_saveSubscription (env : Env) (row : Subscription) :
  writes_only [TSubscriptions] (saveSubscription env row).
Proof.
  unfold saveSubscription. apply writes_only_bind.
  - apply writes_only_query. intros w r w'. unfold insert_subscription.
    repeat match goal with |- context [if ?b then _ else _] => destruct b end;
      intros [= _ <-]; table_free.
  - intros [e | c]; first [apply writes_only_ret | apply writes_only_throw].
Qed.

Lemma writes_updateSubscription (env : Env) (key : jsval) (u : SubscriptionUpdates) :
  writes_only [TSubscriptions] (updateSubscription env key u).
Proof.
  unfold updateSubscription. apply writes_only_bind.
  - apply writes_only_query. intros w r w'. unfold update_subscriptions.
    destruct (single _); [intros [= _ <-]; table_free |].
    destruct (jsval_eqb _ _); intros [= _ <-]; table_free.
  - intros [e | c]; first [apply writes_only_ret | apply writes_only_throw].
Qed.

Lemma writes_logPaymentEvent (env : Env) (type event id : jsval) :
  writes_only [TPaymentEvents] (logPaymentEvent env type event id).
Proof.
  unfold logPaymentEvent. apply writes_only_bind.
  - apply writes_only_query. intros w r w'. unfold insert_event.
    repeat match goal with |- context [if ?b then _ else _] => destruct b end;
      intros [= _ <-]; table_free.
  - intros [e | c]; first [apply writes_only_ret | apply writes_only_throw].
Qed.

Lemma writes_savePaymentEvent (env : Env) (a : PaymentEventArgs) :
  writes_only [TPaymentEvents] (savePaymentEvent env a).
Proof.
  unfold savePaymentEvent. apply writes_only_bind.
  - apply writes_only_query. intros w r w'. unfold insert_event.
    repeat match goal with |- context [if ?b then _ else _] => destruct b end;
      intros [= _ <-]; table_free.
  - intros [e | c]; first [apply writes_only_ret | apply writes_only_throw].
Qed.

Lemma writes_markEventProcessed (env : Env) (id : uuid) :
  writes_only [TPaymentEvents] (markEventProcessed env id).
Proof.
  unfold markEventProcessed. apply writes_only_bind.
  - apply writes_only_query. intros w r w'. unfold update_event.
    destruct (single _); intros [= _ <-]; table_free.
  - intros [e | c]; first [apply writes_only_ret | apply writes_only_throw].
Qed.

Lemma writes_updatePaymentStatus (env : Env) (key status : jsval) :
  writes_only [TPayments] (updatePaymentStatus env key status).
Proof.
  unfold updatePaymentStatus. apply writes_only_bind.
  - apply writes_only_query. intros w r w' [= _ <-]. table_free.
  - intros [e | p].
    + destruct (_ =? _)%string; [| apply writes_only_throw].
      apply writes_only_bind.
      * apply writes_only_query. intros w r w'. unfold insert_payment.
        repeat match goal with |- context [if ?b then _ else _] => destruct b end;
          intros [= _ <-]; table_free.
      * intros [e' | c]; first [apply writes_only_ret | apply writes_only_throw].
    + apply writes_only_bind.
      * apply writes_only_query. intros w r w'. unfold update_payment.
        destruct (single _); [intros [= _ <-]; table_free |].
        destruct (jsval_eqb _ _); intros [= _ <-]; table_free.
      * intros [e' | c]; first [apply writes_only_ret | apply writes_only_throw].
Qed.

Lemma incl_tables (ts ts' : list Table) :
  forallb (fun t => existsb (fun t' =>
     match t, t' with
     | TCustomers, TCustomers | TSubscriptions, TSubscriptions
     | TPaymentEvents, TPaymentEvents | TPayments, TPayments => true
     | _, _ => false
     end) ts') ts = true -> incl ts ts'.
Proof.
  intros H t Hin. rewrite forallb_forall in H. apply H in Hin.
  apply existsb_exists in Hin as (t' & Hin & E).
  destruct t, t'; try discriminate; exact Hin.
Qed.

Ltac widen lemma :=
  eapply writes_only_mono; cycle 1; [apply lemma | apply incl_tables; reflexivity].

Ltac writes_case :=
  match goal with
  | |- writes_only _ (match ?x with _ => _ end) => destruct x
  | |- writes_only _ (let '(_, _) := ?x in _) => destruct x
  end.

Ltac writes_tac :=
  repeat first
    [ widen writes_getCustomerByDodoId
    | widen writes_getPaymentDetails
    | widen writes_saveSubscription
    | widen writes_updateSubscription
    | widen writes_logPaymentEvent
    | widen writes_savePaymentEvent
    | widen writes_markEventProcessed
    | widen writes_updatePaymentStatus
    | apply writes_only_ret
    | apply writes_only_throw
    | apply writes_only_lift
    | apply writes_only_bind; [| intros]
    | apply writes_only_try_catch; [| intros]
    | writes_case ].

Lemma writes_processPaymentWebhook (env : Env) (event : jsval) :
  writes_only [TPayments; TPaymentEvents] (processPaymentWebhook env event).
Proof.
  unfold processPaymentWebhook, handlePaymentSuccess, handlePaymentFailure,
    handlePaymentStatusUpdate, handlePostPaymentActions, handlePostPaymentFailureActions.
  writes_tac.
Qed.

Lemma writes_dispatch (env : Env) (type event : jsval) :
  writes_only (tables_of_route (route type)) (dispatch env type event).
Proof.
  pose proof (writes_processPaymentWebhook env event) as Hp.
  unfold dispatch, handleSubscriptionActive, handleSubscriptionOnHold,
    handleSubscriptionRenewed, handleSubscriptionPlanChanged, handleSubscriptionCancelled,
    handleSubscriptionFailed, handleSubscriptionExpired, handleRefundSucceeded,
    handleRefundFailed, handleDisputeEvent, handleLicenseKeyCreated,
    subscription_of, logged_id.
  destruct (route type); cbn [tables_of_route subscription_route];
    try (apply writes_only_bind; [exact Hp | intros; apply writes_only_ret]);
    writes_tac.
Qed.

Lemma writes_handleWebhook_try (cfg : Config) (env : Env) (body : string)
  (signature : option string) :
  writes_only (TPaymentEvents :: tables_of_route (route_of_body body))
    (handleWebhook_try cfg env body signature).
Proof.
  unfold handleWebhook_try, process, route_of_body.
  destruct (rejected _ _ _); [apply writes_only_ret |].
  intros w r w'. unfold bind at 1. unfold lift at 1.
  destruct (Json.parse body) as [e | event]; [intros [= _ <-]; repeat split |].
  unfold bind at 1. unfold lift at 1.
  destruct (get event "type") as [e | type]; [intros [= _ <-]; repeat split |].
  revert w r w'.
  apply writes_only_bind; [widen writes_logPaymentEvent | intros eventLog].
  apply writes_only_bind.
  - eapply writes_only_mono; [| apply writes_dispatch]. apply incl_tl, incl_refl.
  - intros result. apply writes_only_bind; [widen writes_markEventProcessed |].
    intros; apply writes_only_ret.
Qed.

Lemma handleWebhook_world (cfg : Config) (env : Env) (body : string)
  (signature : option string) (w : World) :
  exists r,
    handleWebhook_try cfg env body signature w
    = (r, snd (handleWebhook cfg env body signature w)).
Proof.
  unfold handleWebhook.
  destruct (handleWebhook_try cfg env body signature w) as [[e | r] w'];
    eexists; reflexivity.
Qed.

(** X1.  Which tables a delivery can change.  No delivery writes to
    [customers]; only a [payment.*] event can change [payments]; only a
    [subscription.*] event can change [subscriptions]. *)
Theorem delivery_writes_only_to_its_tables
  (cfg : Config) (env : Env) (body : string) (signature : option string) (w : World) :
  let w' := snd (handleWebhook cfg env body signature w) in
  customers w' = customers w
  /\ (route_of_body body <> RPayment -> payments w' = payments w)
  /\ (subscription_route (route_of_body body) = false ->
      subscriptions w' = subscriptions w).
Proof.
  cbn zeta.
  destruct (handleWebhook_world cfg env body signature w) as [r Hrun].
  apply writes_handleWebhook_try in Hrun as (Hc & Hs & _ & Hp).
  split; [| split].
  - apply Hc. intros [H | H]; [discriminate |].
    destruct (route_of_body body); cbn in H; intuition discriminate.
  - intros Hroute. apply Hp. intros [H | H]; [discriminate |].
    destruct (route_of_body body); cbn in H; intuition discriminate.
  - intros Hroute. apply Hs. intros [H | H]; [discriminate |].
    destruct (route_of_body body); cbn in H, Hroute; intuition discriminate.
Qed.

(* ================================================================== *)
(** * What a run keeps *)

Lemma keeps_ret {A : Type} (I : World -> Prop) (a : A) : keeps I (ret a).
Proof. now intros w r w' [= _ <-]. Qed.

Lemma keeps_throw {A : Type} (I : World -> Prop) (e : exn) : keeps I (@throw A e).
Proof. now intros w r w' [= _ <-]. Qed.

Lemma keeps_lift {A : Type} (I : World -> Prop) (x : res A) : keeps I (lift x).
Proof. now intros w r w' [= _ <-]. Qed.

Lemma keeps_bind {A B : Type} (I : World -> Prop) (m : M A) (k : A -> M B) :
  keeps I m -> (forall x, keeps I (k x)) -> keeps I (bind m k).
Proof.
  intros Hm Hk w r w'. unfold bind.
  destruct (m w) as [[e | x] w1] eqn:E.
  - intros [= _ <-]. eauto.
  - intros E2 Hi. eapply Hk; eauto.
Qed.

Lemma keeps_try_catch {A : Type} (I : World -> Prop) (m : M A) (h : exn -> M A) :
  keeps I m -> (forall e, keeps I (h e)) -> keeps I (try_catch m h).
Proof.
  intros Hm Hh w r w'. unfold try_catch.
  destruct (m w) as [[e | x] w1] eqn:E.
  - intros E2 Hi. eapply Hh; eauto.
  - intros [= _ <-]. eauto.
Qed.

Lemma keeps_query {A : Type} (I : World -> Prop) (env : Env) (c : Call)
  (run : World -> (DbError + A) * World) :
  (forall w, I w -> I (log_call c w)) ->
  (forall w r w', run w = (r, w') -> I w -> I w') ->
  keeps I (query env c run).
Proof.
  intros Hlog Hrun w r w'. unfold query.
  destruct (db_error env _).
  - intros [= _ <-]. apply Hlog.
  - destruct (run (log_call c w)) as [r1 w2] eqn:E. intros [= _ <-] Hi.
    eapply Hrun; eauto.
Qed.

Ltac no_table := cbn; intuition discriminate.

Ltac keeps_case :=
  match goal with
  | |- keeps _ (match ?x with _ => _ end) => destruct x
  | |- keeps _ (let '(_, _) := ?x in _) => destruct x
  end.

(* ================================================================== *)
(** * What the subscription handlers write *)

Lemma apply_updates_identity (u : SubscriptionUpdates) (s : Subscription) :
  sub_identity (apply_updates u s) = sub_identity s.
Proof. reflexivity. Qed.

Lemma filter_map_matching {A : Type} (p : A -> bool) (f : A -> A) (l : list A) :
  (forall x, p (f x) = p x) ->
  filter p (map (fun x => if p x then f x else x) l) = map f (filter p l).
Proof.
  intros H. induction l as [| x r IH]; [reflexivity |]. cbn.
  destruct (p x) eqn:E; cbn.
  - rewrite H, E. cbn. now rewrite IH.
  - rewrite E. exact IH.
Qed.

Lemma filter_map_others {A : Type} (p : A -> bool) (f : A -> A) (l : list A) :
  (forall x, p (f x) = p x) ->
  filter (fun x => negb (p x)) (map (fun x => if p x then f x else x) l)
  = filter (fun x => negb (p x)) l.
Proof.
  intros H. induction l as [| x r IH]; [reflexivity |]. cbn.
  destruct (p x) eqn:E; cbn.
  - rewrite H, E. cbn. exact IH.
  - rewrite E. cbn. now rewrite IH.
Qed.

Lemma subscription_matches_updated (key : jsval) (u : SubscriptionUpdates)
  (s : Subscription) :
  subscription_matches key (apply_updates u s) = subscription_matches key s.
Proof. reflexivity. Qed.

(** A successful [updateSubscription]: the one row of the provider id is
    rewritten in place, the others are not touched. *)
Lemma updateSubscription_effect (env : Env) (key : jsval) (u : SubscriptionUpdates)
  (s : Subscription) (w : World) :
  filter (subscription_matches key) (subscriptions w) = [s] ->
  jsval_eqb (upd_status u) JNull = false ->
  db_error env (List.length (trace w)) = None ->
  exists w',
    updateSubscription env key u w = (inr (apply_updates u s), w')
    /\ filter (subscription_matches key) (subscriptions w') = [apply_updates u s]
    /\ other_subscriptions key w' = other_subscriptions key w
    /\ map sub_identity (subscriptions w') = map sub_identity (subscriptions w)
    /\ trace w' = trace w ++ [subscription_update].
Proof.
  intros Hf Hs Hdb.
  unfold updateSubscription, bind, query, update_subscriptions. rewrite Hdb.
  cbn [subscriptions log_call]. rewrite Hf. cbn [single]. rewrite Hs.
  rewrite (filter_map_matching _ _ _ (subscription_matches_updated key u)), Hf.
  cbn [map single]. eexists. split; [reflexivity |].
  unfold other_subscriptions. cbn [subscriptions set_subscriptions trace log_call].
  rewrite (filter_map_matching _ _ _ (subscription_matches_updated key u)), Hf.
  rewrite (filter_map_others _ _ _ (subscription_matches_updated key u)).
  repeat split. rewrite map_map. apply map_ext.
  intros x. now destruct (subscription_matches key x).
Qed.

Lemma subscription_of_present (event subscription : jsval) (w : World) :
  data_object event = inr subscription ->
  nullish subscription = false ->
  subscription_of event w = (inr subscription, w).
Proof.
  intros Hd Hs. unfold subscription_of, bind, lift.
  now rewrite Hd, (get_of_defined _ "id" Hs).
Qed.

(* ================================================================== *)
(** * Seconds as doubles *)

(** The product with 1000 is a product of doubles: 1.005 seconds are
    1004.9999999999999 milliseconds, of which a date keeps 1004; and
    8640000000000.0001 seconds are, as a double, the last second a date can
    hold. *)
Example seconds_are_multiplied_as_doubles :
  iso_of_seconds (fun _ => None) (JNum 1005 (-3)) = inr 1004
  /\ iso_of_seconds (fun _ => None) (JNum 86400000000000001 (-4))
     = inr 8640000000000000
  /\ iso_of_seconds (fun _ => None) (JNum 8640000000001 0)
     = inl (Throw RangeError "Invalid time value").
Proof. vm_compute. repeat split. Qed.

(** A number too small for a double is zero, and falsy. *)
Example underflow_is_falsy :
  truthy (JNum 1 (-400)) = false /\ truthy (JNum 5 (-324)) = true.
Proof. vm_compute. split; reflexivity. Qed.

Lemma nearest_even_exact (q d : Z) : 0 < d -> nearest_even (q * d) d = q.
Proof.
  intros Hd. unfold nearest_even.
  rewrite Z.div_mul, Z.mod_mul by lia.
  destruct (2 * 0 <? d) eqn:E; [reflexivity |].
  apply Z.ltb_ge in E. lia.
Qed.

Lemma log2_below_53 (k : Z) : 0 < k < 2 ^ 53 -> 0 <= Z.log2 k <= 52.
Proof.
  intros [Hk Hlt]. split; [apply Z.log2_nonneg |].
  apply Z.log2_lt_pow2 in Hlt; lia.
Qed.

(** A whole number below [2^53] is a double. *)
Lemma to_double_exact (k d : Z) :
  0 < k < 2 ^ 53 -> 0 < d ->
  to_double (k * d) d = Some (k * 2 ^ (52 - Z.log2 k), Z.log2 k - 52).
Proof.
  intros Hk Hd.
  pose proof (log2_below_53 k Hk) as HL.
  unfold to_double, floor_log2.
  replace (k * d =? 0) with false by (symmetry; apply Z.eqb_neq; nia).
  replace (d <=? k * d) with true by (symmetry; apply Z.leb_le; nia).
  rewrite Z.div_mul by lia.
  rewrite Z.max_l by lia.
  set (L := Z.log2 k) in *.
  assert (Hpow : 0 < 2 ^ (52 - L)) by (apply Z.pow_pos_nonneg; lia).
  assert (Hs : (if 0 <=? L - 52 then nearest_even (k * d) (d * 2 ^ (L - 52))
                else nearest_even (k * d * 2 ^ (- (L - 52))) d)
               = k * 2 ^ (52 - L)).
  { destruct (0 <=? L - 52) eqn:E.
    - apply Z.leb_le in E. replace L with 52 by lia. cbn [Z.sub Z.pow Z.opp Z.add].
      change (2 ^ 0) with 1. rewrite !Z.mul_1_r. now apply nearest_even_exact.
    - replace (- (L - 52)) with (52 - L) by lia.
      replace (k * d * 2 ^ (52 - L)) with (k * 2 ^ (52 - L) * d) by ring.
      now apply nearest_even_exact. }
  rewrite Hs.
  replace (k * 2 ^ (52 - L) =? 0) with false by (symmetry; apply Z.eqb_neq; nia).
  rewrite Z.log2_mul_pow2 by lia. fold L.
  replace (1024 <=? 52 - L + L + (L - 52)) with false
    by (symmetry; apply Z.leb_gt; lia).
  reflexivity.
Qed.

Lemma fraction_exact (k j : Z) (x : Z) :
  x = - j -> 0 <= j ->
  exists d, 0 < d /\ fraction (k * 2 ^ j) x = (k * d, d).
Proof.
  intros -> Hj. unfold fraction.
  destruct (0 <=? - j) eqn:E.
  - apply Z.leb_le in E. replace j with 0 by lia. exists 1. cbn.
    split; [lia |]. f_equal. ring.
  - exists (2 ^ j). replace (- - j) with j by lia.
    split; [apply Z.pow_pos_nonneg; lia | reflexivity].
Qed.

(** Whole seconds within the range of a date convert exactly. *)
Lemma time_of_whole_seconds (n : Z) :
  Z.abs n <= max_seconds -> time_of_seconds n 0 = Some (n * 1000).
Proof.
  unfold max_seconds. intros Hn. unfold time_of_seconds, double_of_decimal. cbn [Z.leb Z.compare].
  change (10 ^ 0) with 1.
  destruct (Z.eq_dec n 0) as [-> | Hnz]; [reflexivity |].
  set (k := Z.abs n).
  assert (Hk : 0 < k < 2 ^ 53) by (subst k; change (2 ^ 53) with 9007199254740992; lia).
  assert (Hk2 : 0 < k * 1000 < 2 ^ 53)
    by (subst k; change (2 ^ 53) with 9007199254740992; lia).
  rewrite (to_double_exact k 1 Hk) by lia.
  pose proof (log2_below_53 k Hk) as HL.
  pose proof (log2_below_53 _ Hk2) as HL2.
  replace (k * 2 ^ (52 - Z.log2 k) * 1000) with (k * 1000 * 2 ^ (52 - Z.log2 k)) by ring.
  destruct (fraction_exact (k * 1000) (52 - Z.log2 k) (Z.log2 k - 52))
    as (d & Hd & ->); [lia | lia |].
  rewrite (to_double_exact (k * 1000) d Hk2 Hd).
  destruct (fraction_exact (k * 1000) (52 - Z.log2 (k * 1000)) (Z.log2 (k * 1000) - 52))
    as (d' & Hd' & ->); [lia | lia |].
  rewrite Z.div_mul by lia.
  replace (k * 1000 <=? max_time) with true
    by (symmetry; apply Z.leb_le; unfold max_time; subst k; lia).
  f_equal. subst k. rewrite Z.mul_assoc, (Z.mul_comm (Z.sgn n)), Z.abs_sgn. reflexivity.
Qed.

Lemma iso_of_whole_seconds (f : string -> option (Z * Z)) (v : jsval) (n : Z) :
  whole_seconds v n -> iso_of_seconds f v = inr (n * 1000).
Proof.
  intros [-> Hn]. unfold iso_of_seconds, to_number.
  cbn [to_string_throws to_number_total]. now rewrite time_of_whole_seconds.
Qed.

(** X3.  A renewal rewrites the period of the stored subscription in place.
    With exactly one stored row for the event's subscription id, period
    fields that are whole numbers of seconds within the range of a date, and
    the database answering, the handler returns its message after one
    update; that row gets status [active] and the two instants, in
    milliseconds, and keeps everything else; no other row changes. *)
Theorem renewal_updates_the_period_in_place
  (env : Env) (event subscription : jsval) (s : Subscription) (n1 n2 : Z) (w : World) :
  data_object event = inr subscription ->
  nullish subscription = false ->
  whole_seconds (get_opt subscription "current_period_start") n1 ->
  whole_seconds (get_opt subscription "current_period_end") n2 ->
  filter (subscription_matches (get_opt subscription "id")) (subscriptions w) = [s] ->
  db_error env (List.length (trace w)) = None ->
  exists w' s',
    handleSubscriptionRenewed env event w
    = (inr (say "Subscription renewal recorded"), w')
    /\ filter (subscription_matches (get_opt subscription "id")) (subscriptions w') = [s']
    /\ sub_status s' = JStr "active"
    /\ sub_current_period_start s' = Some (n1 * 1000)
    /\ sub_current_period_end s' = Some (n2 * 1000)
    /\ sub_identity s' = sub_identity s
    /\ sub_cancel_at_period_end s' = sub_cancel_at_period_end s
    /\ sub_metadata s' = sub_metadata s
    /\ other_subscriptions (get_opt subscription "id") w'
       = other_subscriptions (get_opt subscription "id") w
    /\ trace w' = trace w ++ [subscription_update].
Proof.
  intros Hd Hs H1 H2 Hf Hdb.
  apply (iso_of_whole_seconds (string_to_number env)) in H1, H2.
  unfold handleSubscriptionRenewed. unfold bind at 1.
  rewrite (subscription_of_present _ _ _ Hd Hs).
  unfold bind at 1. unfold lift at 1. rewrite H1.
  unfold bind at 1. unfold lift at 1. rewrite H2.
  match goal with
  | |- context [updateSubscription env ?k ?u] =>
      destruct (updateSubscription_effect env k u s w Hf eq_refl Hdb)
        as (w' & Hrun & Hf' & Ho & _ & Ht)
  end.
  unfold bind. rewrite Hrun. exists w'. eexists.
  split; [reflexivity |]. split; [exact Hf' |].
  repeat split; assumption.
Qed.

Lemma renewal_updates_the_period_in_place_witness :
  exists w',
    handleSubscriptionRenewed sample_env (subscription_event "subscription.renewed"
                                            renewed_fields) world_after_activation
    = (inr (say "Subscription renewal recorded"), w')
    /\ map (fun s => (sub_status s, sub_current_period_start s, sub_current_period_end s))
           (subscriptions w')
       = [(JStr "active", Some 1702592000000, Some 1705270400000)].
Proof.
  edestruct renewal_updates_the_period_in_place
    with (env := sample_env)
         (event := subscription_event "subscription.renewed" renewed_fields)
         (subscription := JObj renewed_fields)
         (n1 := 1702592000) (n2 := 1705270400)
         (w := world_after_activation)
    as (w' & s' & Hrun & _); try (vm_compute; reflexivity);
    try (split; [reflexivity | vm_compute; discriminate]).
  exists w'. split; [exact Hrun |].
  replace w' with (snd (handleSubscriptionRenewed sample_env
                          (subscription_event "subscription.renewed" renewed_fields)
                          world_after_activation)) by now rewrite Hrun.
  vm_compute. reflexivity.
Defined.

(** X4.  The four handlers that only set a status.  With exactly one stored
    row for the event's subscription id and the database answering, each
    returns its message after one update; the row gets the handler's status;
    [cancelled] also forces [cancel_at_period_end] to [true]; the period,
    the metadata and every other row stay as they were. *)
Theorem status_events_set_the_status
  (env : Env) (event subscription : jsval) (s : Subscription) (w : World) :
  data_object event = inr subscription ->
  nullish subscription = false ->
  filter (subscription_matches (get_opt subscription "id")) (subscriptions w) = [s] ->
  db_error env (List.length (trace w)) = None ->
  forall (h : jsval -> M HandlerResult) (target msg : string) (forced : bool),
    In (h, target, forced, msg)
       [ (handleSubscriptionOnHold env, "on_hold", false,
          "Subscription marked as on hold");
         (handleSubscriptionCancelled env, "cancelled", true,
          "Subscription cancellation recorded");
         (handleSubscriptionFailed env, "failed", false,
          "Subscription failure recorded");
         (handleSubscriptionExpired env, "expired", false,
          "Subscription expiration recorded") ] ->
    exists w' s',
      h event w = (inr (say msg), w')
      /\ filter (subscription_matches (get_opt subscription "id")) (subscriptions w') = [s']
      /\ sub_status s' = JStr target
      /\ sub_cancel_at_period_end s'
         = (if forced then JBool true else sub_cancel_at_period_end s)
      /\ sub_current_period_start s' = sub_current_period_start s
      /\ sub_current_period_end s' = sub_current_period_end s
      /\ sub_metadata s' = sub_metadata s
      /\ sub_identity s' = sub_identity s
      /\ other_subscriptions (get_opt subscription "id") w'
         = other_subscriptions (get_opt subscription "id") w.
Proof.
  intros Hd Hs Hf Hdb h target msg forced Hin.
  cbn in Hin.
  repeat (destruct Hin as [[= <- <- <- <-] | Hin];
          [ unfold handleSubscriptionOnHold, handleSubscriptionCancelled,
              handleSubscriptionFailed, handleSubscriptionExpired;
            unfold bind at 1; rewrite (subscription_of_present _ _ _ Hd Hs);
            match goal with
            | |- context [updateSubscription env ?k ?u] =>
                destruct (updateSubscription_effect env k u s w Hf eq_refl Hdb)
                  as (w' & Hrun & Hf' & Ho & _)
            end;
            unfold bind; rewrite Hrun; exists w'; eexists;
            split; [reflexivity |]; split; [exact Hf' |];
            repeat split; assumption
          | ]).
  contradiction.
Qed.

Lemma status_events_set_the_status_witness :
  exists w',
    handleSubscriptionCancelled sample_env
      (subscription_event "subscription.cancelled" [("id", JStr "sub_1")])
      world_after_activation
    = (inr (say "Subscription cancellation recorded"), w')
    /\ map (fun s => (sub_status s, sub_cancel_at_period_end s, sub_current_period_start s))
           (subscriptions w')
       = [(JStr "cancelled", JBool true, Some 1700000000000)].
Proof.
  edestruct status_events_set_the_status
    with (env := sample_env)
         (event := subscription_event "subscription.cancelled" [("id", JStr "sub_1")])
         (subscription := JObj [("id", JStr "sub_1")])
         (w := world_after_activation)
         (h := handleSubscriptionCancelled sample_env)
    as (w' & s' & Hrun & _);
    [vm_compute; reflexivity | vm_compute; reflexivity | vm_compute; reflexivity
    | vm_compute; reflexivity | right; left; reflexivity |].
  exists w'. split; [exact Hrun |].
  replace w' with (snd (handleSubscriptionCancelled sample_env
                          (subscription_event "subscription.cancelled"
                             [("id", JStr "sub_1")])
                          world_after_activation)) by now rewrite Hrun.
  vm_compute. reflexivity.
Defined.

Lemma defined_or_object (v : jsval) : defined (js_or v (JObj [])) = true.
Proof.
  unfold js_or. destruct (truthy v) eqn:E; [| reflexivity].
  now destruct v.
Qed.

(** X5.  A plan change copies the event's status and replaces the metadata.
    With exactly one stored row and the database answering: a status that is
    missing from the event leaves the stored one, any other status but
    [null] is stored as it is; the metadata becomes the event's, or the
    empty object when the event has none; the period and the cancel flag
    stay.  A [null] status violates the NOT NULL constraint: the handler
    throws and the table is left alone. *)
Theorem plan_change_copies_status_and_metadata
  (env : Env) (event subscription : jsval) (s : Subscription) (w : World) :
  data_object event = inr subscription ->
  nullish subscription = false ->
  filter (subscription_matches (get_opt subscription "id")) (subscriptions w) = [s] ->
  db_error env (List.length (trace w)) = None ->
  (get_opt subscription "status" <> JNull ->
   exists w' s',
     handleSubscriptionPlanChanged env event w
     = (inr (say "Subscription plan change recorded"), w')
     /\ filter (subscription_matches (get_opt subscription "id")) (subscriptions w') = [s']
     /\ sub_status s'
        = (if defined (get_opt subscription "status")
           then get_opt subscription "status" else sub_status s)
     /\ sub_metadata s' = js_or (get_opt subscription "metadata") (JObj [])
     /\ sub_current_period_start s' = sub_current_period_start s
     /\ sub_current_period_end s' = sub_current_period_end s
     /\ sub_cancel_at_period_end s' = sub_cancel_at_period_end s
     /\ sub_identity s' = sub_identity s)
  /\ (get_opt subscription "status" = JNull ->
      exists e w',
        handleSubscriptionPlanChanged env event w = (inl e, w')
        /\ subscriptions w' = subscriptions w).
Proof.
  intros Hd Hs Hf Hdb. split.
  - intros Hst.
    assert (Hnn : jsval_eqb (get_opt subscription "status") JNull = false).
    { destruct (jsval_eqb _ JNull) eqn:E; [| reflexivity].
      apply jsval_eqb_sound in E. contradiction. }
    unfold handleSubscriptionPlanChanged. unfold bind at 1.
    rewrite (subscription_of_present _ _ _ Hd Hs).
    match goal with
    | |- context [updateSubscription env ?k ?u] =>
        destruct (updateSubscription_effect env k u s w Hf Hnn Hdb)
          as (w' & Hrun & Hf' & _)
    end.
    unfold bind. rewrite Hrun. exists w'. eexists.
    split; [reflexivity |]. split; [exact Hf' |].
    cbn [apply_updates sub_status sub_metadata upd_status upd_metadata
         sub_current_period_start sub_current_period_end sub_cancel_at_period_end
         upd_current_period_start upd_current_period_end upd_cancel_at_period_end].
    rewrite defined_or_object. repeat split.
  - intros Hst.
    unfold handleSubscriptionPlanChanged. unfold bind at 1.
    rewrite (subscription_of_present _ _ _ Hd Hs).
    unfold updateSubscription, bind, query, update_subscriptions. rewrite Hdb.
    cbn [subscriptions log_call]. rewrite Hf. cbn [single upd_status]. rewrite Hst.
    cbn [jsval_eqb]. do 2 eexists. split; reflexivity.
Qed.

Lemma plan_change_copies_status_and_metadata_witness :
  exists w',
    handleSubscriptionPlanChanged sample_env
      (subscription_event "subscription.plan_changed" plan_fields) world_after_activation
    = (inr (say "Subscription plan change recorded"), w')
    /\ map (fun s => (sub_status s, sub_metadata s)) (subscriptions w')
       = [(JStr "active", JObj [("plan", JStr "pro")])].
Proof.
  edestruct plan_change_copies_status_and_metadata
    with (env := sample_env)
         (event := subscription_event "subscription.plan_changed" plan_fields)
         (subscription := JObj plan_fields)
         (w := world_after_activation)
    as [Hok _]; try (vm_compute; reflexivity).
  destruct Hok as (w' & s' & Hrun & _); [vm_compute; discriminate |].
  exists w'. split; [exact Hrun |].
  replace w' with (snd (handleSubscriptionPlanChanged sample_env
                          (subscription_event "subscription.plan_changed" plan_fields)
                          world_after_activation)) by now rewrite Hrun.
  vm_compute. reflexivity.
Defined.

(* ================================================================== *)
(** * Activation *)

(** X6.  The first activation stores the subscription.  With exactly one local
    customer for the event's customer id, a subscription id in the event, a
    string, that no stored row has, period fields that are whole numbers of
    seconds within the range of a date, and the database answering the two
    queries, the handler returns 'Subscription activated and saved' and
    appends exactly one row: the event's subscription id, the customer's
    keys, status [active], the two instants in milliseconds. *)
Theorem first_activation_stores_the_subscription
  (env : Env) (event subscription : jsval) (customer : Customer) (id : string)
  (n1 n2 : Z) (w : World) :
  data_object event = inr subscription ->
  nullish subscription = false ->
  filter (customer_matches (get_opt subscription "customer")) (customers w) = [customer] ->
  get_opt subscription "id" = JStr id ->
  existsb (subscription_matches (JStr id)) (subscriptions w) = false ->
  whole_seconds (get_opt subscription "current_period_start") n1 ->
  whole_seconds (get_opt subscription "current_period_end") n2 ->
  db_error env (List.length (trace w)) = None ->
  db_error env (S (List.length (trace w))) = None ->
  exists w' row,
    handleSubscriptionActive env event w
    = (inr (say "Subscription activated and saved"), w')
    /\ subscriptions w' = subscriptions w ++ [row]
    /\ sub_id row = next_id w
    /\ sub_dodo_subscription_id row = JStr id
    /\ sub_customer_id row = cust_id customer
    /\ sub_user_id row = cust_user_id customer
    /\ sub_status row = JStr "active"
    /\ sub_current_period_start row = Some (n1 * 1000)
    /\ sub_current_period_end row = Some (n2 * 1000)
    /\ trace w' = trace w ++ [customer_select; subscription_insert].
Proof.
  intros Hd Hs Hc Hid Hnew H1 H2 Hdb1 Hdb2.
  apply (iso_of_whole_seconds (string_to_number env)) in H1, H2.
  unfold handleSubscriptionActive. unfold bind at 1.
  rewrite (subscription_of_present _ _ _ Hd Hs).
  unfold try_catch, getCustomerByDodoId. unfold bind at 1. unfold bind at 1.
  unfold query at 1. rewrite Hdb1. cbn [customers log_call]. rewrite Hc.
  cbn [single ret].
  unfold bind at 1. unfold lift at 1. rewrite H1.
  unfold bind at 1. unfold lift at 1. rewrite H2.
  unfold saveSubscription, bind, query, insert_subscription, is_null.
  cbn [trace log_call]. rewrite length_app. cbn [List.length].
  rewrite Nat.add_1_r, Hdb2.
  cbn [sub_dodo_subscription_id sub_status subscriptions log_call nullish].
  rewrite Hid. cbn [nullish]. rewrite Hnew. cbn.
  do 2 eexists. split; [reflexivity |]. cbn.
  repeat split. now rewrite <- app_assoc.
Qed.

Lemma first_activation_stores_the_subscription_witness :
  exists w',
    handleSubscriptionActive sample_env
      (subscription_event "subscription.active" renewed_fields) sample_world
    = (inr (say "Subscription activated and saved"), w')
    /\ map (fun s => (sub_dodo_subscription_id s, sub_customer_id s,
                      sub_current_period_start s))
           (subscriptions w')
       = [(JStr "sub_1", 1%nat, Some 1702592000000)].
Proof.
  edestruct first_activation_stores_the_subscription
    with (env := sample_env)
         (event := subscription_event "subscription.active" renewed_fields)
         (subscription := JObj renewed_fields)
         (id := "sub_1") (n1 := 1702592000) (n2 := 1705270400)
         (w := sample_world)
    as (w' & row & Hrun & _); try (vm_compute; reflexivity);
    try (split; [reflexivity | vm_compute; discriminate]).
  exists w'. split; [exact Hrun |].
  replace w' with (snd (handleSubscriptionActive sample_env
                          (subscription_event "subscription.active" renewed_fields)
                          sample_world)) by now rewrite Hrun.
  vm_compute. reflexivity.
Defined.

(* ================================================================== *)
(** * Events that lack what a handler reads *)

(** X7.  A renewal whose period cannot be converted sends nothing.  When
    either period field does not convert to an instant (the first that fails
    decides), [handleSubscriptionRenewed] throws that error before any query:
    the world, trace included, is unchanged.  A missing
    [current_period_start] is such a case, with the [RangeError] 'Invalid
    time value'. *)
Theorem renewal_with_an_invalid_period_sends_nothing
  (env : Env) (event subscription : jsval) (w : World) :
  data_object event = inr subscription ->
  nullish subscription = false ->
  (forall e,
      iso_of_seconds (string_to_number env) (get_opt subscription "current_period_start")
      = inl e
      \/ (exists t,
             iso_of_seconds (string_to_number env)
               (get_opt subscription "current_period_start") = inr t
             /\ iso_of_seconds (string_to_number env)
                  (get_opt subscription "current_period_end") = inl e) ->
      handleSubscriptionRenewed env event w = (inl e, w))
  /\ (get_opt subscription "current_period_start" = JUndefined ->
      handleSubscriptionRenewed env event w
      = (inl (Throw RangeError "Invalid time value"), w)).
Proof.
  intros Hd Hs.
  assert (Hgen : forall e,
             iso_of_seconds (string_to_number env)
               (get_opt subscription "current_period_start") = inl e
             \/ (exists t,
                    iso_of_seconds (string_to_number env)
                      (get_opt subscription "current_period_start") = inr t
                    /\ iso_of_seconds (string_to_number env)
                         (get_opt subscription "current_period_end") = inl e) ->
             handleSubscriptionRenewed env event w = (inl e, w)).
  { intros e H. unfold handleSubscriptionRenewed. unfold bind at 1.
    rewrite (subscription_of_present _ _ _ Hd Hs).
    unfold bind at 1. unfold lift at 1.
    destruct H as [H1 | (t & H1 & H2)]; rewrite H1; [reflexivity |].
    unfold bind at 1. unfold lift at 1. now rewrite H2. }
  split; [exact Hgen |].
  intros Hmiss. apply Hgen. left. now rewrite Hmiss.
Qed.

Lemma renewal_with_an_invalid_period_sends_nothing_witness :
  handleSubscriptionRenewed sample_env
    (subscription_event "subscription.renewed" [("id", JStr "sub_1")])
    world_after_activation
  = (inl (Throw RangeError "Invalid time value"), world_after_activation).
Proof.
  apply (renewal_with_an_invalid_period_sends_nothing sample_env
           (subscription_event "subscription.renewed" [("id", JStr "sub_1")])
           (JObj [("id", JStr "sub_1")]) world_after_activation);
    vm_compute; reflexivity.
Defined.

Lemma get_nullish (v : jsval) (k : string) :
  nullish v = true -> exists msg, get v k = inl (Throw TypeError msg).
Proof. destruct v; try discriminate; intros _; eexists; reflexivity. Qed.

Lemma reading_missing_object (event : jsval) (k : string) :
  nullish event = false -> lacks_object event ->
  exists msg,
    res_bind (data_object event) (fun o => get o k) = inl (Throw TypeError msg).
Proof.
  intros He H. unfold data_object. rewrite (get_of_defined _ "data" He). cbn [res_bind].
  destruct (nullish (get_opt event "data")) eqn:Hdata.
  - destruct (get_nullish _ "object" Hdata) as [msg Hm]. exists msg. now rewrite Hm.
  - destruct H as [H | H]; [congruence |].
    rewrite (get_of_defined _ "object" Hdata). cbn [res_bind].
    apply get_nullish, H.
Qed.

Lemma subscription_of_missing (event : jsval) (w : World) :
  nullish event = false -> lacks_object event ->
  exists msg, subscription_of event w = (inl (Throw TypeError msg), w).
Proof.
  intros He H. destruct (reading_missing_object event "id" He H) as [msg Hm].
  exists msg. unfold subscription_of, bind, lift.
  destruct (data_object event) as [e | o]; cbn [res_bind] in Hm.
  - now rewrite Hm.
  - now rewrite Hm.
Qed.

Lemma logged_id_missing (event : jsval) (w : World) :
  nullish event = false -> lacks_object event ->
  exists msg, logged_id event w = (inl (Throw TypeError msg), w).
Proof.
  intros He H. destruct (reading_missing_object event "id" He H) as [msg Hm].
  exists msg. unfold logged_id, lift. now rewrite Hm.
Qed.

Lemma payment_event_data_missing (event : jsval) :
  nullish event = false -> lacks_object event ->
  exists msg, payment_event_data event = inl (Throw TypeError msg).
Proof.
  intros He H.
  destruct (reading_missing_object event "payment_id" He H) as [msg Hm].
  unfold payment_event_data.
  rewrite (get_of_defined _ "type" He). cbn [res_bind].
  unfold data_object in Hm.
  destruct (get event "data") as [e | data]; cbn [res_bind] in Hm |- *;
    [exists msg; congruence |].
  destruct (get data "object") as [e | o]; cbn [res_bind] in Hm |- *;
    [exists msg; congruence |].
  unfold interpolated. destruct (to_string_throws _); cbn [res_bind].
  - eexists. reflexivity.
  - exists msg. now rewrite Hm.
Qed.

(** X8.  Every handler reads [event.data.object] first.  For an event of a
    handled type that has no [data], or whose [data] has no [object], the
    handler throws a [TypeError] before it does anything: no query is sent
    and the world is unchanged.  The log-only handlers for refunds, disputes
    and license keys are no exception. *)
Theorem handled_event_without_object_throws
  (env : Env) (type event : jsval) (w : World) :
  nullish event = false ->
  lacks_object event ->
  route type <> RUnhandled ->
  exists msg, dispatch env type event w = (inl (Throw TypeError msg), w).
Proof.
  intros He H Hroute.
  destruct (subscription_of_missing event w He H) as [m1 H1].
  destruct (logged_id_missing event w He H) as [m2 H2].
  destruct (payment_event_data_missing event He H) as [m3 H3].
  unfold dispatch.
  destruct (route type); try contradiction;
    unfold handleSubscriptionActive, handleSubscriptionOnHold, handleSubscriptionRenewed,
      handleSubscriptionPlanChanged, handleSubscriptionCancelled, handleSubscriptionFailed,
      handleSubscriptionExpired, handleRefundSucceeded, handleRefundFailed,
      handleDisputeEvent, handleLicenseKeyCreated, processPaymentWebhook;
    unfold bind at 1;
    try (rewrite H1; eexists; reflexivity);
    try (rewrite H2; eexists; reflexivity).
  - unfold try_catch, bind, lift. rewrite H3. eexists; reflexivity.
  - unfold lift at 1. rewrite (get_of_defined _ "type" He).
    unfold bind. rewrite H2. eexists; reflexivity.
Qed.

Lemma handled_event_without_object_throws_witness :
  exists msg,
    dispatch sample_env (JStr "refund.succeeded")
      (JObj [("id", JStr "evt_r"); ("type", JStr "refund.succeeded")]) sample_world
    = (inl (Throw TypeError msg), sample_world).
Proof.
  apply handled_event_without_object_throws.
  - reflexivity.
  - left. reflexivity.
  - discriminate.
Defined.

(** X9.  The handlers for refunds, disputes and license keys only log.  When
    the event has a [data.object], they return a message and leave the
    world as it is, trace included; a dispute's message names the event
    type. *)
Theorem console_handlers_change_nothing
  (env : Env) (type : string) (event object : jsval) (w : World) :
  console_route (route (JStr type)) = true ->
  get event "type" = inr (JStr type) ->
  data_object event = inr object ->
  nullish object = false ->
  exists msg,
    dispatch env (JStr type) event w = (inr (say msg), w)
    /\ (route (JStr type) = RDispute ->
        msg = ("Dispute " ++ type ++ " recorded")%string).
Proof.
  intros Hc Ht Hd Ho.
  assert (Hlog : logged_id event w = (inr (get_opt object "id"), w)).
  { unfold logged_id, lift. rewrite Hd. cbn [res_bind]. now rewrite (get_of_defined _ "id" Ho). }
  unfold dispatch.
  destruct (route (JStr type)); try discriminate;
    unfold handleRefundSucceeded, handleRefundFailed, handleDisputeEvent,
      handleLicenseKeyCreated.
  - unfold bind. rewrite Hlog. eexists. split; [reflexivity | discriminate].
  - unfold bind. rewrite Hlog. eexists. split; [reflexivity | discriminate].
  - unfold bind at 1. unfold lift at 1. rewrite Ht. unfold bind. rewrite Hlog.
    eexists. split; reflexivity.
  - unfold bind. rewrite Hlog. eexists. split; [reflexivity | discriminate].
Qed.

Lemma console_handlers_change_nothing_witness :
  dispatch sample_env (JStr "dispute.opened")
    (JObj [("id", JStr "evt_d"); ("type", JStr "dispute.opened");
           ("data", JObj [("object", JObj [("id", JStr "dp_1")])])]) sample_world
  = (inr (say "Dispute dispute.opened recorded"), sample_world).
Proof.
  destruct (console_handlers_change_nothing sample_env "dispute.opened"
              (JObj [("id", JStr "evt_d"); ("type", JStr "dispute.opened");
                     ("data", JObj [("object", JObj [("id", JStr "dp_1")])])])
              (JObj [("id", JStr "dp_1")]) sample_world
              eq_refl eq_refl eq_refl eq_refl) as (msg & Hrun & Hmsg).
  rewrite Hrun, (Hmsg eq_refl). reflexivity.
Defined.

(* ================================================================== *)
(** * Subscriptions are appended, never removed or re-keyed *)

Lemma keeps_subscriptions_of_writes {A : Type} (J : list Subscription -> Prop)
  (ts : list Table) (m : M A) :
  writes_only ts m -> ~ In TSubscriptions ts ->
  keeps (fun w => J (subscriptions w)) m.
Proof.
  intros Hw Hs w r w' E H. apply Hw in E as (_ & Es & _). now rewrite (Es Hs).
Qed.

Lemma keeps_identity_updateSubscription (env : Env) (key : jsval)
  (u : SubscriptionUpdates) (c : list (uuid * jsval * uuid * uuid * jsval * jsval)) :
  keeps (fun w => map sub_identity (subscriptions w) = c) (updateSubscription env key u).
Proof.
  unfold updateSubscription. apply keeps_bind.
  - apply keeps_query; [now intros w |].
    intros w r w'. unfold update_subscriptions.
    destruct (single _); [now intros [= _ <-] |].
    destruct (jsval_eqb _ _); [now intros [= _ <-] |].
    intros [= _ <-] <-. cbn [subscriptions set_subscriptions].
    rewrite map_map. apply map_ext.
    intros x. now destruct (subscription_matches key x).
  - intros [e | x]; first [apply keeps_ret | apply keeps_throw].
Qed.

Ltac keeps_identity :=
  repeat first
    [ apply keeps_identity_updateSubscription
    | apply (keeps_subscriptions_of_writes _ _ _ (writes_getCustomerByDodoId _ _)); no_table
    | apply keeps_ret
    | apply keeps_throw
    | apply keeps_lift
    | apply keeps_bind; [| intros]
    | apply keeps_try_catch; [| intros]
    | keeps_case ].

Lemma keeps_identity_dispatch (env : Env) (type event : jsval)
  (c : list (uuid * jsval * uuid * uuid * jsval * jsval)) :
  route type <> RSubscriptionActive ->
  keeps (fun w => map sub_identity (subscriptions w) = c) (dispatch env type event).
Proof.
  intros Hroute. unfold dispatch.
  destruct (route type); try contradiction;
    try (apply keeps_bind; [| intros; apply keeps_ret];
         apply (keeps_subscriptions_of_writes
                  (fun l => map sub_identity l = c) _ _
                  (writes_processPaymentWebhook env event));
         no_table);
    unfold handleSubscriptionOnHold, handleSubscriptionRenewed,
      handleSubscriptionPlanChanged, handleSubscriptionCancelled,
      handleSubscriptionFailed, handleSubscriptionExpired, handleRefundSucceeded,
      handleRefundFailed, handleDisputeEvent, handleLicenseKeyCreated,
      subscription_of, logged_id;
    keeps_identity.
Qed.

(** [saveSubscription] appends one row, or none. *)
Lemma saveSubscription_appends (env : Env) (row : Subscription) (w : World)
  (r : res Subscription) (w' : World) :
  saveSubscription env row w = (r, w') ->
  exists extra,
    subscriptions w' = subscriptions w ++ extra /\ (List.length extra <= 1)%nat.
Proof.
  assert (Hnone : forall w0 : World, subscriptions w0 = subscriptions w ->
             exists extra,
               subscriptions w0 = subscriptions w ++ extra
               /\ (List.length extra <= 1)%nat)
    by (intros w0 ->; exists []; rewrite app_nil_r; split; [reflexivity | cbn; lia]).
  unfold saveSubscription, bind, query.
  destruct (db_error env _); [intros [= _ <-]; now apply Hnone |].
  destruct (insert_subscription row (log_call _ w)) as [[e | stored] w1] eqn:Hins.
  - intros [= _ <-]. apply Hnone. revert Hins. unfold insert_subscription.
    repeat match goal with |- context [if ?b then _ else _] => destruct b end;
      now intros [= _ <-].
  - intros [= _ <-]. revert Hins. unfold insert_subscription.
    repeat match goal with |- context [if ?b then _ else _] => destruct b end;
      try discriminate;
      intros [= _ <-]; cbn; eexists [_]; (split; [reflexivity | cbn; lia]).
Qed.

Lemma handleSubscriptionActive_appends (env : Env) (event : jsval) (w : World)
  (r : res HandlerResult) (w' : World) :
  handleSubscriptionActive env event w = (r, w') ->
  exists extra,
    subscriptions w' = subscriptions w ++ extra /\ (List.length extra <= 1)%nat.
Proof.
  assert (Hnone : forall w0, exists extra,
             subscriptions w0 = subscriptions w0 ++ extra
             /\ (List.length extra <= 1)%nat)
    by (intros w0; exists []; rewrite app_nil_r; split; [reflexivity | cbn; lia]).
  unfold handleSubscriptionActive. unfold bind at 1.
  destruct (subscription_of event w) as [[e | subscription] w0] eqn:Hsub.
  - intros [= _ <-].
    pose proof (writes_only_bind [] _ _ (writes_only_lift [] (data_object event))
                  (fun s => writes_only_bind [] _ _ (writes_only_lift [] (get s "id"))
                              (fun _ => writes_only_ret [] s)) _ _ _ Hsub)
      as (_ & Hs & _).
    rewrite Hs by (cbn; tauto). apply Hnone.
  - assert (Hw0 : subscriptions w0 = subscriptions w).
    { pose proof (writes_only_bind [] _ _ (writes_only_lift [] (data_object event))
                    (fun s => writes_only_bind [] _ _ (writes_only_lift [] (get s "id"))
                                (fun _ => writes_only_ret [] s)) _ _ _ Hsub)
        as (_ & Hs & _).
      apply Hs. cbn; tauto. }
    rewrite <- Hw0. clear Hsub Hw0 w. unfold try_catch.
    unfold bind at 1.
    destruct (getCustomerByDodoId env _ w0) as [[e | customer] w1] eqn:Hc.
    + intros [= _ <-].
      apply writes_getCustomerByDodoId in Hc as (_ & Hs & _).
      rewrite Hs by (cbn; tauto). apply Hnone.
    + apply writes_getCustomerByDodoId in Hc as (_ & Hs & _).
      rewrite <- Hs by (cbn; tauto). clear Hs w0.
      destruct customer as [customer |]; [| intros [= _ <-]; apply Hnone].
      unfold bind at 1. unfold lift at 1.
      destruct (iso_of_seconds _ _); [intros [= _ <-]; apply Hnone |].
      unfold bind at 1. unfold lift at 1.
      destruct (iso_of_seconds _ _); [intros [= _ <-]; apply Hnone |].
      unfold bind at 1.
      match goal with
      | |- context [saveSubscription env ?row w1] =>
          destruct (saveSubscription env row w1) as [[e | saved] w2] eqn:Hsave
      end.
      * intros [= _ <-]. eapply saveSubscription_appends; eauto.
      * intros [= _ <-]. eapply saveSubscription_appends; eauto.
Qed.

(** X10.  No delivery removes or re-keys a subscription.  Across any call of
    [handleWebhook], the rows of [subscriptions] keep their key, provider
    id, user, customer, product and price, in the same order; at most one
    row is appended, and none unless the event is a [subscription.active]
    one. *)
Theorem subscriptions_are_only_appended
  (cfg : Config) (env : Env) (body : string) (signature : option string) (w : World) :
  exists extra,
    map sub_identity (subscriptions (snd (handleWebhook cfg env body signature w)))
    = map sub_identity (subscriptions w) ++ extra
    /\ (List.length extra <= 1)%nat
    /\ (route_of_body body <> RSubscriptionActive -> extra = []).
Proof.
  assert (Hnone : forall w0, subscriptions w0 = subscriptions w ->
             exists extra,
               map sub_identity (subscriptions w0)
               = map sub_identity (subscriptions w) ++ extra
               /\ (List.length extra <= 1)%nat
               /\ (route_of_body body <> RSubscriptionActive -> extra = [])).
  { intros w0 ->. exists []. rewrite app_nil_r. repeat split. cbn; lia. }
  destruct (handleWebhook_world cfg env body signature w) as [r Hrun].
  revert Hrun. generalize (snd (handleWebhook cfg env body signature w)). intros w'.
  unfold handleWebhook_try, process, route_of_body in *.
  destruct (rejected _ _ _); [intros [= _ <-]; now apply Hnone |].
  unfold bind at 1. unfold lift at 1.
  destruct (Json.parse body) as [e | event]; [intros [= _ <-]; now apply Hnone |].
  unfold bind at 1. unfold lift at 1.
  destruct (get event "type") as [e | type]; [intros [= _ <-]; now apply Hnone |].
  unfold bind at 1.
  destruct (logPaymentEvent env type event _ w) as [[e | eventLog] w1] eqn:Hlog;
    apply writes_logPaymentEvent in Hlog as (_ & Hs1 & _);
    specialize (Hs1 ltac:(no_table)).
  { intros [= _ <-]. now apply Hnone. }
  unfold bind at 1.
  destruct (dispatch env type event w1) as [rd w2] eqn:Hdisp.
  assert (Hstep : exists extra,
             map sub_identity (subscriptions w2)
             = map sub_identity (subscriptions w) ++ extra
             /\ (List.length extra <= 1)%nat
             /\ (route type <> RSubscriptionActive -> extra = [])).
  { destruct (route type) eqn:Hroute;
      try (exists []; rewrite app_nil_r; repeat split; [| cbn; lia];
           rewrite <- Hs1;
           eapply (keeps_identity_dispatch env type event _); eauto;
           rewrite Hroute; discriminate).
    unfold dispatch in Hdisp. rewrite Hroute in Hdisp.
    apply handleSubscriptionActive_appends in Hdisp as (extra & He & Hlen).
    exists (map sub_identity extra).
    rewrite He, Hs1, map_app, length_map. repeat split; [exact Hlen |].
    intros Hne. contradiction. }
  destruct rd as [e | result]; [intros [= _ <-]; exact Hstep |].
  unfold bind at 1.
  destruct (markEventProcessed env _ w2) as [rm w3] eqn:Hmark.
  apply writes_markEventProcessed in Hmark as (_ & Hs3 & _).
  specialize (Hs3 ltac:(no_table)).
  destruct rm; intros [= _ <-]; rewrite Hs3; exact Hstep.
Qed.

(* ================================================================== *)
(** * What the answer says about the run *)

Lemma yields_ret {A : Type} (P : A -> Prop) (a : A) : P a -> yields P (ret a).
Proof. now intros Ha w x w' [= <- _]. Qed.

Lemma yields_throw {A : Type} (P : A -> Prop) (e : exn) : yields P (@throw A e).
Proof. intros w x w'. discriminate. Qed.

Lemma yields_bind {A B : Type} (P : B -> Prop) (m : M A) (k : A -> M B) :
  (forall x, yields P (k x)) -> yields P (bind m k).
Proof.
  intros Hk w b w'. unfold bind.
  destruct (m w) as [[e | x] w1]; [discriminate |]. apply Hk.
Qed.

Lemma yields_try_catch {A : Type} (P : A -> Prop) (m : M A) (h : exn -> M A) :
  yields P m -> (forall e, yields P (h e)) -> yields P (try_catch m h).
Proof.
  intros Hm Hh w a w'. unfold try_catch.
  destruct (m w) as [[e | x] w1] eqn:E.
  - apply Hh.
  - intros [= <- _]. eapply Hm; eauto.
Qed.

Ltac yields_tac :=
  repeat first
    [ apply yields_ret; unfold keeps_success; cbn; discriminate
    | apply yields_throw
    | apply yields_bind; intros
    | apply yields_try_catch; [| intros]
    | match goal with
      | |- yields _ (match ?x with _ => _ end) => destruct x
      end ].

(** No handler returns [success: false]: a handler that fails throws. *)
Lemma dispatch_keeps_success (env : Env) (type event : jsval) :
  yields keeps_success (dispatch env type event).
Proof.
  unfold dispatch.
  destruct (route type);
    unfold handleSubscriptionActive, handleSubscriptionOnHold, handleSubscriptionRenewed,
      handleSubscriptionPlanChanged, handleSubscriptionCancelled,
      handleSubscriptionFailed, handleSubscriptionExpired, handleRefundSucceeded,
      handleRefundFailed, handleDisputeEvent, handleLicenseKeyCreated;
    yields_tac.
Qed.

Lemma spread_success (result : HandlerResult) :
  keeps_success result -> success (spread result) = true /\ error (spread result) = None.
Proof.
  unfold keeps_success, spread. cbn.
  destruct (hr_success result) as [[|] |]; intros H; split; congruence.
Qed.

(** A successful [markEventProcessed] has stamped every row with that id. *)
Lemma markEventProcessed_marks (env : Env) (row : PaymentEvent) (w : World)
  (data : PaymentEvent) (w' : World) :
  markEventProcessed env (ev_id row) w = (inr data, w') ->
  In row (payment_events w) ->
  In (mark_processed (now env) row) (payment_events w')
  /\ trace w' = trace w ++ [mark_update].
Proof.
  unfold markEventProcessed, bind, query, update_event.
  destruct (db_error env _); [discriminate |].
  cbn [payment_events log_call].
  destruct (single (filter _ (payment_events w))); [discriminate |].
  destruct (single _); [discriminate |].
  intros [= _ <-] Hin. cbn. split; [| reflexivity].
  apply in_map_iff. exists row. now rewrite Nat.eqb_refl.
Qed.

(** What a result returned by the [try] block tells about the world. *)
Lemma handleWebhook_try_outcome (cfg : Config) (env : Env) (body : string)
  (signature : option string) (w : World) (result : WebhookResult) (w' : World) :
  handleWebhook_try cfg env body signature w = (inr result, w') ->
  (success result = false /\ (exists msg, error result = Some msg)
   /\ message result = None)
  \/ (success result = true /\ error result = None
      /\ rejected cfg body signature = false
      /\ exists event type id calls,
           Json.parse body = inr event
           /\ get event "type" = inr type
           /\ In (mark_processed (now env) (received_row id type event))
                 (payment_events w')
           /\ trace w' = trace w ++ log_insert :: calls ++ [mark_update]).
Proof.
  unfold handleWebhook_try.
  destruct (rejected cfg body signature) eqn:Hr;
    [intros [= <- _]; left; cbn; repeat split; eauto |].
  unfold process. unfold bind at 1. unfold lift at 1.
  destruct (Json.parse body) as [e | event] eqn:Hp; [discriminate |].
  unfold bind at 1. unfold lift at 1.
  destruct (get event "type") as [e | type] eqn:Ht; [discriminate |].
  unfold bind at 1.
  destruct (logPaymentEvent env type event _ w) as [[e | eventLog] w1] eqn:Hlog;
    [discriminate |].
  apply logPaymentEvent_inv in Hlog as (Ht1 & -> & He1 & _).
  unfold bind at 1.
  destruct (dispatch env type event w1) as [[e | handled] w2] eqn:Hd; [discriminate |].
  pose proof (dispatch_keeps_success _ _ _ _ _ _ Hd) as Hres.
  apply within_dispatch in Hd as (calls & rows & Ht2 & He2 & _).
  unfold bind at 1.
  destruct (markEventProcessed env _ w2) as [[e | data] w3] eqn:Hm; [discriminate |].
  intros [= <- <-]. right.
  destruct (spread_success _ Hres) as [Hs He].
  split; [exact Hs |]. split; [exact He |]. split; [reflexivity |].
  exists event, type, (next_id w), calls.
  split; [reflexivity |]. split; [exact Ht |].
  apply (markEventProcessed_marks env (received_row (next_id w) type event)) in Hm
    as [Hin Ht3].
  - split; [exact Hin |]. rewrite Ht3, Ht2, Ht1, <- !app_assoc. reflexivity.
  - rewrite He2, He1. apply in_or_app. left. apply in_or_app. right. now left.
Qed.

(** The two shapes of the answer of [handleWebhook]. *)
Lemma handleWebhook_outcome (cfg : Config) (env : Env) (body : string)
  (signature : option string) (w : World) :
  let result := fst (handleWebhook cfg env body signature w) in
  let w' := snd (handleWebhook cfg env body signature w) in
  (success result = false /\ (exists msg, error result = Some msg)
   /\ message result = None)
  \/ (success result = true /\ error result = None
      /\ rejected cfg body signature = false
      /\ exists event type id calls,
           Json.parse body = inr event
           /\ get event "type" = inr type
           /\ In (mark_processed (now env) (received_row id type event))
                 (payment_events w')
           /\ trace w' = trace w ++ log_insert :: calls ++ [mark_update]).
Proof.
  cbv zeta. unfold handleWebhook.
  destruct (handleWebhook_try cfg env body signature w) as [[e | result] w'] eqn:Hrun.
  - left. cbn. repeat split; eauto.
  - cbn [fst snd]. exact (handleWebhook_try_outcome _ _ _ _ _ _ _ Hrun).
Qed.

(** X11.  The answer has an error exactly when it is a failure.  Every call
    of [handleWebhook] answers either [success: true] without an [error],
    or [success: false] with an [error] message and no [message]: no
    handler can turn a completed run into a failure. *)
Theorem answer_has_an_error_exactly_on_failure
  (cfg : Config) (env : Env) (body : string) (signature : option string) (w : World) :
  let result := fst (handleWebhook cfg env body signature w) in
  (success result = true /\ error result = None)
  \/ (success result = false /\ (exists msg, error result = Some msg)
      /\ message result = None).
Proof.
  destruct (handleWebhook_outcome cfg env body signature w)
    as [Hfail | (Hs & He & _)]; cbv zeta; [right | left]; tauto.
Qed.

(** X12.  A successful answer means the event is stored and marked.  When
    [handleWebhook] answers [success: true], the body was valid JSON, the
    event log holds the row of this event with [processed = true] and
    [processed_at] set, the first database call of the run was the insert
    of [logPaymentEvent] and the last one the update of
    [markEventProcessed]. *)
Theorem success_means_logged_and_marked
  (cfg : Config) (env : Env) (body : string) (signature : option string) (w : World) :
  success (fst (handleWebhook cfg env body signature w)) = true ->
  exists event row calls,
    Json.parse body = inr event
    /\ In row (payment_events (snd (handleWebhook cfg env body signature w)))
    /\ ev_event_data row = event
    /\ ev_processed row = true
    /\ ev_processed_at row = Some (now env)
    /\ trace (snd (handleWebhook cfg env body signature w))
       = trace w ++ log_insert :: calls ++ [mark_update].
Proof.
  intros Hs.
  destruct (handleWebhook_outcome cfg env body signature w)
    as [(Hf & _) | (_ & _ & _ & event & type & id & calls & Hp & _ & Hin & Ht)];
    cbv zeta in *; [congruence |].
  exists event, (mark_processed (now env) (received_row id type event)), calls.
  repeat split; assumption.
Qed.

Lemma success_means_logged_and_marked_witness :
  success (fst (handleWebhook sample_config sample_env body_payment_pending None
                  sample_world)) = true
  /\ exists event row calls,
       Json.parse body_payment_pending = inr event
       /\ In row (payment_events
                    (snd (handleWebhook sample_config sample_env body_payment_pending None
                            sample_world)))
       /\ ev_event_data row = event
       /\ ev_processed row = true
       /\ ev_processed_at row = Some (now sample_env)
       /\ trace (snd (handleWebhook sample_config sample_env body_payment_pending None
                        sample_world))
          = trace sample_world ++ log_insert :: calls ++ [mark_update].
Proof.
  assert (Hs : success (fst (handleWebhook sample_config sample_env body_payment_pending None
                               sample_world)) = true)
    by (vm_compute; reflexivity).
  split; [exact Hs |].
  exact (success_means_logged_and_marked sample_config sample_env body_payment_pending None
           sample_world Hs).
Defined.

(* ================================================================== *)
(** * Signatures that are not checked *)

(** X13.  Without a configured secret every signature is accepted.  When
    [config.dodo.webhookSecret] is missing or empty, [handleWebhook]
    treats a call with any signature as it treats the call without one. *)
Theorem no_secret_accepts_any_signature
  (cfg : Config) (env : Env) (body : string) (signature : option string) (w : World) :
  webhookSecret cfg = None \/ webhookSecret cfg = Some "" ->
  rejected cfg body signature = false
  /\ handleWebhook cfg env body signature w = handleWebhook cfg env body None w.
Proof.
  intros Hsecret.
  assert (Hr : rejected cfg body signature = false).
  { unfold rejected, verifyWebhookSignature.
    destruct signature as [s |]; [| reflexivity].
    destruct (s =? "")%string; [reflexivity |].
    destruct Hsecret as [-> | ->]; reflexivity. }
  split; [exact Hr |].
  unfold handleWebhook, handleWebhook_try. now rewrite Hr.
Qed.

Lemma no_secret_accepts_any_signature_witness :
  rejected {| webhookSecret := Some "" |} body_payment_pending (Some "sha256=00") = false
  /\ handleWebhook {| webhookSecret := Some "" |} sample_env body_payment_pending
       (Some "sha256=00") sample_world
     = handleWebhook {| webhookSecret := Some "" |} sample_env body_payment_pending None
         sample_world.
Proof.
  apply (no_secret_accepts_any_signature {| webhookSecret := Some "" |}).
  right. reflexivity.
Defined.

(* ================================================================== *)
(** * The HTTP endpoint *)

Lemma or_undefined_blank (a b : option string) :
  blank a -> blank b -> or_undefined (header_or a b) = None.
Proof. intros [-> | ->] [-> | ->]; reflexivity. Qed.

(** X14.  The status code classifies the request.  The endpoint answers
    405, 500, 200 or 400 and nothing else: 405 exactly for a method other
    than POST, 500 exactly when the body of a POST cannot be read, and in
    both cases nothing is touched; otherwise the body is the result of
    [handleWebhook], with 200 exactly when that result is a success, so
    that an error inside [handleWebhook] is a 400 and never a 500. *)
Theorem status_code_classifies_the_request
  (cfg : Config) (env : Env) (req : Request) (w : World) :
  let resp := fst (serve cfg env req w) in
  let w' := snd (serve cfg env req w) in
  (resp_status resp = 405 /\ req_method req <> "POST" /\ w' = w
   /\ resp_body resp = TextBody "Method not allowed")
  \/ (resp_status resp = 500 /\ req_method req = "POST" /\ w' = w
      /\ exists e, req_text req = inl e
           /\ resp_body resp
              = JsonBody {| success := false; error := Some (exn_message e);
                            message := None |})
  \/ (req_method req = "POST"
      /\ exists body signature result,
           req_text req = inr body
           /\ handleWebhook cfg env body signature w = (result, w')
           /\ resp_body resp = JsonBody result
           /\ ((resp_status resp = 200 /\ success result = true /\ error result = None)
               \/ (resp_status resp = 400 /\ success result = false
                   /\ exists msg, error result = Some msg))).
Proof.
  cbv zeta. unfold serve.
  destruct (req_method req =? "POST")%string eqn:Hm; cbn [negb].
  - apply String.eqb_eq in Hm.
    destruct (req_text req) as [e | body] eqn:Hb.
    + right. left. cbn. repeat split; eauto.
    + right. right. split; [exact Hm |].
      set (signature := or_undefined _).
      pose proof (handleWebhook_outcome cfg env body signature w) as Hout.
      cbv zeta in Hout.
      destruct (handleWebhook cfg env body signature w) as [result w1] eqn:Hrun.
      exists body, signature, result. cbn in *.
      split; [reflexivity |]. split; [exact Hrun |]. split; [reflexivity |].
      destruct Hout as [(Hs & He & _) | (Hs & He & _)]; rewrite Hs; tauto.
  - apply String.eqb_neq in Hm. left. cbn. repeat split; assumption.
Qed.

(** X15.  A 200 means the event is stored and marked.  When the endpoint
    answers 200, the request was a POST whose body is valid JSON, and the
    event log holds the row of this event with [processed = true]. *)
Theorem status_200_means_logged_and_marked
  (cfg : Config) (env : Env) (req : Request) (w : World) :
  resp_status (fst (serve cfg env req w)) = 200 ->
  req_method req = "POST"
  /\ exists body event row,
       req_text req = inr body
       /\ Json.parse body = inr event
       /\ In row (payment_events (snd (serve cfg env req w)))
       /\ ev_event_data row = event
       /\ ev_processed row = true.
Proof.
  unfold serve.
  destruct (req_method req =? "POST")%string eqn:Hm; cbn [negb]; [| discriminate].
  apply String.eqb_eq in Hm.
  destruct (req_text req) as [e | body] eqn:Hb; [discriminate |].
  set (signature := or_undefined _).
  pose proof (handleWebhook_outcome cfg env body signature w) as Hout.
  cbv zeta in Hout.
  destruct (handleWebhook cfg env body signature w) as [result w1] eqn:Hrun.
  cbn in *.
  destruct Hout as [(Hs & _) | (_ & _ & _ & event & type & id & calls & Hp & _ & Hin & _)].
  - rewrite Hs. discriminate.
  - intros _. split; [exact Hm |].
    exists body, event, (mark_processed (now env) (received_row id type event)).
    repeat split; assumption.
Qed.

Lemma status_200_means_logged_and_marked_witness :
  resp_status (fst (serve sample_config sample_env (post no_headers body_payment_pending)
                      sample_world)) = 200
  /\ req_method (post no_headers body_payment_pending) = "POST"
  /\ exists body event row,
       req_text (post no_headers body_payment_pending) = inr body
       /\ Json.parse body = inr event
       /\ In row (payment_events
                    (snd (serve sample_config sample_env (post no_headers body_payment_pending)
                            sample_world)))
       /\ ev_event_data row = event
       /\ ev_processed row = true.
Proof.
  assert (Hs : resp_status (fst (serve sample_config sample_env
                                   (post no_headers body_payment_pending)
                                   sample_world)) = 200)
    by (vm_compute; reflexivity).
  split; [exact Hs |].
  exact (status_200_means_logged_and_marked sample_config sample_env
           (post no_headers body_payment_pending) sample_world Hs).
Defined.

(** X16.  A request without a signature header is not verified.  When both
    [dodo-signature] and [x-dodo-signature] are missing or empty, the
    endpoint answers and acts the same whatever secret is configured: the
    request is processed as if it were signed. *)
Theorem unsigned_request_ignores_the_secret
  (cfg cfg' : Config) (env : Env) (req : Request) (w : World) :
  blank (req_header req "dodo-signature") ->
  blank (req_header req "x-dodo-signature") ->
  serve cfg env req w = serve cfg' env req w.
Proof.
  intros Ha Hb. unfold serve.
  destruct (negb _); [reflexivity |].
  destruct (req_text req) as [e | body]; [reflexivity |].
  now rewrite (or_undefined_blank _ _ Ha Hb).
Qed.

Lemma unsigned_request_ignores_the_secret_witness :
  blank (req_header (post no_headers body_payment_pending) "dodo-signature")
  /\ blank (req_header (post no_headers body_payment_pending) "x-dodo-signature")
  /\ serve sample_config sample_env (post no_headers body_payment_pending) sample_world
     = serve {| webhookSecret := None |} sample_env (post no_headers body_payment_pending)
         sample_world.
Proof.
  split; [left; reflexivity |]. split; [left; reflexivity |].
  apply (unsigned_request_ignores_the_secret sample_config {| webhookSecret := None |});
    left; reflexivity.
Defined.

(* ================================================================== *)
(** * The payment table *)

Lemma map_fixed {A : Type} (p : A -> bool) (f : A -> A) (l : list A) :
  (forall x, In x (filter p l) -> f x = x) ->
  map (fun x => if p x then f x else x) l = l.
Proof.
  induction l as [| x r IH]; [reflexivity |]. cbn.
  destruct (p x) eqn:E; intros H; f_equal.
  - apply H. now left.
  - apply IH. intros y Hy. apply H. now right.
  - apply IH. exact H.
Qed.

Lemma payment_matches_set_status (key status : jsval) (t : Z) (p : Payment) :
  payment_matches key (set_status status t p) = payment_matches key p.
Proof. reflexivity. Qed.

Lemma filter_nil_others {A : Type} (p : A -> bool) (l : list A) :
  filter p l = [] -> filter (fun x => negb (p x)) l = l.
Proof.
  induction l as [| x r IH]; [reflexivity |]. cbn.
  destruct (p x); [discriminate |]. cbn. intros H. now rewrite IH.
Qed.

(** A successful [updatePaymentStatus], with the database reachable: the
    payment has one row afterwards, created with the least that is known
    or rewritten in place; the rows of other payments are not touched. *)
Lemma updatePaymentStatus_effect (env : Env) (key status : jsval) (w : World) :
  reachable env ->
  nullish key = false -> nullish status = false ->
  unique_payment key w ->
  exists p w',
    updatePaymentStatus env key status w = (inr p, w')
    /\ filter (payment_matches key) (payments w') = [p]
    /\ pay_status p = status /\ pay_updated_at p = now env
    /\ other_payments key w' = other_payments key w
    /\ (filter (payment_matches key) (payments w) = [] ->
        payments w' = payments w ++ [p] /\ pay_amount p = 0
        /\ pay_currency p = "USD"%string /\ pay_id p = next_id w)
    /\ (forall p0, filter (payment_matches key) (payments w) = [p0] ->
        p = set_status status (now env) p0
        /\ payments w'
           = map (fun q => if payment_matches key q
                           then set_status status (now env) q else q) (payments w))
    /\ payment_events w' = payment_events w
    /\ customers w' = customers w
    /\ subscriptions w' = subscriptions w
    /\ exists c, trace w' = trace w ++ [payment_select; c].
Proof.
  intros Hdb Hk Hs Hu.
  unfold updatePaymentStatus, bind, query. rewrite Hdb. cbn [payments log_call].
  unfold unique_payment in Hu. unfold other_payments.
  destruct (filter (payment_matches key) (payments w)) as [| p0 [| p1 r]] eqn:Hf;
    cbn [single]; [| | cbn in Hu; lia].
  - cbn [err_code not_found String.eqb Ascii.eqb Bool.eqb].
    rewrite Hdb. unfold insert_payment, is_null. rewrite Hk, Hs.
    cbn [payments log_call]. rewrite (filter_nil_existsb _ _ Hf).
    do 2 eexists. split; [reflexivity |].
    cbn [payments set_payments payment_events customers subscriptions trace log_call
         pay_status pay_updated_at pay_amount pay_currency pay_id].
    rewrite !filter_app, Hf. cbn [filter app next_id log_call].
    assert (Hself : forall q, pay_dodo_payment_id q = key -> payment_matches key q = true)
      by (intros q <-; apply jsval_eqb_refl).
    rewrite Hself by reflexivity. cbn [negb].
    split; [reflexivity |]. split; [reflexivity |]. split; [reflexivity |].
    split; [now rewrite app_nil_r |]. split; [intros _; repeat split |].
    split; [discriminate |].
    repeat split. eexists. now rewrite <- app_assoc.
  - rewrite Hdb. unfold update_payment. cbn [payments log_call].
    rewrite Hf. cbn [single].
    rewrite (nullish_not_null _ Hs), (change_status_sent _ _ Hs).
    rewrite (filter_map_matching _ _ _ (payment_matches_set_status key status (now env))).
    rewrite Hf. cbn [map single].
    do 2 eexists. split; [reflexivity |].
    cbn [payments set_payments payment_events customers subscriptions trace log_call
         pay_status pay_updated_at set_status].
    rewrite (filter_map_matching _ _ _ (payment_matches_set_status key status (now env))).
    rewrite (filter_map_others _ _ _ (payment_matches_set_status key status (now env))).
    rewrite Hf. cbn [map].
    split; [reflexivity |]. split; [reflexivity |]. split; [reflexivity |].
    split; [reflexivity |]. split; [discriminate |].
    split; [now intros q [= <-] |].
    repeat split. eexists. now rewrite <- app_assoc.
Qed.

(** X17.  The payment status is an upsert, and idempotent.  With the
    database reachable and at most one stored row for the payment,
    [updatePaymentStatus] leaves exactly one row for it, carrying the new
    status, and touches no row of another payment; a row it creates has
    amount 0 and currency USD, a row it finds keeps everything but status
    and [updated_at]; and a second call with the same status at the same
    time returns the same row and leaves the table as it is. *)
Theorem payment_status_upsert_is_idempotent
  (env : Env) (key status : jsval) (w : World) :
  reachable env ->
  nullish key = false -> nullish status = false ->
  unique_payment key w ->
  exists p w1 w2,
    updatePaymentStatus env key status w = (inr p, w1)
    /\ filter (payment_matches key) (payments w1) = [p]
    /\ pay_status p = status
    /\ other_payments key w1 = other_payments key w
    /\ (filter (payment_matches key) (payments w) = [] ->
        payments w1 = payments w ++ [p] /\ pay_amount p = 0
        /\ pay_currency p = "USD"%string)
    /\ (forall p0, filter (payment_matches key) (payments w) = [p0] ->
        p = set_status status (now env) p0)
    /\ updatePaymentStatus env key status w1 = (inr p, w2)
    /\ payments w2 = payments w1.
Proof.
  intros Hdb Hk Hs Hu.
  destruct (updatePaymentStatus_effect env key status w Hdb Hk Hs Hu)
    as (p & w1 & Hrun & Hf & Hst & Hat & Ho & Hnew & Hold & _).
  assert (Hu1 : unique_payment key w1)
    by (unfold unique_payment; rewrite Hf; cbn; lia).
  destruct (updatePaymentStatus_effect env key status w1 Hdb Hk Hs Hu1)
    as (p' & w2 & Hrun2 & _ & _ & _ & _ & _ & Hold2 & _).
  destruct (Hold2 p Hf) as [Hp' Hrows].
  assert (Hfix : set_status status (now env) p = p)
    by (destruct p; cbn in *; subst; reflexivity).
  exists p, w1, w2.
  split; [exact Hrun |]. split; [exact Hf |]. split; [exact Hst |].
  split; [exact Ho |].
  split; [intros Hnone; destruct (Hnew Hnone) as (H1 & H2 & H3 & _); auto |].
  split; [intros p0 Hp0; apply (Hold p0 Hp0) |].
  split; [rewrite Hrun2, Hp', Hfix; reflexivity |].
  rewrite Hrows. apply map_fixed.
  intros x Hx. rewrite Hf in Hx. destruct Hx as [<- | []]. exact Hfix.
Qed.

Lemma payment_status_upsert_is_idempotent_witness :
  exists p w1 w2,
    updatePaymentStatus sample_env (JStr "pay_1") (JStr "pending") sample_world
    = (inr p, w1)
    /\ filter (payment_matches (JStr "pay_1")) (payments w1) = [p]
    /\ pay_status p = JStr "pending"
    /\ other_payments (JStr "pay_1") w1 = other_payments (JStr "pay_1") sample_world
    /\ (filter (payment_matches (JStr "pay_1")) (payments sample_world) = [] ->
        payments w1 = payments sample_world ++ [p] /\ pay_amount p = 0
        /\ pay_currency p = "USD"%string)
    /\ (forall p0,
          filter (payment_matches (JStr "pay_1")) (payments sample_world) = [p0] ->
          p = set_status (JStr "pending") (now sample_env) p0)
    /\ updatePaymentStatus sample_env (JStr "pay_1") (JStr "pending") w1 = (inr p, w2)
    /\ payments w2 = payments w1.
Proof.
  apply (payment_status_upsert_is_idempotent sample_env (JStr "pay_1") (JStr "pending")
           sample_world).
  - intros n. reflexivity.
  - reflexivity.
  - reflexivity.
  - unfold unique_payment. cbn. lia.
Defined.

(* ================================================================== *)
(** * What the payment processor records *)

Lemma lookup_sent (k : string) (fs : list (string * jsval)) :
  lookup k (sent fs) = lookup k fs.
Proof.
  induction fs as [| [k' v] r IH]; [reflexivity |].
  destruct v; cbn; rewrite ?IH; try reflexivity.
  destruct (lookup k r); try reflexivity. now destruct (k =? k')%string.
Qed.

Lemma audit_status (a : PaymentEventArgs) :
  get_opt (audit_data a) "status" = arg_status a.
Proof.
  unfold audit_data, get_opt. rewrite lookup_sent. cbn. now destruct (arg_status a).
Qed.

Lemma audit_amount (a : PaymentEventArgs) :
  get_opt (audit_data a) "amount" = arg_amount a.
Proof.
  unfold audit_data, get_opt. rewrite lookup_sent. cbn. now destruct (arg_amount a).
Qed.

Lemma audit_currency (a : PaymentEventArgs) :
  get_opt (audit_data a) "currency" = arg_currency a.
Proof.
  unfold audit_data, get_opt. rewrite lookup_sent. cbn. now destruct (arg_currency a).
Qed.

Lemma savePaymentEvent_effect (env : Env) (a : PaymentEventArgs) (w : World) :
  reachable env ->
  nullish (arg_event_type a) = false ->
  exists w',
    savePaymentEvent env a w = (inr (audit_row (next_id w) a), w')
    /\ payment_events w' = payment_events w ++ [audit_row (next_id w) a]
    /\ payments w' = payments w
    /\ trace w' = trace w ++ [audit_insert].
Proof.
  intros Hdb Ht. unfold savePaymentEvent, bind, query, insert_event, is_null.
  rewrite Hdb. cbn. rewrite Ht. eexists. repeat split.
Qed.

(** X18.  A pending or cancelled payment is stored with the status of the
    event type.  For [payment.pending] and [payment.cancelled] the
    processor ignores the [status] of the payment object: with the database
    reachable and a payment id that is a string, the payment's one row ends
    with the status [pending] or [cancelled], the rows of other payments
    are untouched, and one audit row, already [processed], is appended to
    the event log with the event type and that same status. *)
Theorem pending_and_cancelled_force_the_status
  (env : Env) (event : jsval) (t id : string) (d : PaymentEventData) (w : World) :
  reachable env ->
  payment_event_data event = inr (JStr t, d) ->
  t = "payment.pending"%string \/ t = "payment.cancelled"%string ->
  payment_id d = JStr id ->
  unique_payment (JStr id) w ->
  exists p row w',
    processPaymentWebhook env event w = (inr tt, w')
    /\ filter (payment_matches (JStr id)) (payments w') = [p]
    /\ pay_status p = JStr (drop 8 t)
    /\ other_payments (JStr id) w' = other_payments (JStr id) w
    /\ payment_events w' = payment_events w ++ [row]
    /\ ev_event_type row = JStr t
    /\ get_opt (ev_event_data row) "status" = JStr (drop 8 t)
    /\ ev_processed row = true.
Proof.
  intros Hdb Hev Ht Hid Hu.
  assert (Hrun : processPaymentWebhook env event w
                 = handlePaymentStatusUpdate env (with_status (drop 8 t) d) w).
  { unfold processPaymentWebhook, try_catch, bind, lift. rewrite Hev.
    destruct Ht as [-> | ->]; cbn -[handlePaymentStatusUpdate];
      now destruct (handlePaymentStatusUpdate env _ w) as [[e | []] w1]. }
  rewrite Hrun. clear Hrun.
  unfold handlePaymentStatusUpdate, try_catch.
  cbn [payment_id status with_status]. rewrite Hid.
  unfold bind at 1. unfold lift at 1. cbn [interpolated to_string_throws].
  unfold bind at 1. unfold lift at 1. cbn [interpolated to_string_throws].
  unfold bind at 1.
  destruct (updatePaymentStatus_effect env (JStr id) (JStr (drop 8 t)) w
              Hdb eq_refl eq_refl Hu)
    as (p & w1 & -> & Hf & Hps & _ & Ho & _ & _ & He1 & _).
  match goal with
  | |- context [savePaymentEvent env ?a] =>
      destruct (savePaymentEvent_effect env a w1 Hdb eq_refl)
        as (w2 & Hsave & He2 & Hp2 & _);
      exists p, (audit_row (next_id w1) a), w2
  end.
  unfold bind. rewrite Hsave. cbn [ret].
  split; [reflexivity |].
  unfold other_payments. rewrite Hp2, He2, He1.
  split; [exact Hf |]. split; [exact Hps |]. split; [exact Ho |].
  split; [reflexivity |].
  cbn [audit_row ev_event_type ev_event_data ev_processed].
  rewrite audit_status. cbn [arg_status js_text].
  repeat split.
  destruct Ht as [-> | ->]; reflexivity.
Qed.

Lemma pending_and_cancelled_force_the_status_witness :
  exists p row w',
    processPaymentWebhook sample_env
      (JObj [("id", JStr "evt_9"); ("type", JStr "payment.pending");
             ("data", JObj [("object",
                JObj [("payment_id", JStr "pay_1"); ("status", JStr "requires_action");
                      ("amount", JNum 500 0); ("currency", JStr "USD")])])])
      sample_world
    = (inr tt, w')
    /\ filter (payment_matches (JStr "pay_1")) (payments w') = [p]
    /\ pay_status p = JStr (drop 8 "payment.pending")
    /\ other_payments (JStr "pay_1") w' = other_payments (JStr "pay_1") sample_world
    /\ payment_events w' = payment_events sample_world ++ [row]
    /\ ev_event_type row = JStr "payment.pending"
    /\ get_opt (ev_event_data row) "status" = JStr (drop 8 "payment.pending")
    /\ ev_processed row = true.
Proof.
  apply (pending_and_cancelled_force_the_status sample_env _ "payment.pending" "pay_1"
           sample_pending_payment sample_world).
  - intros n. reflexivity.
  - reflexivity.
  - left. reflexivity.
  - reflexivity.
  - unfold unique_payment. cbn. lia.
Defined.

(** X19.  A payment event without a [case] is only audited.  When the type
    of the event is a string that is none of the six the processor handles
    (of the types the webhook routes to it, that is [payment.processing]),
    the processor makes one database call, the insert of an audit row: the
    table [payments] is not read or written and the provider is not asked.
    The audit row carries the event's type and the object's status, or
    [unknown] when it has none. *)
Theorem payment_without_a_case_is_only_audited
  (env : Env) (event : jsval) (t : string) (d : PaymentEventData) (w : World) :
  payment_event_data event = inr (JStr t, d) ->
  has_processor_case (JStr t) = false ->
  db_error env (List.length (trace w)) = None ->
  exists row w',
    processPaymentWebhook env event w = (inr tt, w')
    /\ trace w' = trace w ++ [audit_insert]
    /\ payments w' = payments w
    /\ payment_events w' = payment_events w ++ [row]
    /\ ev_event_type row = JStr t
    /\ get_opt (ev_event_data row) "status" = js_or (status d) (JStr "unknown")
    /\ ev_processed row = true.
Proof.
  intros Hev Hcase Hdb.
  unfold has_processor_case, processor_cases in Hcase. cbn [existsb] in Hcase.
  repeat (apply orb_false_elim in Hcase as [? Hcase]).
  unfold processPaymentWebhook, try_catch. unfold bind at 1. unfold lift at 1.
  rewrite Hev.
  repeat match goal with H : is_type (JStr t) _ = false |- _ => rewrite H; clear H end.
  cbn [orb].
  unfold savePaymentEvent, bind, query, insert_event, is_null. rewrite Hdb.
  cbn [ev_event_type ev_event_data arg_event_type].
  cbn [nullish audit_data]. cbn [ret].
  do 2 eexists. split; [reflexivity |].
  cbn [trace payments payment_events set_payment_events log_call ev_event_type
       ev_event_data ev_processed].
  repeat split.
  cbn [ev_event_data]. now rewrite audit_status.
Qed.

Lemma payment_without_a_case_is_only_audited_witness :
  exists row w',
    processPaymentWebhook sample_env (payment_event "payment.processing") sample_world
    = (inr tt, w')
    /\ trace w' = trace sample_world ++ [audit_insert]
    /\ payments w' = payments sample_world
    /\ payment_events w' = payment_events sample_world ++ [row]
    /\ ev_event_type row = JStr "payment.processing"
    /\ get_opt (ev_event_data row) "status"
       = js_or (status sample_failed_payment) (JStr "unknown")
    /\ ev_processed row = true.
Proof.
  apply (payment_without_a_case_is_only_audited sample_env
           (payment_event "payment.processing") "payment.processing"
           sample_failed_payment sample_world); reflexivity.
Defined.

(** X20.  A succeeded payment is recorded from the provider's answer.  When
    the provider returns the payment's details, with a [customer] object,
    and the database is reachable, [handlePaymentSuccess] asks the provider
    first, leaves the payment's one row with the status [succeeded], and
    appends one audit row of type [payment.succeeded] whose amount is the
    provider's [total_amount] and whose currency is the provider's, or USD:
    the amount and currency of the event itself are not used. *)
Theorem succeeded_payment_is_recorded_from_the_provider
  (env : Env) (d : PaymentEventData) (details buyer : jsval) (w : World) :
  reachable env ->
  payment_details env (payment_id d) = inr details ->
  get details "customer" = inr buyer ->
  nullish (payment_id d) = false ->
  unique_payment (payment_id d) w ->
  exists p row calls w',
    handlePaymentSuccess env d w = (inr tt, w')
    /\ trace w' = trace w ++ Api (payment_id d) :: calls ++ [audit_insert]
    /\ filter (payment_matches (payment_id d)) (payments w') = [p]
    /\ pay_status p = JStr "succeeded"
    /\ other_payments (payment_id d) w' = other_payments (payment_id d) w
    /\ payment_events w' = payment_events w ++ [row]
    /\ ev_event_type row = JStr "payment.succeeded"
    /\ get_opt (ev_event_data row) "amount" = get_opt details "total_amount"
    /\ get_opt (ev_event_data row) "currency"
       = js_or (get_opt details "currency") (JStr "USD")
    /\ ev_processed row = true.
Proof.
  intros Hdb Hdet Hbuyer Hk Hu.
  unfold handlePaymentSuccess, try_catch. unfold bind at 1.
  unfold getPaymentDetails at 1. rewrite Hdet.
  unfold bind at 1. unfold lift at 1. rewrite Hbuyer.
  set (w0 := log_call (Api (payment_id d)) w).
  assert (Hcust : exists customer w1 calls1,
             (if truthy (get_opt buyer "customer_id")
              then getCustomerByDodoId env (get_opt buyer "customer_id")
              else ret None) w0 = (inr customer, w1)
             /\ payments w1 = payments w /\ payment_events w1 = payment_events w
             /\ trace w1 = trace w ++ Api (payment_id d) :: calls1).
  { destruct (truthy _).
    - destruct (getCustomerByDodoId_reachable env (get_opt buyer "customer_id") w0 Hdb)
        as [c Hc].
      exists c, (log_call customer_select w0), [customer_select].
      split; [exact Hc |]. cbn. repeat split. now rewrite <- app_assoc.
    - exists None, w0, []. repeat split. }
  destruct Hcust as (customer & w1 & calls1 & Hc & Hp1 & He1 & Ht1).
  unfold bind at 1. rewrite Hc.
  assert (Hu1 : unique_payment (payment_id d) w1)
    by (unfold unique_payment in *; now rewrite Hp1).
  destruct (updatePaymentStatus_effect env (payment_id d) (JStr "succeeded") w1
              Hdb Hk eq_refl Hu1)
    as (p & w2 & Hupd & Hf & Hps & _ & Ho & _ & _ & He2 & _ & _ & c2 & Ht2).
  unfold bind at 1. rewrite Hupd.
  match goal with
  | |- context [savePaymentEvent env ?a] =>
      destruct (savePaymentEvent_effect env a w2 Hdb eq_refl)
        as (w3 & Hsave & He3 & Hp3 & Ht3);
      exists p, (audit_row (next_id w2) a), (calls1 ++ [payment_select; c2]), w3
  end.
  unfold bind, handlePostPaymentActions. rewrite Hsave. cbn [ret].
  split; [reflexivity |].
  split; [rewrite Ht3, Ht2, Ht1; cbn; now rewrite <- !app_assoc |].
  unfold other_payments in *. rewrite Hp3, He3, He2, He1.
  split; [exact Hf |]. split; [exact Hps |].
  split; [now rewrite Ho, Hp1 |]. split; [reflexivity |].
  cbn [audit_row ev_event_type ev_event_data ev_processed].
  rewrite audit_amount, audit_currency. repeat split.
Qed.

Lemma succeeded_payment_is_recorded_from_the_provider_witness :
  exists p row calls w',
    handlePaymentSuccess provider_env sample_pending_payment sample_world = (inr tt, w')
    /\ trace w'
       = trace sample_world ++ Api (payment_id sample_pending_payment) :: calls
         ++ [audit_insert]
    /\ filter (payment_matches (payment_id sample_pending_payment)) (payments w') = [p]
    /\ pay_status p = JStr "succeeded"
    /\ other_payments (payment_id sample_pending_payment) w'
       = other_payments (payment_id sample_pending_payment) sample_world
    /\ payment_events w' = payment_events sample_world ++ [row]
    /\ ev_event_type row = JStr "payment.succeeded"
    /\ get_opt (ev_event_data row) "amount" = get_opt sample_details "total_amount"
    /\ get_opt (ev_event_data row) "currency"
       = js_or (get_opt sample_details "currency") (JStr "USD")
    /\ ev_processed row = true.
Proof.
  apply (succeeded_payment_is_recorded_from_the_provider provider_env
           sample_pending_payment sample_details
           (JObj [("customer_id", JStr "cus_1")]) sample_world).
  - intros n. reflexivity.
  - reflexivity.
  - reflexivity.
  - reflexivity.
  - unfold unique_payment. cbn. lia.
Defined.

Lemma audit_failure_reason (a : PaymentEventArgs) :
  get_opt (audit_data a) "failure_reason" = arg_failure_reason a.
Proof.
  unfold audit_data, get_opt. rewrite lookup_sent. cbn.
  now destruct (arg_failure_reason a).
Qed.

(** X21.  A failed payment prefers what the provider knows.  When the
    provider returns the payment's details and the database is reachable,
    [handlePaymentFailure] leaves the payment's one row with the status
    [failed] and appends one audit row of type [payment.failed]; its amount
    and currency are the provider's when it gives them, the event's
    otherwise, and 0 and USD when neither does; the failure reason is the
    event's, or [Unknown error]. *)
Theorem failed_payment_prefers_the_provider_details
  (env : Env) (d : PaymentEventData) (details : jsval) (w : World) :
  reachable env ->
  payment_details env (payment_id d) = inr details ->
  nullish (payment_id d) = false ->
  unique_payment (payment_id d) w ->
  exists p row calls w',
    handlePaymentFailure env d w = (inr tt, w')
    /\ trace w' = trace w ++ Api (payment_id d) :: calls ++ [audit_insert]
    /\ filter (payment_matches (payment_id d)) (payments w') = [p]
    /\ pay_status p = JStr "failed"
    /\ other_payments (payment_id d) w' = other_payments (payment_id d) w
    /\ payment_events w' = payment_events w ++ [row]
    /\ ev_event_type row = JStr "payment.failed"
    /\ get_opt (ev_event_data row) "amount"
       = js_or (js_or (get_opt details "total_amount") (amount d)) (JNum 0 0)
    /\ get_opt (ev_event_data row) "currency"
       = js_or (js_or (get_opt details "currency") (currency d)) (JStr "USD")
    /\ get_opt (ev_event_data row) "failure_reason"
       = js_or (failure_reason d) (JStr "Unknown error")
    /\ ev_processed row = true.
Proof.
  intros Hdb Hdet Hk Hu.
  unfold handlePaymentFailure. unfold try_catch at 1. unfold bind at 1.
  unfold try_catch at 1. unfold getPaymentDetails at 1. rewrite Hdet.
  set (w0 := log_call (Api (payment_id d)) w).
  set (customerId := js_or (get_opt (get_opt details "customer") "customer_id")
                           (customer_id d)).
  assert (Hcust : exists customer w1 calls1,
             (if truthy customerId
              then getCustomerByDodoId env customerId
              else ret None) w0 = (inr customer, w1)
             /\ payments w1 = payments w /\ payment_events w1 = payment_events w
             /\ trace w1 = trace w ++ Api (payment_id d) :: calls1).
  { destruct (truthy _).
    - destruct (getCustomerByDodoId_reachable env customerId w0 Hdb) as [c Hc].
      exists c, (log_call customer_select w0), [customer_select].
      split; [exact Hc |]. cbn. repeat split. now rewrite <- app_assoc.
    - exists None, w0, []. repeat split. }
  destruct Hcust as (customer & w1 & calls1 & Hc & Hp1 & He1 & Ht1).
  unfold bind at 1. rewrite Hc.
  assert (Hu1 : unique_payment (payment_id d) w1)
    by (unfold unique_payment in *; now rewrite Hp1).
  destruct (updatePaymentStatus_effect env (payment_id d) (JStr "failed") w1
              Hdb Hk eq_refl Hu1)
    as (p & w2 & Hupd & Hf & Hps & _ & Ho & _ & _ & He2 & _ & _ & c2 & Ht2).
  unfold bind at 1. rewrite Hupd.
  match goal with
  | |- context [savePaymentEvent env ?a] =>
      destruct (savePaymentEvent_effect env a w2 Hdb eq_refl)
        as (w3 & Hsave & He3 & Hp3 & Ht3);
      exists p, (audit_row (next_id w2) a), (calls1 ++ [payment_select; c2]), w3
  end.
  unfold bind, handlePostPaymentFailureActions. rewrite Hsave. cbn [ret].
  split; [reflexivity |].
  split; [rewrite Ht3, Ht2, Ht1; cbn; now rewrite <- !app_assoc |].
  unfold other_payments in *. rewrite Hp3, He3, He2, He1.
  split; [exact Hf |]. split; [exact Hps |].
  split; [now rewrite Ho, Hp1 |]. split; [reflexivity |].
  cbn [audit_row ev_event_type ev_event_data ev_processed].
  rewrite audit_amount, audit_currency, audit_failure_reason. repeat split.
Qed.

Lemma failed_payment_prefers_the_provider_details_witness :
  exists p row calls w',
    handlePaymentFailure provider_env sample_failed_payment sample_world = (inr tt, w')
    /\ trace w'
       = trace sample_world ++ Api (payment_id sample_failed_payment) :: calls
         ++ [audit_insert]
    /\ filter (payment_matches (payment_id sample_failed_payment)) (payments w') = [p]
    /\ pay_status p = JStr "failed"
    /\ other_payments (payment_id sample_failed_payment) w'
       = other_payments (payment_id sample_failed_payment) sample_world
    /\ payment_events w' = payment_events sample_world ++ [row]
    /\ ev_event_type row = JStr "payment.failed"
    /\ get_opt (ev_event_data row) "amount"
       = js_or (js_or (get_opt sample_details "total_amount")
                      (amount sample_failed_payment)) (JNum 0 0)
    /\ get_opt (ev_event_data row) "currency"
       = js_or (js_or (get_opt sample_details "currency")
                      (currency sample_failed_payment)) (JStr "USD")
    /\ get_opt (ev_event_data row) "failure_reason"
       = js_or (failure_reason sample_failed_payment) (JStr "Unknown error")
    /\ ev_processed row = true.
Proof.
  apply (failed_payment_prefers_the_provider_details provider_env sample_failed_payment
           sample_details sample_world).
  - intros n. reflexivity.
  - reflexivity.
  - reflexivity.
  - unfold unique_payment. cbn. lia.
Defined.
